(** * Settlement core of the paper-trading backend

    A shallow embedding of the order settlement logic of the server:
    the route handlers of [registerRoutes] ([POST /api/orders],
    [executeOrder], the five-second sweep), the two [IStorage]
    implementations of [server/storage.ts] and the insert schema of
    [shared/schema.ts]; then the price and portfolio routes, the Yahoo
    Finance client of [server/yahoo-finance-api.ts] and the seeding of the
    database in [server/init-db.ts].

    Conventions of the embedding.
    - A JavaScript [number] is an exact rational, or one of the three
      non-finite values; IEEE rounding error is not represented.  An amount
      computed here is the exact one, which binary64 gives up to its
      rounding: the two are written alike by [toFixed(2)] when the exact
      amount is a whole number of hundredths, and may differ by a cent when
      it lies halfway between two.
    - A [decimal] column is a [string] in the TypeScript types and stays a
      [string] here; [toFixed] and [parseFloat] are the JavaScript
      built-ins, written out.  The decimal texts of a request, which can
      be any texts, come back from the database as it holds them, with two
      decimals; the amounts the server writes are texts of [toFixed(2)].
    - A table (or a [Map]) is the list of its rows in insertion order.
    - [await storage.f(...)] is a call that either runs [f] on the store or
      throws; which calls throw is decided by an oracle of the run, so that
      the store is an external collaborator that may fail at any call.
    - A handler runs from its first store call to its last with nothing
      else writing to the store in between; handlers that overlap, each
      resumed at an [await] of the other, are not represented.
    - The quote source of a run gives one answer for an instrument, however
      often it is asked. *)

From Stdlib Require Import ZArith QArith Qround Qabs String Ascii List Bool Lia Lqa.
From Stdlib Require Import DecimalString DecimalN.
Import ListNotations.
Open Scope string_scope.
Open Scope list_scope.
Open Scope Z_scope.

(** ** JavaScript numbers *)

Inductive number : Type :=
| Fin (q : Q)
| Infinity (negative : bool)
| NaN.

Definition of_int (z : Z) : number := Fin (inject_Z z).

Definition is_neg (q : Q) : bool := Qnum q <? 0.
Definition is_zero (q : Q) : bool := Qnum q =? 0.

Definition nneg (x : number) : number :=
  match x with
  | Fin q => Fin (- q)
  | Infinity s => Infinity (negb s)
  | NaN => NaN
  end.

Definition nadd (x y : number) : number :=
  match x, y with
  | Fin a, Fin b => Fin (a + b)
  | Fin _, Infinity s => Infinity s
  | Infinity s, Fin _ => Infinity s
  | Infinity s, Infinity t => if Bool.eqb s t then Infinity s else NaN
  | _, _ => NaN
  end.

Definition nsub (x y : number) : number := nadd x (nneg y).

Definition nmul (x y : number) : number :=
  match x, y with
  | Fin a, Fin b => Fin (a * b)
  | Fin a, Infinity s => if is_zero a then NaN else Infinity (xorb s (is_neg a))
  | Infinity s, Fin b => if is_zero b then NaN else Infinity (xorb s (is_neg b))
  | Infinity s, Infinity t => Infinity (xorb s t)
  | _, _ => NaN
  end.

Definition ndiv (x y : number) : number :=
  match x, y with
  | Fin a, Fin b =>
      if is_zero b
      then (if is_zero a then NaN else Infinity (is_neg a))
      else Fin (a / b)
  | Fin _, Infinity _ => Fin 0
  | Infinity s, Fin b => Infinity (xorb s (is_neg b))
  | _, _ => NaN
  end.

(** [x <= y]; every comparison with [NaN] is false. *)
Definition nle (x y : number) : bool :=
  match x, y with
  | Fin a, Fin b => Qle_bool a b
  | Fin _, Infinity s => negb s
  | Infinity s, Fin _ => s
  | Infinity s, Infinity t => s || negb t
  | _, _ => false
  end.

(** [x >= y] *)
Definition nge (x y : number) : bool := nle y x.

(** Truthiness of a number: [0] and [NaN] are falsy. *)
Definition truthy (x : number) : bool :=
  match x with
  | Fin q => negb (is_zero q)
  | Infinity _ => true
  | NaN => false
  end.

(** ** [Number.prototype.toFixed(2)] *)

(** The integer [n] for which [n / 100] is nearest to [|q|], the larger one
    on a tie.  The text carries the sign of the number itself, so that a
    small negative number is written "-0.00".  The exponent notation that
    [toFixed] switches to from 1e21 on is not represented. *)
Definition round2 (q : Q) : Z := Qfloor (Qabs q * 100 + (1 # 2)).

Definition digit (d : Z) : ascii := ascii_of_nat (48 + Z.to_nat d).

Definition print_cents (n : Z) : string :=
  (NilZero.string_of_uint (N.to_uint (Z.to_N (n / 100)))
   ++ "."
   ++ String (digit ((n mod 100) / 10)) (String (digit (n mod 10)) ""))%string.

Definition toFixed2 (x : number) : string :=
  match x with
  | NaN => "NaN"
  | Infinity s => if s then "-Infinity" else "Infinity"
  | Fin q => ((if is_neg q then "-" else "") ++ print_cents (round2 q))%string
  end.

(** ** [parseFloat] on a string *)

Definition is_space (c : ascii) : bool :=
  let n := nat_of_ascii c in
  ((9 <=? n) && (n <=? 13))%nat || (n =? 32)%nat.

Fixpoint skip_spaces (s : string) : string :=
  match s with
  | String c r => if is_space c then skip_spaces r else s
  | EmptyString => s
  end.

Definition digit_value (c : ascii) : option Z :=
  let n := nat_of_ascii c in
  if ((48 <=? n) && (n <=? 57))%nat then Some (Z.of_nat n - 48) else None.

(** The leading decimal digits of [s], and what follows them. *)
Fixpoint take_digits (s : string) : list Z * string :=
  match s with
  | String c r =>
      match digit_value c with
      | Some d => let (ds, rest) := take_digits r in (d :: ds, rest)
      | None => ([], s)
      end
  | EmptyString => ([], s)
  end.

Definition digits_value (ds : list Z) : Z :=
  fold_left (fun acc d => 10 * acc + d) ds 0.

Definition take_sign (s : string) : bool * string :=
  match s with
  | String "-" r => (true, r)
  | String "+" r => (false, r)
  | _ => (false, s)
  end.

(** The exponent part [e±ddd] at the head of [s], when there is one. *)
Definition take_exponent (s : string) : Z :=
  match s with
  | String c r =>
      if (Ascii.eqb c "e" || Ascii.eqb c "E")%bool then
        let (neg, r') := take_sign r in
        let (ds, _) := take_digits r' in
        match ds with
        | [] => 0
        | _ => if neg then - digits_value ds else digits_value ds
        end
      else 0
  | EmptyString => 0
  end.

(** [m * 10 ^ e] *)
Definition scale10 (m e : Z) : Q :=
  if e <? 0 then m # Z.to_pos (10 ^ (- e)) else inject_Z (m * 10 ^ e).

Definition parseFloat (s : string) : number :=
  let (neg, s1) := take_sign (skip_spaces s) in
  if prefix "Infinity" s1 then Infinity neg
  else
    let (ip, s2) := take_digits s1 in
    let (fp, s3) :=
      match s2 with
      | String "." r => take_digits r
      | _ => ([], s2)
      end in
    match (ip ++ fp)%list with
    | [] => NaN
    | ds =>
        let q := scale10 (digits_value ds) (take_exponent s3 - Z.of_nat (length fp)) in
        Fin (if neg then - q else q)
    end.

(** ** A [decimal(10, 2)] column ([shared/schema.ts])

    The text the column gives back for a text written to it.  The database
    reads a decimal numeral (an optional sign, digits with at most one
    point, an optional exponent, white space around it) or [NaN], rounds it
    to two decimals, half away from zero, and refuses any other text and a
    value of [10^8] or more in size.  It prints what it holds with two
    decimals, and a zero without a sign. *)

Fixpoint all_spaces (s : string) : bool :=
  match s with
  | String c r => is_space c && all_spaces r
  | EmptyString => true
  end.

(** The exponent part at the head of [s]; [None] when an [e] is there
    without digits after it. *)
Definition take_exponent_strictly (s : string) : option (Z * string) :=
  match s with
  | String c r =>
      if (Ascii.eqb c "e" || Ascii.eqb c "E")%bool then
        let (neg, r') := take_sign r in
        let (ds, rest) := take_digits r' in
        match ds with
        | [] => None
        | _ => Some (if neg then - digits_value ds else digits_value ds, rest)
        end
      else Some (0, s)
  | EmptyString => Some (0, s)
  end.

(** [NaN] in any case of its letters, and what follows it. *)
Definition take_nan (s : string) : option string :=
  match s with
  | String a (String b (String c r)) =>
      if ((Ascii.eqb a "N" || Ascii.eqb a "n")
          && (Ascii.eqb b "A" || Ascii.eqb b "a")
          && (Ascii.eqb c "N" || Ascii.eqb c "n"))%bool
      then Some r else None
  | _ => None
  end.

(** The value the database reads in a text; [None] when it refuses it. *)
Definition numeric_in (text : string) : option number :=
  let s0 := skip_spaces text in
  match take_nan s0 with
  | Some r => if all_spaces r then Some NaN else None
  | None =>
      let (neg, s1) := take_sign s0 in
      let (ip, s2) := take_digits s1 in
      let (fp, s3) :=
        match s2 with
        | String "." r => take_digits r
        | _ => ([], s2)
        end in
      match (ip ++ fp)%list with
      | [] => None
      | ds =>
          match take_exponent_strictly s3 with
          | Some (ex, s4) =>
              if all_spaces s4 then
                let q := scale10 (digits_value ds) (ex - Z.of_nat (length fp)) in
                Some (Fin (if neg then - q else q))
              else None
          | None => None
          end
      end
  end.

(** What a [decimal(10, 2)] column holds after [text] was written to it. *)
Definition decimal_10_2 (text : string) : option string :=
  match numeric_in text with
  | Some NaN => Some "NaN"
  | Some (Fin q) =>
      let n := round2 q in
      if 10000000000 <=? n then None
      else Some ((if (is_neg q && negb (n =? 0)%Z)%bool then "-" else "")
                 ++ print_cents n)%string
  | _ => None
  end.

(** The same for a column that may hold [null]. *)
Definition decimal_10_2_or_null (text : option string) : option (option string) :=
  match text with
  | Some t => option_map Some (decimal_10_2 t)
  | None => Some None
  end.

(** ** Rows of the five tables ([shared/schema.ts]) *)

Definition Date := Z.

Module User.
Record t : Type := mk
  { id : Z; username : string; password : string; balance : string }.
Definition with_balance (b : string) (u : t) : t :=
  mk (id u) (username u) (password u) b.
End User.

Module Stock.
Record t : Type := mk
  { id : Z; symbol : string; exchange : string; name : string;
    currentPrice : string; previousClose : string; dayHigh : string;
    dayLow : string; dayOpen : string; volume : Z; lastUpdated : Date }.
End Stock.

Module Order.
Record t : Type := mk
  { id : Z; userId : Z; symbol : string; exchange : string;
    orderType : string; quantity : Z; limitPrice : string;
    takeProfitType : option string; takeProfitValue : option string;
    stopLossType : option string; stopLossValue : option string;
    status : string; executedPrice : option string;
    executedAt : option Date; createdAt : Date }.
Definition with_status (st : string) (o : t) : t :=
  mk (id o) (userId o) (symbol o) (exchange o) (orderType o) (quantity o)
     (limitPrice o) (takeProfitType o) (takeProfitValue o) (stopLossType o)
     (stopLossValue o) st (executedPrice o) (executedAt o) (createdAt o).
Definition with_executed (p : option string) (at_ : option Date) (o : t) : t :=
  mk (id o) (userId o) (symbol o) (exchange o) (orderType o) (quantity o)
     (limitPrice o) (takeProfitType o) (takeProfitValue o) (stopLossType o)
     (stopLossValue o) (status o) p at_ (createdAt o).
End Order.

Module Position.
Record t : Type := mk
  { id : Z; userId : Z; symbol : string; exchange : string;
    quantity : Z; averagePrice : string; currentValue : string;
    unrealizedPnL : string; createdAt : Date; updatedAt : Date }.
End Position.

Module Trade.
Record t : Type := mk
  { id : Z; userId : Z; orderId : Z; symbol : string; exchange : string;
    tradeType : string; quantity : Z; price : string; totalValue : string;
    executedAt : Date }.
End Trade.

(** [InsertOrder & { userId: number }] *)
Module InsertOrder.
Record t : Type := mk
  { symbol : string; exchange : string; orderType : string; quantity : Z;
    limitPrice : string;
    takeProfitType : option string; takeProfitValue : option string;
    stopLossType : option string; stopLossValue : option string;
    userId : Z }.
End InsertOrder.

(** [InsertPosition & { userId: number }] *)
Module InsertPosition.
Record t : Type := mk
  { symbol : string; exchange : string; quantity : Z;
    averagePrice : string; userId : Z }.
End InsertPosition.

(** [InsertTrade & { userId: number }] *)
Module InsertTrade.
Record t : Type := mk
  { orderId : Z; symbol : string; exchange : string; tradeType : string;
    quantity : Z; price : string; totalValue : string; userId : Z }.
End InsertTrade.

(** ** The store

    The five tables and the counters that number their rows: the [serial]
    sequences of the database, the [current...Id] fields of [MemStorage]. *)

Record Store : Type := mkStore
  { users : list User.t;
    stocks : list Stock.t;
    orders : list Order.t;
    positions : list Position.t;
    trades : list Trade.t;
    currentOrderId : Z;
    currentPositionId : Z;
    currentTradeId : Z }.

Definition set_users (us : list User.t) (s : Store) : Store :=
  mkStore us (stocks s) (orders s) (positions s) (trades s)
          (currentOrderId s) (currentPositionId s) (currentTradeId s).

Definition set_orders (os : list Order.t) (s : Store) : Store :=
  mkStore (users s) (stocks s) os (positions s) (trades s)
          (currentOrderId s) (currentPositionId s) (currentTradeId s).

Definition set_positions (ps : list Position.t) (s : Store) : Store :=
  mkStore (users s) (stocks s) (orders s) ps (trades s)
          (currentOrderId s) (currentPositionId s) (currentTradeId s).

Definition set_stocks (ks : list Stock.t) (s : Store) : Store :=
  mkStore (users s) ks (orders s) (positions s) (trades s)
          (currentOrderId s) (currentPositionId s) (currentTradeId s).

(** A [Map] with string keys: its entries in insertion order, one for each
    key. *)
Definition map_get {V : Type} (key : string) (m : list (string * V)) : option V :=
  option_map snd (find (fun kv => String.eqb (fst kv) key) m).

Definition map_has {V : Type} (key : string) (m : list (string * V)) : bool :=
  existsb (fun kv => String.eqb (fst kv) key) m.

Definition map_set {V : Type} (key : string) (v : V) (m : list (string * V))
  : list (string * V) :=
  if map_has key m
  then map (fun kv => if String.eqb (fst kv) key then (key, v) else kv) m
  else m ++ [(key, v)].

(** [`${symbol}-${exchange}`], the key of [MemStorage.stocks] *)
Definition stock_key (symbol exchange : string) : string :=
  (symbol ++ "-" ++ exchange)%string.

Definition insert_order (o : Order.t) (s : Store) : Store :=
  mkStore (users s) (stocks s) (orders s ++ [o]) (positions s) (trades s)
          (currentOrderId s + 1) (currentPositionId s) (currentTradeId s).

Definition insert_position (p : Position.t) (s : Store) : Store :=
  mkStore (users s) (stocks s) (orders s) (positions s ++ [p]) (trades s)
          (currentOrderId s) (currentPositionId s + 1) (currentTradeId s).

Definition insert_trade (t : Trade.t) (s : Store) : Store :=
  mkStore (users s) (stocks s) (orders s) (positions s) (trades s ++ [t])
          (currentOrderId s) (currentPositionId s) (currentTradeId s + 1).

(** [UPDATE ... WHERE p], and [Map.set] on a key that is present: the rows
    keep their places. *)
Definition update_where {A : Type} (p : A -> bool) (f : A -> A) (rows : list A) : list A :=
  map (fun r => if p r then f r else r) rows.

(** [DELETE ... WHERE p], and [Map.delete]. *)
Definition delete_where {A : Type} (p : A -> bool) (rows : list A) : list A :=
  filter (fun r => negb (p r)) rows.

(** [x || null] on a nullable string: the empty string is falsy. *)
Definition or_null (x : option string) : option string :=
  match x with
  | Some "" => None
  | _ => x
  end.

(** ** [class DatabaseStorage implements IStorage] *)

Module DatabaseStorage.

Definition getUser (id : Z) (s : Store) : option User.t :=
  find (fun u => User.id u =? id) (users s).

Definition updateUserBalance (userId : Z) (balance : number) (s : Store) : Store :=
  set_users
    (update_where (fun u => User.id u =? userId)
                  (User.with_balance (toFixed2 balance)) (users s)) s.

Definition getStock (symbol exchange : string) (s : Store) : option Stock.t :=
  find (fun k => String.eqb (Stock.symbol k) symbol
                 && String.eqb (Stock.exchange k) exchange) (stocks s).

(** The row as the [returning()] of the insert gives it: the three
    [decimal(10, 2)] columns hold what the database made of the texts of
    the request.  [None] when the database refuses one of them, and the
    insert throws. *)
Definition createOrder (now : Date) (order : InsertOrder.t) (s : Store)
  : option (Order.t * Store) :=
  match decimal_10_2 (InsertOrder.limitPrice order),
        decimal_10_2_or_null (or_null (InsertOrder.takeProfitValue order)),
        decimal_10_2_or_null (or_null (InsertOrder.stopLossValue order)) with
  | Some limitPrice, Some takeProfitValue, Some stopLossValue =>
      let newOrder :=
        Order.mk (currentOrderId s) (InsertOrder.userId order)
          (InsertOrder.symbol order) (InsertOrder.exchange order)
          (InsertOrder.orderType order) (InsertOrder.quantity order)
          limitPrice
          (or_null (InsertOrder.takeProfitType order))
          takeProfitValue
          (or_null (InsertOrder.stopLossType order))
          stopLossValue
          "PENDING" None None now in
      Some (newOrder, insert_order newOrder s)
  | _, _, _ => None
  end.

Definition getOrder (id : Z) (s : Store) : option Order.t :=
  find (fun o => Order.id o =? id) (orders s).

Definition getActiveOrders (userId : Z) (s : Store) : list Order.t :=
  filter (fun o => (Order.userId o =? userId)
                   && String.eqb (Order.status o) "PENDING") (orders s).

(** [executedPrice ? executedPrice.toFixed(2) : null], and the same test
    for [executedAt]: a price that is [0] or [NaN] leaves both [null]. *)
Definition updateOrderStatus (now : Date) (orderId : Z) (status : string)
           (executedPrice : option number) (s : Store) : Store :=
  let price :=
    match executedPrice with
    | Some p => if truthy p then Some (toFixed2 p) else None
    | None => None
    end in
  let at_ :=
    match executedPrice with
    | Some p => if truthy p then Some now else None
    | None => None
    end in
  set_orders
    (update_where (fun o => Order.id o =? orderId)
                  (fun o => Order.with_executed price at_ (Order.with_status status o))
                  (orders s)) s.

Definition cancelOrder (orderId : Z) (s : Store) : Store :=
  set_orders
    (update_where (fun o => Order.id o =? orderId)
                  (Order.with_status "CANCELLED") (orders s)) s.

Definition getPosition (userId : Z) (symbol exchange : string) (s : Store)
  : option Position.t :=
  find (fun p => (Position.userId p =? userId)
                 && String.eqb (Position.symbol p) symbol
                 && String.eqb (Position.exchange p) exchange) (positions s).

Definition createPosition (now : Date) (position : InsertPosition.t) (s : Store)
  : Position.t * Store :=
  let newPosition :=
    Position.mk (currentPositionId s) (InsertPosition.userId position)
      (InsertPosition.symbol position) (InsertPosition.exchange position)
      (InsertPosition.quantity position) (InsertPosition.averagePrice position)
      (toFixed2 (nmul (of_int (InsertPosition.quantity position))
                      (parseFloat (InsertPosition.averagePrice position))))
      "0.00" now now in
  (newPosition, insert_position newPosition s).

Definition updatePosition (now : Date) (positionId : Z) (quantity : Z)
           (averagePrice : number) (s : Store) : Store :=
  set_positions
    (update_where (fun p => Position.id p =? positionId)
       (fun p => Position.mk (Position.id p) (Position.userId p)
                   (Position.symbol p) (Position.exchange p)
                   quantity (toFixed2 averagePrice)
                   (toFixed2 (nmul (of_int quantity) averagePrice))
                   (Position.unrealizedPnL p) (Position.createdAt p) now)
       (positions s)) s.

Definition deletePosition (positionId : Z) (s : Store) : Store :=
  set_positions (delete_where (fun p => Position.id p =? positionId) (positions s)) s.

Definition createTrade (now : Date) (trade : InsertTrade.t) (s : Store)
  : Trade.t * Store :=
  let newTrade :=
    Trade.mk (currentTradeId s) (InsertTrade.userId trade)
      (InsertTrade.orderId trade) (InsertTrade.symbol trade)
      (InsertTrade.exchange trade) (InsertTrade.tradeType trade)
      (InsertTrade.quantity trade) (InsertTrade.price trade)
      (InsertTrade.totalValue trade) now in
  (newTrade, insert_trade newTrade s).

(** The price of a stock, and the positions of a user. *)

Definition updateStockPrice (now : Date) (symbol exchange : string) (price : number)
           (s : Store) : Store :=
  set_stocks
    (update_where (fun k => String.eqb (Stock.symbol k) symbol
                            && String.eqb (Stock.exchange k) exchange)
       (fun k => Stock.mk (Stock.id k) (Stock.symbol k) (Stock.exchange k) (Stock.name k)
                   (toFixed2 price) (Stock.previousClose k) (Stock.dayHigh k)
                   (Stock.dayLow k) (Stock.dayOpen k) (Stock.volume k) now)
       (stocks s)) s.


End DatabaseStorage.

(** ** [class MemStorage implements IStorage], its order operations

    [this.orders] is the [orders] table of the store and [currentOrderId]
    its counter. *)

Module MemStorage.

Definition createOrder (now : Date) (order : InsertOrder.t) (s : Store) : Order.t * Store :=
  let newOrder :=
    Order.mk (currentOrderId s) (InsertOrder.userId order)
      (InsertOrder.symbol order) (InsertOrder.exchange order)
      (InsertOrder.orderType order) (InsertOrder.quantity order)
      (InsertOrder.limitPrice order)
      (or_null (InsertOrder.takeProfitType order))
      (or_null (InsertOrder.takeProfitValue order))
      (or_null (InsertOrder.stopLossType order))
      (or_null (InsertOrder.stopLossValue order))
      "PENDING" None None now in
  (newOrder, insert_order newOrder s).

Definition getOrder (id : Z) (s : Store) : option Order.t :=
  find (fun o => Order.id o =? id) (orders s).

(** [executedPrice !== undefined] guards the two executed fields. *)
Definition updateOrderStatus (now : Date) (orderId : Z) (status : string)
           (executedPrice : option number) (s : Store) : Store :=
  set_orders
    (update_where (fun o => Order.id o =? orderId)
       (fun o =>
          match executedPrice with
          | Some p => Order.with_executed (Some (toFixed2 p)) (Some now)
                                          (Order.with_status status o)
          | None => Order.with_status status o
          end)
       (orders s)) s.

Definition cancelOrder (orderId : Z) (s : Store) : Store :=
  set_orders
    (update_where (fun o => Order.id o =? orderId)
                  (Order.with_status "CANCELLED") (orders s)) s.

(** Its stock operations; [this.stocks] is a [Map] from
    [`${symbol}-${exchange}`] to the stock. *)

Definition getStock (symbol exchange : string) (stocks : list (string * Stock.t))
  : option Stock.t :=
  map_get (stock_key symbol exchange) stocks.

Definition getAllStocks (stocks : list (string * Stock.t)) : list Stock.t :=
  map snd stocks.

Definition updateStockPrice (now : Date) (symbol exchange : string) (price : number)
           (stocks : list (string * Stock.t)) : list (string * Stock.t) :=
  let key := stock_key symbol exchange in
  match map_get key stocks with
  | Some stock =>
      map_set key
        (Stock.mk (Stock.id stock) (Stock.symbol stock) (Stock.exchange stock)
                  (Stock.name stock) (toFixed2 price) (Stock.previousClose stock)
                  (Stock.dayHigh stock) (Stock.dayLow stock) (Stock.dayOpen stock)
                  (Stock.volume stock) now)
        stocks
  | None => stocks
  end.

End MemStorage.

(** [export const storage = new DatabaseStorage();] *)
Module storage := DatabaseStorage.

(** ** Asynchronous code: store, exceptions, clock

    A computation reads the environment of the run (the clock, the oracle
    that says which store calls throw, the quote source), counts the store
    calls made so far and threads the store.  A thrown exception keeps the
    store as it is at that point: no call of the source opens a transaction. *)

Inductive Error : Type := ZodError | StoreError | QuoteError.

Inductive completion (A : Type) : Type :=
| Normal (a : A)
| Throw (e : Error).
Arguments Normal {A} a.
Arguments Throw {A} e.

Record Env : Type := mkEnv
  { now : Date;
    throws : nat -> bool;
    quote : string -> string -> option number }.

Definition M (A : Type) : Type := Env -> nat -> Store -> completion A * nat * Store.

Definition ret {A : Type} (a : A) : M A := fun _ n s => (Normal a, n, s).

Definition bind {A B : Type} (m : M A) (k : A -> M B) : M B :=
  fun e n s =>
    match m e n s with
    | (Normal a, n', s') => k a e n' s'
    | (Throw err, n', s') => (Throw err, n', s')
    end.

Definition throw {A : Type} (err : Error) : M A := fun _ n s => (Throw err, n, s).

(** [try { m } catch (error) { h error }] *)
Definition try_catch {A : Type} (m : M A) (h : Error -> M A) : M A :=
  fun e n s =>
    match m e n s with
    | (Normal a, n', s') => (Normal a, n', s')
    | (Throw err, n', s') => h err e n' s'
    end.

Notation "x <- m ;; k" := (bind m (fun x => k))
  (at level 61, m at next level, right associativity).
Notation "m ;;; k" := (bind m (fun _ => k))
  (at level 61, right associativity).

(** [await storage.f(...)] for an [f] that reads. *)
Definition await_read {A : Type} (f : Store -> A) : M A :=
  fun e n s => if throws e n then (Throw StoreError, S n, s) else (Normal (f s), S n, s).

(** [await storage.f(...)] for an [f] that returns nothing. *)
Definition await_write (f : Date -> Store -> Store) : M unit :=
  fun e n s => if throws e n then (Throw StoreError, S n, s) else (Normal tt, S n, f (now e) s).

(** [await storage.f(...)] for an [f] that inserts a row and returns it. *)
Definition await_insert {A : Type} (f : Date -> Store -> A * Store) : M A :=
  fun e n s =>
    if throws e n then (Throw StoreError, S n, s)
    else (Normal (fst (f (now e) s)), S n, snd (f (now e) s)).

(** The same for an insert that the database may refuse for what the row
    holds: it throws then, and writes nothing. *)
Definition await_insert_checked {A : Type} (f : Date -> Store -> option (A * Store)) : M A :=
  fun e n s =>
    if throws e n then (Throw StoreError, S n, s)
    else match f (now e) s with
         | Some (a, s') => (Normal a, S n, s')
         | None => (Throw StoreError, S n, s)
         end.

(** [fetchStockPrice(symbol, exchange)], its [currentPrice]; it throws when
    the quote source fails.  The source of a run answers the same each time
    it is asked for an instrument. *)
Definition fetchStockPrice (symbol exchange : string) : M number :=
  fun e n s =>
    match quote e symbol exchange with
    | Some p => (Normal p, n, s)
    | None => (Throw QuoteError, n, s)
    end.

Fixpoint for_of {A : Type} (xs : list A) (body : A -> M unit) : M unit :=
  match xs with
  | [] => ret tt
  | x :: rest => body x ;;; for_of rest body
  end.

(** The store after running [m], its result, and the number of store calls. *)
Definition store_after {A : Type} (m : M A) (e : Env) (s : Store) : Store :=
  snd (m e 0%nat s).
Definition result_of {A : Type} (m : M A) (e : Env) (s : Store) : completion A :=
  fst (fst (m e 0%nat s)).

(** ** [executeOrder] ([registerRoutes]) *)

Definition executeOrder (orderId : Z) (executionPrice : number) : M unit :=
  try_catch
    (order <- await_read (storage.getOrder orderId) ;;
     match order with
     | None => ret tt
     | Some order =>
       if negb (String.eqb (Order.status order) "PENDING") then ret tt
       else
         (* Update order status *)
         await_write (fun t => storage.updateOrderStatus t orderId "EXECUTED"
                                 (Some executionPrice)) ;;;
         (* Create trade record *)
         let totalValue := nmul (of_int (Order.quantity order)) executionPrice in
         await_insert (fun t => storage.createTrade t
           (InsertTrade.mk (Order.id order) (Order.symbol order)
              (Order.exchange order) (Order.orderType order)
              (Order.quantity order) (toFixed2 executionPrice)
              (toFixed2 totalValue) (Order.userId order))) ;;;
         (* Update position *)
         existingPosition <-
           await_read (storage.getPosition (Order.userId order)
                         (Order.symbol order) (Order.exchange order)) ;;
         if String.eqb (Order.orderType order) "BUY" then
           match existingPosition with
           | Some existingPosition =>
               let newQuantity :=
                 Position.quantity existingPosition + Order.quantity order in
               let newAveragePrice :=
                 ndiv (nadd (nmul (of_int (Position.quantity existingPosition))
                                  (parseFloat (Position.averagePrice existingPosition)))
                            (nmul (of_int (Order.quantity order)) executionPrice))
                      (of_int newQuantity) in
               await_write (fun t => storage.updatePosition t
                              (Position.id existingPosition) newQuantity newAveragePrice)
           | None =>
               await_insert (fun t => storage.createPosition t
                 (InsertPosition.mk (Order.symbol order) (Order.exchange order)
                    (Order.quantity order) (toFixed2 executionPrice)
                    (Order.userId order))) ;;;
               ret tt
           end ;;;
           (* Deduct cash from user balance *)
           user <- await_read (storage.getUser (Order.userId order)) ;;
           match user with
           | Some user =>
               let newBalance := nsub (parseFloat (User.balance user)) totalValue in
               await_write (fun _ => storage.updateUserBalance (Order.userId order) newBalance)
           | None => ret tt
           end
         else
           match existingPosition with
           | Some existingPosition =>
               if String.eqb (Order.orderType order) "SELL" then
                 (* Handle sell order *)
                 let newQuantity :=
                   Position.quantity existingPosition - Order.quantity order in
                 (if newQuantity <=? 0
                  then await_write (fun _ => storage.deletePosition
                                               (Position.id existingPosition))
                  else await_write (fun t => storage.updatePosition t
                         (Position.id existingPosition) newQuantity
                         (parseFloat (Position.averagePrice existingPosition)))) ;;;
                 (* Add cash to user balance *)
                 user <- await_read (storage.getUser (Order.userId order)) ;;
                 match user with
                 | Some user =>
                     let newBalance := nadd (parseFloat (User.balance user)) totalValue in
                     await_write (fun _ => storage.updateUserBalance
                                             (Order.userId order) newBalance)
                 | None => ret tt
                 end
               else ret tt
           | None => ret tt
           end
     end)
    (fun _ => ret tt).

(** ** The insert schema ([shared/schema.ts])

    [insertOrderSchema] is [createInsertSchema(orders)] without the columns
    the server fills in.  The schema is derived from the column types alone:
    a [text] or [decimal] column is checked as a string, an [integer] column
    as an integral number within the 32-bit range, and a column without
    [notNull] may be absent or [null].  The request body is the JSON object
    sent by the client, read at the nine keys of the schema. *)

Inductive JsValue : Type :=
| JsUndefined
| JsNull
| JsBoolean (b : bool)
| JsNumber (x : number)
| JsString (s : string)
| JsObject.

Module Body.
Record t : Type := mk
  { symbol : JsValue; exchange : JsValue; orderType : JsValue;
    quantity : JsValue; limitPrice : JsValue;
    takeProfitType : JsValue; takeProfitValue : JsValue;
    stopLossType : JsValue; stopLossValue : JsValue }.
End Body.

(** [z.infer<typeof insertOrderSchema>] *)
Module OrderData.
Record t : Type := mk
  { symbol : string; exchange : string; orderType : string; quantity : Z;
    limitPrice : string;
    takeProfitType : option string; takeProfitValue : option string;
    stopLossType : option string; stopLossValue : option string }.
End OrderData.

Definition z_string (v : JsValue) : option string :=
  match v with
  | JsString s => Some s
  | _ => None
  end.

Definition z_integer (v : JsValue) : option Z :=
  match v with
  | JsNumber (Fin q) =>
      let n := Qnum q / Zpos (Qden q) in
      if (Qnum q mod Zpos (Qden q) =? 0) && (-2147483648 <=? n) && (n <=? 2147483647)
      then Some n else None
  | _ => None
  end.

(** A nullable, optional string: [Some None] when absent or [null]. *)
Definition z_string_nullish (v : JsValue) : option (option string) :=
  match v with
  | JsUndefined | JsNull => Some None
  | JsString s => Some (Some s)
  | _ => None
  end.

(** [insertOrderSchema.parse(req.body)]; [None] when it throws a [ZodError]. *)
Definition insertOrderSchema_parse (body : Body.t) : option OrderData.t :=
  match z_string (Body.symbol body), z_string (Body.exchange body),
        z_string (Body.orderType body), z_integer (Body.quantity body),
        z_string (Body.limitPrice body),
        z_string_nullish (Body.takeProfitType body),
        z_string_nullish (Body.takeProfitValue body),
        z_string_nullish (Body.stopLossType body),
        z_string_nullish (Body.stopLossValue body) with
  | Some sy, Some ex, Some ty, Some qty, Some lim, Some tpt, Some tpv, Some slt, Some slv =>
      Some (OrderData.mk sy ex ty qty lim tpt tpv slt slv)
  | _, _, _, _, _, _, _, _, _ => None
  end.

(** [{ ...orderData, userId }] *)
Definition with_userId (orderData : OrderData.t) (userId : Z) : InsertOrder.t :=
  InsertOrder.mk (OrderData.symbol orderData) (OrderData.exchange orderData)
    (OrderData.orderType orderData) (OrderData.quantity orderData)
    (OrderData.limitPrice orderData) (OrderData.takeProfitType orderData)
    (OrderData.takeProfitValue orderData) (OrderData.stopLossType orderData)
    (OrderData.stopLossValue orderData) userId.

(** ** [POST /api/orders] ([registerRoutes]) *)

Inductive Response : Type :=
| json_order (order : Order.t)
| json_success
| json_error (status : Z) (error : string).

(** The test made at creation time, as written in the handler. *)
Definition shouldExecute_at_creation (orderType : string)
           (currentPrice limitPrice : number) : bool :=
  if String.eqb orderType "BUY" && nle currentPrice limitPrice then true
  else if String.eqb orderType "SELL" && nge currentPrice limitPrice then true
  else false.

Definition post_api_orders (body : Body.t) : M Response :=
  try_catch
    (match insertOrderSchema_parse body with
     | None => throw ZodError
     | Some orderData =>
       let userId := 1 in
       (* Validate stock exists *)
       stock <- await_read (storage.getStock (OrderData.symbol orderData)
                                             (OrderData.exchange orderData)) ;;
       match stock with
       | None => ret (json_error 400 "Stock not found")
       | Some stock =>
         (* Create order *)
         order <- await_insert_checked (fun t => storage.createOrder t
                                                   (with_userId orderData userId)) ;;
         let currentPrice := parseFloat (Stock.currentPrice stock) in
         let limitPrice := parseFloat (OrderData.limitPrice orderData) in
         (if shouldExecute_at_creation (OrderData.orderType orderData)
                                       currentPrice limitPrice
          then executeOrder (Order.id order) currentPrice
          else ret tt) ;;;
         ret (json_order order)
       end
     end)
    (fun error =>
       match error with
       | ZodError => ret (json_error 400 "Invalid order data")
       | _ => ret (json_error 500 "Failed to place order")
       end).

(** ** [DELETE /api/orders/:id] *)

Definition delete_api_orders (orderId : Z) : M Response :=
  try_catch
    (await_write (fun _ => storage.cancelOrder orderId) ;;;
     ret json_success)
    (fun _ => ret (json_error 500 "Failed to cancel order")).

(** ** The sweep: the callback of [setInterval(..., 5000)] *)

(** The test made by the sweep, as written in its loop. *)
Definition shouldExecute_in_sweep (orderType : string)
           (currentPrice limitPrice : number) : bool :=
  if String.eqb orderType "BUY" && nle currentPrice limitPrice then true
  else if String.eqb orderType "SELL" && nge currentPrice limitPrice then true
  else false.

(** One turn of the loop over the active orders, with its own [try]. *)
Definition sweep_order (order : Order.t) : M unit :=
  try_catch
    (currentPrice <- fetchStockPrice (Order.symbol order) (Order.exchange order) ;;
     let limitPrice := parseFloat (Order.limitPrice order) in
     if shouldExecute_in_sweep (Order.orderType order) currentPrice limitPrice
     then executeOrder (Order.id order) currentPrice
     else ret tt)
    (fun _ => ret tt).

Definition sweep : M unit :=
  try_catch
    (activeOrders <- await_read (storage.getActiveOrders 1) ;;
     for_of activeOrders sweep_order)
    (fun _ => ret tt).

(** ** The execution condition as the specification words it *)

Inductive Side : Type := BUY | SELL.

Definition side_text (sd : Side) : string :=
  match sd with BUY => "BUY" | SELL => "SELL" end.

Definition evaluateExecutionCondition (sd : Side) (limitPrice currentPrice : Q) : Prop :=
  match sd with
  | BUY => (currentPrice <= limitPrice)%Q
  | SELL => (currentPrice >= limitPrice)%Q
  end.

(** ** Runs without store failures *)

Definition no_throw (e : Env) : Prop := forall n, throws e n = false.

(** The four steps of a settlement none of whose store calls throws, as
    functions of the store; [executeOrder_settles] below proves that this is
    what [executeOrder] does to a pending order. *)

Definition trade_of (o : Order.t) (p : number) : InsertTrade.t :=
  InsertTrade.mk (Order.id o) (Order.symbol o) (Order.exchange o)
    (Order.orderType o) (Order.quantity o) (toFixed2 p)
    (toFixed2 (nmul (of_int (Order.quantity o)) p)) (Order.userId o).

Definition weighted_average (pos : Position.t) (o : Order.t) (p : number) : number :=
  ndiv (nadd (nmul (of_int (Position.quantity pos))
                   (parseFloat (Position.averagePrice pos)))
             (nmul (of_int (Order.quantity o)) p))
       (of_int (Position.quantity pos + Order.quantity o)).

Definition position_step (t : Date) (o : Order.t) (p : number) (s : Store) : Store :=
  match storage.getPosition (Order.userId o) (Order.symbol o) (Order.exchange o) s with
  | Some pos =>
      if String.eqb (Order.orderType o) "BUY" then
        storage.updatePosition t (Position.id pos)
          (Position.quantity pos + Order.quantity o) (weighted_average pos o p) s
      else if String.eqb (Order.orderType o) "SELL" then
        if Position.quantity pos - Order.quantity o <=? 0
        then storage.deletePosition (Position.id pos) s
        else storage.updatePosition t (Position.id pos)
               (Position.quantity pos - Order.quantity o)
               (parseFloat (Position.averagePrice pos)) s
      else s
  | None =>
      if String.eqb (Order.orderType o) "BUY" then
        snd (storage.createPosition t
               (InsertPosition.mk (Order.symbol o) (Order.exchange o)
                  (Order.quantity o) (toFixed2 p) (Order.userId o)) s)
      else s
  end.

Definition balance_step (o : Order.t) (p : number) (had_position : bool) (s : Store) : Store :=
  let totalValue := nmul (of_int (Order.quantity o)) p in
  if String.eqb (Order.orderType o) "BUY" then
    match storage.getUser (Order.userId o) s with
    | Some user =>
        storage.updateUserBalance (Order.userId o)
          (nsub (parseFloat (User.balance user)) totalValue) s
    | None => s
    end
  else if String.eqb (Order.orderType o) "SELL" && had_position then
    match storage.getUser (Order.userId o) s with
    | Some user =>
        storage.updateUserBalance (Order.userId o)
          (nadd (parseFloat (User.balance user)) totalValue) s
    | None => s
    end
  else s.

Definition has_position (o : Order.t) (s : Store) : bool :=
  match storage.getPosition (Order.userId o) (Order.symbol o) (Order.exchange o) s with
  | Some _ => true
  | None => false
  end.

Definition settled (t : Date) (orderId : Z) (o : Order.t) (p : number) (s : Store) : Store :=
  let s1 := storage.updateOrderStatus t orderId "EXECUTED" (Some p) s in
  let s2 := snd (storage.createTrade t (trade_of o p) s1) in
  balance_step o p (has_position o s2) (position_step t o p s2).

(** The order row as [executeOrder] stamps it. *)
Definition stamped (t : Date) (p : number) (o : Order.t) : Order.t :=
  Order.with_executed (if truthy p then Some (toFixed2 p) else None)
                      (if truthy p then Some t else None)
                      (Order.with_status "EXECUTED" o).


(** The status of the order with a given id, when there is one. *)
Definition status_of (orderId : Z) (s : Store) : option string :=
  option_map Order.status (storage.getOrder orderId s).

(** The digits of a decimal numeral of the standard library, most significant
    first, as [take_digits] reads them. *)
Fixpoint uint_digits (u : Decimal.uint) : list Z :=
  match u with
  | Decimal.Nil => []
  | Decimal.D0 r => 0 :: uint_digits r
  | Decimal.D1 r => 1 :: uint_digits r
  | Decimal.D2 r => 2 :: uint_digits r
  | Decimal.D3 r => 3 :: uint_digits r
  | Decimal.D4 r => 4 :: uint_digits r
  | Decimal.D5 r => 5 :: uint_digits r
  | Decimal.D6 r => 6 :: uint_digits r
  | Decimal.D7 r => 7 :: uint_digits r
  | Decimal.D8 r => 8 :: uint_digits r
  | Decimal.D9 r => 9 :: uint_digits r
  end.

(** ** [GET /api/stocks/:symbol/:exchange/price] ([registerRoutes])

    The response is the price data; [currentPrice] is the field of it that
    the server goes on to use. *)

Inductive PriceResponse : Type :=
| json_priceData (currentPrice : number)
| json_price_error (status : Z).

Definition get_api_stocks_price (symbol exchange : string) : M PriceResponse :=
  try_catch
    (priceData <- fetchStockPrice symbol exchange ;;
     (* Update stock in storage *)
     await_write (fun t => storage.updateStockPrice t symbol exchange priceData) ;;;
     ret (json_priceData priceData))
    (fun _ => ret (json_price_error 500)).

(** What is fixed in an order once it is placed: all but the status and the
    two executed fields. *)
Definition placed (o : Order.t) : Order.t :=
  Order.with_executed None None (Order.with_status "" o).

(** What is fixed in a stock once it is in the catalogue: all but the current
    price and the time of its last update. *)
Definition unpriced (k : Stock.t) : Stock.t :=
  Stock.mk (Stock.id k) (Stock.symbol k) (Stock.exchange k) (Stock.name k) ""
           (Stock.previousClose k) (Stock.dayHigh k) (Stock.dayLow k) (Stock.dayOpen k)
           (Stock.volume k) 0.

(** ** The writes the routes make

    One write is one change of the store that a route can make, with what
    the route knows when it makes it: an order is stamped, and its trade
    inserted, after it was found pending; a position is inserted for a key
    that has none, with the quantity of an order of the table; a position is
    updated to its quantity plus that of an order, or to what is left of it
    after a sale, which is then more than nothing; the price of a stock is
    updated. *)

Inductive write : Store -> Store -> Prop :=
| write_order (t : Date) (order : InsertOrder.t) (row : Order.t) (s s' : Store) :
    storage.createOrder t order s = Some (row, s') ->
    write s s'
| write_cancel (orderId : Z) (s : Store) :
    write s (storage.cancelOrder orderId s)
| write_status (t : Date) (orderId : Z) (p : number) (o : Order.t) (s : Store) :
    storage.getOrder orderId s = Some o ->
    Order.status o = "PENDING" ->
    write s (storage.updateOrderStatus t orderId "EXECUTED" (Some p) s)
| write_settled (t t' : Date) (orderId : Z) (p : number) (o : Order.t) (s : Store) :
    storage.getOrder orderId s = Some o ->
    Order.status o = "PENDING" ->
    write s (snd (storage.createTrade t' (trade_of o p)
                    (storage.updateOrderStatus t orderId "EXECUTED" (Some p) s)))
| write_new_position (t : Date) (o : Order.t) (p : number) (s : Store) :
    storage.getPosition (Order.userId o) (Order.symbol o) (Order.exchange o) s = None ->
    In (placed o) (map placed (orders s)) ->
    write s (snd (storage.createPosition t
                    (InsertPosition.mk (Order.symbol o) (Order.exchange o)
                       (Order.quantity o) (toFixed2 p) (Order.userId o)) s))
| write_bought (t : Date) (pos : Position.t) (o : Order.t) (averagePrice : number)
               (s : Store) :
    In pos (positions s) ->
    In (placed o) (map placed (orders s)) ->
    write s (storage.updatePosition t (Position.id pos)
               (Position.quantity pos + Order.quantity o) averagePrice s)
| write_sold (t : Date) (pos : Position.t) (o : Order.t) (s : Store) :
    In pos (positions s) ->
    0 < Position.quantity pos - Order.quantity o ->
    write s (storage.updatePosition t (Position.id pos)
               (Position.quantity pos - Order.quantity o)
               (parseFloat (Position.averagePrice pos)) s)
| write_sold_out (positionId : Z) (s : Store) :
    write s (storage.deletePosition positionId s)
| write_balance (userId : Z) (balance : number) (s : Store) :
    write s (storage.updateUserBalance userId balance s)
| write_price (t : Date) (symbol exchange : string) (price : number) (s : Store) :
    write s (storage.updateStockPrice t symbol exchange price s).

(** Any number of steps, one after the other. *)
Section Steps.
Variable step : Store -> Store -> Prop.

Inductive steps : Store -> Store -> Prop :=
| steps_none (s : Store) : steps s s
| steps_more (s s' s'' : Store) : steps s s' -> step s' s'' -> steps s s''.
End Steps.

Definition writes : Store -> Store -> Prop := steps write.

(** ** Settlements, one after the other

    One step of a run in which no store call fails: an order is inserted, an
    order is cancelled, a pending order is settled in full, or the price of
    a stock is updated. *)

Inductive settlement : Store -> Store -> Prop :=
| settlement_order (t : Date) (order : InsertOrder.t) (row : Order.t) (s s' : Store) :
    storage.createOrder t order s = Some (row, s') ->
    settlement s s'
| settlement_cancel (orderId : Z) (s : Store) :
    settlement s (storage.cancelOrder orderId s)
| settlement_settled (t : Date) (orderId : Z) (p : number) (o : Order.t) (s : Store) :
    storage.getOrder orderId s = Some o ->
    Order.status o = "PENDING" ->
    settlement s (settled t orderId o p s)
| settlement_price (t : Date) (symbol exchange : string) (price : number) (s : Store) :
    settlement s (storage.updateStockPrice t symbol exchange price s).

Definition settlements : Store -> Store -> Prop := steps settlement.

(** The rows of a table are numbered below the table's counter, and no two
    of them have the same number. *)
Definition numbered_rows (ids : list Z) (counter : Z) : Prop :=
  Forall (fun i => i < counter) ids /\ NoDup ids.

Definition numbered (s : Store) : Prop :=
  numbered_rows (map Order.id (orders s)) (currentOrderId s)
  /\ numbered_rows (map Position.id (positions s)) (currentPositionId s)
  /\ numbered_rows (map Trade.id (trades s)) (currentTradeId s).

(** The (user, symbol, exchange) of a position. *)
Definition position_key (p : Position.t) : Z * string * string :=
  (Position.userId p, Position.symbol p, Position.exchange p).

(** No two positions of the same user in the same instrument. *)
Definition one_position_per_key (s : Store) : Prop :=
  NoDup (map position_key (positions s)).

(** The operations on the store that the server offers: the routes that
    write, the sweep, and the settlement they share.  [perform] runs one of
    them from its first store call to its last, and nothing else writes to
    the store in between: two handlers that overlap, each resumed at an
    [await] of the other, are not a run of [perform]. *)
Inductive Operation : Type :=
| Place (body : Body.t)
| Cancel (orderId : Z)
| Price (symbol exchange : string)
| Sweep
| Settle (orderId : Z) (executionPrice : number).

Definition perform (op : Operation) (e : Env) (s : Store) : Store :=
  match op with
  | Place body => store_after (post_api_orders body) e s
  | Cancel orderId => store_after (delete_api_orders orderId) e s
  | Price symbol exchange => store_after (get_api_stocks_price symbol exchange) e s
  | Sweep => store_after sweep e s
  | Settle orderId executionPrice => store_after (executeOrder orderId executionPrice) e s
  end.

(** The database before any order: users and stocks, empty order, position
    and trade tables, sequences at 1. *)
Definition opening (us : list User.t) (ks : list Stock.t) : Store :=
  mkStore us ks [] [] [] 1 1 1.

(** The stores the server can be in when its operations run one after the
    other: any operations, in any runs, from an opening store. *)
Inductive reachable (us : list User.t) (ks : list Stock.t) : Store -> Prop :=
| reach_opening : reachable us ks (opening us ks)
| reach_perform (op : Operation) (e : Env) (s : Store) :
    reachable us ks s -> reachable us ks (perform op e s).

(** A trade and the order it settles. *)
Definition trade_matches (tr : Trade.t) (o : Order.t) : Prop :=
  Trade.orderId tr = Order.id o /\
  Trade.userId tr = Order.userId o /\
  Trade.symbol tr = Order.symbol o /\
  Trade.exchange tr = Order.exchange o /\
  Trade.tradeType tr = Order.orderType o /\
  Trade.quantity tr = Order.quantity o /\
  (Order.status o = "EXECUTED" \/ Order.status o = "CANCELLED").

(** No order has two trades, and every trade has its order. *)
Definition accounted (s : Store) : Prop :=
  NoDup (map Trade.orderId (trades s)) /\
  forall tr, In tr (trades s) ->
             exists o, storage.getOrder (Trade.orderId tr) s = Some o /\ trade_matches tr o.

(** The three statuses, and nothing executed about a pending order. *)
Definition lifecycle (s : Store) : Prop :=
  forall o, In o (orders s) ->
            (Order.status o = "PENDING" /\ Order.executedPrice o = None
             /\ Order.executedAt o = None)
            \/ Order.status o = "EXECUTED" \/ Order.status o = "CANCELLED".

(** Positions hold a positive quantity, as long as orders ask for one. *)
Definition whole_lots (s : Store) : Prop :=
  (forall o, In o (orders s) -> 0 < Order.quantity o) ->
  forall p, In p (positions s) -> 0 < Position.quantity p.

(** Every EXECUTED order has a trade. *)
Definition executed_traded (s : Store) : Prop :=
  forall o, In o (orders s) -> Order.status o = "EXECUTED" ->
            exists tr, In tr (trades s) /\ Trade.orderId tr = Order.id o.

(** The status in which a sweep leaves an order that it found pending, when
    no store call fails. *)
Definition sweep_verdict (e : Env) (order : Order.t) : string :=
  match quote e (Order.symbol order) (Order.exchange order) with
  | Some currentPrice =>
      if shouldExecute_in_sweep (Order.orderType order) currentPrice
                                (parseFloat (Order.limitPrice order))
      then "EXECUTED" else "PENDING"
  | None => "PENDING"
  end.

(** The relative error of one binary64 operation is at most [2^-53]. *)
Definition unit_roundoff : Q := 1 # 9007199254740992.

(** What binary64 gives for one operation whose exact result is [exact]: a
    number within the relative error of it, or the infinity of its sign
    when it is too large; a result that is not finite stays what it is.
    The arithmetic above is the exact one, which is one of these. *)
Definition binary64_of (exact result : number) : Prop :=
  match exact, result with
  | Fin x, Fin y => (Qabs (y - x) <= unit_roundoff * Qabs x)%Q
  | Fin x, Infinity negative => negative = is_neg x
  | Infinity a, Infinity b => a = b
  | NaN, NaN => True
  | _, _ => False
  end.

(** Every trade was written from one execution price: its [price] is that
    price, and its [totalValue] the product of its quantity and that price
    as binary64 gives it, each written with two decimals on its own. *)
Definition trade_totals (s : Store) : Prop :=
  forall tr, In tr (trades s) ->
             exists executionPrice total : number,
               Trade.price tr = toFixed2 executionPrice /\
               Trade.totalValue tr = toFixed2 total /\
               binary64_of (nmul (of_int (Trade.quantity tr)) executionPrice) total.

(** ** The writes of one settlement

    What [executeOrder] writes for the order [o] it has read: the status of
    that order, its trade, the position of its user in its instrument, found
    by [getPosition] or created, and the balance of its user. *)

Inductive settling (o : Order.t) : Store -> Store -> Prop :=
| settling_status (t : Date) (p : number) (s : Store) :
    settling o s (storage.updateOrderStatus t (Order.id o) "EXECUTED" (Some p) s)
| settling_trade (t : Date) (p : number) (s : Store) :
    settling o s (snd (storage.createTrade t (trade_of o p) s))
| settling_new_position (t : Date) (p : number) (s : Store) :
    settling o s (snd (storage.createPosition t
                         (InsertPosition.mk (Order.symbol o) (Order.exchange o)
                            (Order.quantity o) (toFixed2 p) (Order.userId o)) s))
| settling_position (t : Date) (existing : Position.t) (quantity : Z)
                    (averagePrice : number) (s : Store) :
    storage.getPosition (Order.userId o) (Order.symbol o) (Order.exchange o) s
    = Some existing ->
    settling o s (storage.updatePosition t (Position.id existing) quantity averagePrice s)
| settling_sold_out (existing : Position.t) (s : Store) :
    storage.getPosition (Order.userId o) (Order.symbol o) (Order.exchange o) s
    = Some existing ->
    settling o s (storage.deletePosition (Position.id existing) s)
| settling_balance (balance : number) (s : Store) :
    settling o s (storage.updateUserBalance (Order.userId o) balance s).

(** What is not the order [o], the position of its user in its instrument,
    or its user, is the same in [s'] as in [s]. *)
Definition unrelated (o : Order.t) (s s' : Store) : Prop :=
  (forall i, i <> Order.id o -> storage.getOrder i s' = storage.getOrder i s) /\
  (forall pos, position_key pos <> (Order.userId o, Order.symbol o, Order.exchange o) ->
               (In pos (positions s') <-> In pos (positions s))) /\
  (forall u, User.id u <> Order.userId o -> (In u (users s') <-> In u (users s))) /\
  stocks s' = stocks s.

(** ** [class YahooFinanceAPI] ([server/yahoo-finance-api.ts]) *)

(** [String.prototype.endsWith] *)
Fixpoint endsWith (s suffix : string) : bool :=
  String.eqb s suffix ||
  match s with
  | EmptyString => false
  | String _ rest => endsWith rest suffix
  end.

Fixpoint skip (n : nat) (s : string) : string :=
  match n, s with
  | O, _ => s
  | S n', String _ rest => skip n' rest
  | S _, EmptyString => EmptyString
  end.

(** [s.replace(pattern, replacement)] for a string [pattern]: the first
    occurrence only.  The [$] patterns of a replacement are not represented;
    the replacements of the source are empty. *)
Fixpoint replace (pattern replacement s : string) : string :=
  if String.prefix pattern s then (replacement ++ skip (String.length pattern) s)%string
  else match s with
       | EmptyString => EmptyString
       | String c rest => String c (replace pattern replacement rest)
       end.

(** The [meta] object of a chart result.  A key that the response does not
    carry is [None]; the numeric keys carry numbers. *)
Module Meta.
Record t : Type := mk
  { regularMarketPrice : option number; previousClose : option number;
    regularMarketDayHigh : option number; regularMarketDayLow : option number;
    regularMarketVolume : option number; marketState : option string }.
End Meta.

(** One element of [data.chart.result]: its [meta], when it has one, and
    whether it has the array [indicators.quote]. *)
Module ChartResult.
Record t : Type := mk { meta : option Meta.t; indicators_quote : bool }.
End ChartResult.

(** What [fetch] gives for a chart: it rejects, or it resolves to a response
    with its [ok] flag, whose [json()] rejects ([None]) or gives [data];
    [data] is read at [data.chart.result], [None] when [data.chart] or
    [data.chart.result] is falsy. *)
Inductive Fetched : Type :=
| fetch_rejected
| fetch_response (ok : bool) (data : option (option (list ChartResult.t))).

Module YahooQuoteData.
Record t : Type := mk
  { symbol : string; regularMarketPrice : number; regularMarketChange : number;
    regularMarketChangePercent : number; regularMarketDayHigh : number;
    regularMarketDayLow : number; regularMarketOpen : number;
    regularMarketPreviousClose : number; regularMarketVolume : number;
    marketState : string }.
End YahooQuoteData.

(** A key of [meta] read as a number: [undefined] is [NaN] in arithmetic. *)
Definition to_number (x : option number) : number :=
  match x with
  | Some v => v
  | None => NaN
  end.

(** [x || 0] *)
Definition or_zero (x : number) : number := if truthy x then x else of_int 0.

Module YahooFinanceAPI.

Definition formatSymbol (symbol exchange : string) : string :=
  if String.eqb exchange "NSE" then (symbol ++ ".NS")%string
  else if String.eqb exchange "BSE" then (symbol ++ ".BO")%string
  else symbol.

(** [getQuote]; [None] when it throws. *)
Definition getQuote (fetch : string -> Fetched) (symbol exchange : string)
  : option YahooQuoteData.t :=
  let yahooSymbol := formatSymbol symbol exchange in
  match fetch yahooSymbol with
  | fetch_response true (Some (Some (result :: _))) =>
      match ChartResult.meta result, ChartResult.indicators_quote result with
      | Some meta, true =>
          let price := to_number (Meta.regularMarketPrice meta) in
          let previousClose := to_number (Meta.previousClose meta) in
          Some (YahooQuoteData.mk yahooSymbol
                  (or_zero price)
                  (or_zero (nsub price previousClose))
                  (or_zero (nmul (ndiv (nsub price previousClose) previousClose)
                                 (of_int 100)))
                  (or_zero (to_number (Meta.regularMarketDayHigh meta)))
                  (or_zero (to_number (Meta.regularMarketDayLow meta)))
                  (or_zero (to_number (Meta.regularMarketDayLow meta)))
                  (or_zero previousClose)
                  (or_zero (to_number (Meta.regularMarketVolume meta)))
                  (match Meta.marketState meta with
                   | Some "" | None => "REGULAR"
                   | Some state => state
                   end))
      | _, _ => None
      end
  | _ => None
  end.

(** Extract base symbol from Yahoo format (RELIANCE.NS -> RELIANCE) *)
Definition extractBaseSymbol (yahooSymbol : string) : string * string :=
  if endsWith yahooSymbol ".NS" then (replace ".NS" "" yahooSymbol, "NSE")
  else if endsWith yahooSymbol ".BO" then (replace ".BO" "" yahooSymbol, "BSE")
  else (yahooSymbol, "NSE").

End YahooFinanceAPI.

(** The [currentPrice] of [fetchStockPrice(symbol, exchange)] when the quote
    source is Yahoo Finance behind [fetch]. *)
Definition yahoo_price (fetch : string -> Fetched) (symbol exchange : string)
  : option number :=
  option_map YahooQuoteData.regularMarketPrice
             (YahooFinanceAPI.getQuote fetch symbol exchange).

(** A symbol without a dot in it. *)
Definition dot_free (s : string) : Prop := ~ In "."%char (list_ascii_of_string s).

(** ** [GET /api/portfolio] ([registerRoutes]) *)


Module PortfolioPosition.
Record t : Type := mk
  { symbol : string; exchange : string; quantity : Z; averagePrice : number;
    currentPrice : number; currentValue : number; unrealizedPnL : number;
    unrealizedPnLPercent : number }.
End PortfolioPosition.

Module PortfolioSummary.
Record t : Type := mk
  { totalValue : number; totalInvestment : number; totalPnL : number;
    totalPnLPercent : number; availableCash : number;
    positions : list PortfolioPosition.t }.
End PortfolioSummary.


(** The three variables [totalValue], [totalInvestment] and [totalPnL] of
    the handler, which the callbacks of [positions.map] add to. *)
Module Totals.
Record t : Type := mk
  { totalValue : number; totalInvestment : number; totalPnL : number }.
End Totals.












(** ** [initializeDatabase] ([server/init-db.ts])

    The function talks to the database itself, not to a storage.  The
    database is the tables and the sequences of the two [serial] columns it
    inserts into.  A database call that throws ends the function: its one
    [try] has a [catch] that logs. *)

Module InsertStock.
Record t : Type := mk
  { symbol : string; exchange : string; name : string; currentPrice : string;
    previousClose : string; dayHigh : string; dayLow : string; dayOpen : string;
    volume : Z }.
End InsertStock.

Record Database : Type := mkDatabase
  { tables : Store; users_id_seq : Z; stocks_id_seq : Z }.

Definition insert_user (username password balance : string) (d : Database) : Database :=
  mkDatabase
    (set_users (users (tables d) ++ [User.mk (users_id_seq d) username password balance])
               (tables d))
    (users_id_seq d + 1) (stocks_id_seq d).

Definition insert_stock (now : Date) (stock : InsertStock.t) (d : Database) : Database :=
  mkDatabase
    (set_stocks
       (stocks (tables d)
        ++ [Stock.mk (stocks_id_seq d) (InsertStock.symbol stock)
              (InsertStock.exchange stock) (InsertStock.name stock)
              (InsertStock.currentPrice stock) (InsertStock.previousClose stock)
              (InsertStock.dayHigh stock) (InsertStock.dayLow stock)
              (InsertStock.dayOpen stock) (InsertStock.volume stock) now])
       (tables d))
    (users_id_seq d) (stocks_id_seq d + 1).

Definition initialStocks : list InsertStock.t :=
  [ InsertStock.mk "RELIANCE" "NSE" "Reliance Industries Limited"
      "2456.75" "2444.30" "2461.80" "2438.50" "2444.30" 1250000;
    InsertStock.mk "TCS" "NSE" "Tata Consultancy Services"
      "3710.25" "3698.50" "3725.00" "3695.00" "3700.00" 890000;
    InsertStock.mk "INFY" "NSE" "Infosys Limited"
      "1530.40" "1518.10" "1535.80" "1515.20" "1520.00" 1150000;
    InsertStock.mk "HDFCBANK" "NSE" "HDFC Bank Limited"
      "1632.45" "1641.20" "1645.20" "1628.30" "1640.00" 750000;
    InsertStock.mk "ICICIBANK" "NSE" "ICICI Bank Limited"
      "1245.60" "1238.90" "1252.30" "1235.40" "1240.00" 980000 ].

(** [for (const stock of initialStocks) await db.insert(stocks)...]; [n] is
    the number of database calls made so far. *)
Fixpoint insert_initial_stocks (e : Env) (n : nat) (rows : list InsertStock.t)
         (d : Database) : Database :=
  match rows with
  | [] => d
  | stock :: rest =>
      if throws e n then d
      else insert_initial_stocks e (S n) rest (insert_stock (now e) stock d)
  end.

(** From "Check if stocks are already initialized" on. *)
Definition initialize_stocks (e : Env) (n : nat) (d : Database) : Database :=
  if throws e n then d
  else match stocks (tables d) with
       | [] => insert_initial_stocks e (S n) initialStocks d
       | _ :: _ => d
       end.

Definition initializeDatabase (e : Env) (d : Database) : Database :=
  (* Check if demo user already exists *)
  if throws e 0 then d
  else match find (fun u => String.eqb (User.username u) "demo") (users (tables d)) with
       | Some _ => initialize_stocks e 1 d
       | None =>
           (* Create demo user *)
           if throws e 1 then d
           else initialize_stocks e 2 (insert_user "demo" "demo123" "100000.00" d)
       end.

(** ** The stock map of [MemStorage] *)

(** An exchange without a dash in it. *)
Definition dash_free (s : string) : Prop := ~ In "-"%char (list_ascii_of_string s).

(** Every stock sits under the key made of its own symbol and exchange, as
    [initializeDemoData] and [upsertStock] put it, no key is there twice, and
    the exchanges have no dash. *)
Definition keyed (stocks : list (string * Stock.t)) : Prop :=
  NoDup (map fst stocks) /\
  Forall (fun kv => fst kv = stock_key (Stock.symbol (snd kv)) (Stock.exchange (snd kv))
                    /\ dash_free (Stock.exchange (snd kv))) stocks.

(** ** Sample data

    The demo user and the first stock of the seed data, an order for it as
    [POST /api/orders] stores it, and a holding of ten shares bought at 100. *)

Definition demo_user : User.t := User.mk 1 "demo" "demo123" "100000.00".

Definition reliance : Stock.t :=
  Stock.mk 1 "RELIANCE" "NSE" "Reliance Industries Limited"
    "2456.75" "2444.30" "2461.80" "2438.50" "2444.30" 1250000 0.

Definition demo_order (orderType : string) (quantity : Z) (limitPrice : string) : Order.t :=
  Order.mk 1 1 "RELIANCE" "NSE" orderType quantity limitPrice
    None None None None "PENDING" None None 0.

Definition ten_at_100 : Position.t :=
  Position.mk 1 1 "RELIANCE" "NSE" 10 "100.00" "1000.00" "0.00" 0 0.

Definition empty_store : Store := mkStore [demo_user] [reliance] [] [] [] 1 1 1.

Definition demo_store (o : Order.t) (ps : list Position.t) : Store :=
  mkStore [demo_user] [reliance] [o] ps [] 2 2 1.

(** One pending order of the demo user, no holding. *)
Definition buy_store : Store := demo_store (demo_order "BUY" 10 "2400.00") [].
Definition sell_store : Store := demo_store (demo_order "SELL" 10 "2400.00") [].

(** A pending BUY order that costs more than the demo user has. *)
Definition overdraft_store : Store := demo_store (demo_order "BUY" 100 "2400.00") [].

Definition sell_all_store : Store := demo_store (demo_order "SELL" 10 "130.00") [ten_at_100].

(** A run in which no store call throws, and one in which the [k]-th does. *)
Definition calm : Env := mkEnv 1000 (fun _ => false) (fun _ _ => None).
Definition failing_at (k : nat) : Env := mkEnv 1000 (Nat.eqb k) (fun _ _ => None).

(** The store once the demo user's BUY order has been settled at 2400. *)
Definition executed_store : Store := store_after (executeOrder 1 (Fin 2400)) calm buy_store.

(** A request body whose fields have the types the schema asks for. *)
Definition typed_body (sy ex ty lim : string) (n : Z) : Body.t :=
  Body.mk (JsString sy) (JsString ex) (JsString ty) (JsNumber (of_int n)) (JsString lim)
          JsUndefined JsUndefined JsUndefined JsUndefined.

(** A request body for the first stock of the seed data. *)
Definition demo_body (orderType : string) (quantity : number) (limitPrice : string) : Body.t :=
  Body.mk (JsString "RELIANCE") (JsString "NSE") (JsString orderType)
    (JsNumber quantity) (JsString limitPrice)
    JsUndefined JsUndefined JsUndefined JsUndefined.

(** ** More sample data *)

(** The store after a first order of the demo user, a BUY of ten shares
    with a limit above the last price, which the route fills at once. *)
Definition first_store : Store :=
  perform (Place (demo_body "BUY" (of_int 10) "2500.00")) calm
          (opening [demo_user] [reliance]).

Definition first_order : Order.t :=
  Order.mk 1 1 "RELIANCE" "NSE" "BUY" 10 "2500.00" None None None None
           "EXECUTED" (Some "2456.75") (Some 1000) 1000.

(** Two pending orders and a cancelled one, and a run in which the quote
    source answers for TCS only. *)
Definition tcs_order (id : Z) (status : string) : Order.t :=
  Order.mk id 1 "TCS" "NSE" "BUY" 5 "3800.00" None None None None status None None 0.

Definition three_orders_store : Store :=
  mkStore [demo_user] [reliance]
          [demo_order "BUY" 10 "2400.00"; tcs_order 2 "PENDING"; tcs_order 3 "CANCELLED"]
          [] [] 4 1 1.

Definition tcs_only : Env :=
  mkEnv 1000 (fun _ => false)
        (fun symbol _ => if String.eqb symbol "TCS" then Some (Fin 3700) else None).

(** A chart whose [meta] is empty, and a run whose quotes come from it. *)
Definition bare_chart : string -> Fetched :=
  fun _ => fetch_response true
             (Some (Some [ChartResult.mk (Some (Meta.mk None None None None None None))
                                         true])).

Definition bare_quotes : Env := mkEnv 1000 (fun _ => false) (yahoo_price bare_chart).

(** A database with empty tables. *)
Definition empty_database : Database := mkDatabase (mkStore [] [] [] [] [] 1 1 1) 1 1.

(** * Properties *)

Arguments toFixed2 : simpl never.
Arguments parseFloat : simpl never.
Arguments nmul : simpl never.
Arguments nadd : simpl never.
Arguments nsub : simpl never.
Arguments ndiv : simpl never.
Arguments truthy : simpl never.

(** ** Decimal texts: what [toFixed(2)] writes, [parseFloat] reads back *)

Lemma uint_digits_acc (u : Decimal.uint) (acc : positive) :
  fold_left (fun a d => 10 * a + d) (uint_digits u) (Z.pos acc)
  = Z.pos (Pos.of_uint_acc u acc).
Proof.
  revert acc. induction u; intros acc; cbn [uint_digits fold_left Pos.of_uint_acc];
    [reflexivity| ..]; rewrite <- IHu; f_equal; lia.
Qed.

Lemma take_digits_uint (u : Decimal.uint) (rest : string) :
  take_digits (NilEmpty.string_of_uint u ++ rest)%string
  = (uint_digits u ++ fst (take_digits rest), snd (take_digits rest)).
Proof.
  induction u; cbn [NilEmpty.string_of_uint uint_digits String.append app];
    [now destruct (take_digits rest) | ..];
    cbn [take_digits]; rewrite IHu; reflexivity.
Qed.

Lemma uint_digits_value (u : Decimal.uint) :
  digits_value (uint_digits u) = Z.of_N (N.of_uint u).
Proof.
  unfold digits_value, N.of_uint.
  induction u; cbn [uint_digits fold_left Pos.of_uint Z.of_N];
    try exact IHu; try reflexivity; apply (uint_digits_acc u).
Qed.

Lemma digit_value_digit (d : Z) :
  0 <= d <= 9 -> digit_value (digit d) = Some d.
Proof.
  intros H.
  assert (E : d = 0 \/ d = 1 \/ d = 2 \/ d = 3 \/ d = 4 \/ d = 5 \/ d = 6 \/ d = 7
              \/ d = 8 \/ d = 9) by lia.
  repeat (destruct E as [E | E]; [subst d; vm_compute; reflexivity|]).
  subst d; vm_compute; reflexivity.
Qed.

Lemma take_two_digits (a b : Z) :
  0 <= a <= 9 -> 0 <= b <= 9 ->
  take_digits (String (digit a) (String (digit b) "")) = ([a; b], "").
Proof.
  intros Ha Hb. cbn [take_digits].
  now rewrite (digit_value_digit a Ha), (digit_value_digit b Hb).
Qed.

Lemma digits_value_app (xs : list Z) (a b : Z) :
  digits_value (xs ++ [a; b]) = digits_value xs * 100 + a * 10 + b.
Proof. unfold digits_value. rewrite fold_left_app. cbn [fold_left]. lia. Qed.

Lemma digit_first (c : ascii) (d : Z) (r : string) :
  digit_value c = Some d ->
  skip_spaces (String c r) = String c r /\
  take_sign (String c r) = (false, String c r) /\
  prefix "Infinity" (String c r) = false.
Proof.
  destruct c as [[] [] [] [] [] [] [] []]; intros H;
    try (vm_compute in H; discriminate H); repeat split; reflexivity.
Qed.

Lemma parseFloat_plain (c : ascii) (d : Z) (r frac : string) (ip fp : list Z) :
  digit_value c = Some d ->
  take_digits (String c r) = (ip, String "." frac) ->
  take_digits frac = (fp, "") ->
  parseFloat (String c r)
  = Fin (scale10 (digits_value (ip ++ fp)) (0 - Z.of_nat (length fp))).
Proof.
  intros Hc Hip Hfp.
  destruct (digit_first c d r Hc) as [Hsp [Hsg Hinf]].
  unfold parseFloat. rewrite Hsp, Hsg, Hinf, Hip, Hfp.
  assert (Hne : exists tl, ip = d :: tl).
  { cbn [take_digits] in Hip. rewrite Hc in Hip.
    destruct (take_digits r) as [ds rest]. injection Hip as <- _. now exists ds. }
  destruct Hne as [tl ->]. reflexivity.
Qed.

Lemma nilzero_head (u : Decimal.uint) :
  exists c r d, NilZero.string_of_uint u = String c r /\ digit_value c = Some d.
Proof.
  destruct u; cbn [NilZero.string_of_uint NilEmpty.string_of_uint];
    do 3 eexists; (split; [reflexivity | cbv; reflexivity]).
Qed.

Lemma take_digits_nilzero (u : Decimal.uint) (rest : string) :
  exists ds,
    take_digits (NilZero.string_of_uint u ++ rest)%string
    = (ds ++ fst (take_digits rest), snd (take_digits rest)) /\
    digits_value ds = Z.of_N (N.of_uint u).
Proof.
  destruct u.
  1: { exists [0]. split; [|reflexivity].
       cbn [NilZero.string_of_uint String.append take_digits].
       change (digit_value "0") with (Some 0).
       now destruct (take_digits rest). }
  all: eexists; split; [apply take_digits_uint | apply uint_digits_value].
Qed.

(** Reading back what [print_cents] writes. *)
Lemma parseFloat_print_cents (n : Z) :
  0 <= n -> parseFloat (print_cents n) = Fin (n # 100).
Proof.
  intros Hn. unfold print_cents.
  set (a := (n mod 100) / 10). set (b := n mod 10).
  assert (Ha : 0 <= a <= 9) by (unfold a; Z.to_euclidean_division_equations; lia).
  assert (Hb : 0 <= b <= 9) by (unfold b; Z.to_euclidean_division_equations; lia).
  set (u := N.to_uint (Z.to_N (n / 100))).
  set (frac := String (digit a) (String (digit b) "")).
  destruct (nilzero_head u) as [c [r [d [Hs Hc]]]].
  destruct (take_digits_nilzero u ("." ++ frac)) as [ds [Htd Hv]].
  unfold u in Hv. rewrite DecimalN.Unsigned.of_to, Z2N.id in Hv by (apply Z.div_pos; lia).
  change (take_digits ("." ++ frac)) with (@nil Z, String "." frac) in Htd.
  cbn [fst snd] in Htd. rewrite app_nil_r in Htd.
  rewrite Hs in Htd |- *. cbn [String.append] in Htd |- *.
  rewrite (parseFloat_plain c d _ frac ds [a; b] Hc Htd (take_two_digits a b Ha Hb)).
  rewrite digits_value_app, Hv. unfold scale10. cbn.
  f_equal. f_equal. unfold a, b. Z.to_euclidean_division_equations; lia.
Qed.

Lemma parseFloat_minus (c : ascii) (d : Z) (r : string) (q : Q) :
  digit_value c = Some d ->
  parseFloat (String c r) = Fin q ->
  parseFloat (String "-" (String c r)) = Fin (- q).
Proof.
  intros Hc. destruct (digit_first c d r Hc) as [Hsp [Hsg Hinf]].
  unfold parseFloat. rewrite Hsp, Hsg.
  change (skip_spaces (String "-" (String c r))) with (String "-" (String c r)).
  change (take_sign (String "-" (String c r))) with (true, String c r).
  cbv beta iota. rewrite Hinf.
  destruct (take_digits (String c r)) as [ip s2].
  destruct (match s2 with String "." r0 => take_digits r0 | _ => ([], s2) end) as [fp s3].
  destruct (ip ++ fp); [discriminate|].
  intros H. injection H as <-. reflexivity.
Qed.

Lemma round2_nonneg (q : Q) : 0 <= round2 q.
Proof.
  unfold round2. change 0 with (Qfloor 0). apply Qfloor_resp_le.
  assert (H := Qabs_nonneg q).
  apply Qle_trans with (Qabs q * 100)%Q.
  - apply Qmult_le_0_compat; [exact H | discriminate].
  - rewrite <- (Qplus_0_r (Qabs q * 100)) at 1.
    apply Qplus_le_r. discriminate.
Qed.

Lemma round2_hundredths (n : Z) :
  0 <= n -> round2 (n # 100) = n /\ round2 (- (n # 100)) = n.
Proof.
  intros Hn.
  assert (H : Qfloor ((n # 100) * 100 + (1 # 2)) = n).
  { unfold Qfloor, Qmult, Qplus. cbn [Qnum Qden].
    change (Z.pos (100 * 1 * 2)) with 200. change (Z.pos (100 * 1)) with 100.
    change (Z.pos 2) with 2.
    Z.to_euclidean_division_equations; lia. }
  unfold round2. split.
  - rewrite (Qfloor_comp _ ((n # 100) * 100 + (1 # 2))); [exact H|].
    rewrite Qabs_pos; [reflexivity|]. unfold Qle. cbn [Qnum Qden]. lia.
  - rewrite (Qfloor_comp _ ((n # 100) * 100 + (1 # 2))); [exact H|].
    rewrite Qabs_opp, Qabs_pos; [reflexivity|]. unfold Qle. cbn [Qnum Qden]. lia.
Qed.

(** Reading back what [toFixed(2)] writes for a finite number. *)
Lemma parseFloat_toFixed2 (q : Q) :
  parseFloat (toFixed2 (Fin q))
  = Fin (if is_neg q then - (round2 q # 100) else round2 q # 100).
Proof.
  pose proof (round2_nonneg q) as Hn.
  pose proof (parseFloat_print_cents (round2 q) Hn) as Hp.
  unfold toFixed2. destruct (is_neg q); [|exact Hp].
  revert Hp. unfold print_cents.
  destruct (nilzero_head (N.to_uint (Z.to_N (round2 q / 100)))) as [c [r [d [-> Hc]]]].
  cbn [String.append]. now apply parseFloat_minus with (d := d).
Qed.



Lemma round2_Qeq (a b : Q) : a == b -> round2 a = round2 b.
Proof. intros H. unfold round2. apply Qfloor_comp. now rewrite H. Qed.

Lemma is_neg_Qeq (a b : Q) : a == b -> is_neg a = is_neg b.
Proof.
  unfold Qeq, is_neg. intros H.
  destruct (Z.ltb_spec (Qnum a) 0), (Z.ltb_spec (Qnum b) 0); try reflexivity; exfalso; nia.
Qed.

Lemma toFixed2_Qeq (a b : Q) : a == b -> toFixed2 (Fin a) = toFixed2 (Fin b).
Proof.
  intros H. unfold toFixed2. now rewrite (is_neg_Qeq _ _ H), (round2_Qeq _ _ H).
Qed.

(** A whole number of hundredths is written, and read back, exactly. *)
Lemma reads_back_exactly (v : Q) (m : Z) :
  v == m # 100 ->
  exists w : Q, parseFloat (toFixed2 (Fin v)) = Fin w /\ w == v.
Proof.
  intros Hv. rewrite parseFloat_toFixed2. eexists. split; [reflexivity|].
  rewrite (round2_Qeq _ _ Hv), (is_neg_Qeq _ _ Hv), Hv.
  unfold is_neg. cbn [Qnum].
  destruct (Z.ltb_spec m 0) as [Hm | Hm].
  - assert (E : m # 100 == - ((- m) # 100)) by (unfold Qeq; cbn [Qnum Qden Qopp]; lia).
    rewrite (round2_Qeq _ _ E).
    destruct (round2_hundredths (- m) ltac:(lia)) as [_ ->].
    unfold Qeq. cbn [Qnum Qden Qopp]. lia.
  - destruct (round2_hundredths m Hm) as [-> _]. reflexivity.
Qed.

(** ** Rows *)

Section Rows.
Context {A : Type}.

Lemma find_map_stable (P : A -> bool) (g : A -> A) (l : list A) :
  (forall r, P (g r) = P r) ->
  find P (map g l) = option_map g (find P l).
Proof.
  intros HP. induction l as [|r l IH]; simpl; [reflexivity|].
  rewrite HP. destruct (P r); [reflexivity | exact IH].
Qed.

Lemma find_update_where (P Q : A -> bool) (f : A -> A) (l : list A) :
  (forall x, P (f x) = P x) ->
  find P (update_where Q f l) =
  option_map (fun r => if Q r then f r else r) (find P l).
Proof.
  intros HP. unfold update_where. apply find_map_stable.
  intros x. destruct (Q x); [apply HP | reflexivity].
Qed.

Lemma update_where_absent (P : A -> bool) (f : A -> A) (l : list A) :
  find P l = None -> update_where P f l = l.
Proof.
  unfold update_where. induction l as [|r l IH]; simpl; [reflexivity|].
  destruct (P r) eqn:E; [discriminate|]. intros H. now rewrite IH.
Qed.

Lemma in_update_where (P : A -> bool) (f : A -> A) (l : list A) (r : A) :
  In r l -> In (if P r then f r else r) (update_where P f l).
Proof. intros H. unfold update_where. now apply (in_map (fun r => if P r then f r else r)). Qed.

Lemma update_where_length (P : A -> bool) (f : A -> A) (l : list A) :
  length (update_where P f l) = length l.
Proof. apply length_map. Qed.

End Rows.

(** ** Running a computation, one store call at a time *)

Section Running.
Context {A B : Type}.
Variables (e : Env) (n : nat) (s : Store).

Lemma run_read (f : Store -> A) (k : A -> M B) :
  throws e n = false ->
  bind (await_read f) k e n s = k (f s) e (S n) s.
Proof. unfold bind, await_read. now intros ->. Qed.

Lemma run_write (f : Date -> Store -> Store) (k : unit -> M B) :
  throws e n = false ->
  bind (await_write f) k e n s = k tt e (S n) (f (now e) s).
Proof. unfold bind, await_write. now intros ->. Qed.

Lemma run_insert (f : Date -> Store -> A * Store) (k : A -> M B) :
  throws e n = false ->
  bind (await_insert f) k e n s
  = k (fst (f (now e) s)) e (S n) (snd (f (now e) s)).
Proof. unfold bind, await_insert. now intros ->. Qed.

Lemma run_read_throws (f : Store -> A) (k : A -> M B) :
  throws e n = true ->
  bind (await_read f) k e n s = (Throw StoreError, S n, s).
Proof. unfold bind, await_read. now intros ->. Qed.

Lemma run_write_throws (f : Date -> Store -> Store) (k : unit -> M B) :
  throws e n = true ->
  bind (await_write f) k e n s = (Throw StoreError, S n, s).
Proof. unfold bind, await_write. now intros ->. Qed.

Lemma run_insert_throws (f : Date -> Store -> A * Store) (k : A -> M B) :
  throws e n = true ->
  bind (await_insert f) k e n s = (Throw StoreError, S n, s).
Proof. unfold bind, await_insert. now intros ->. Qed.

Lemma run_insert_checked (f : Date -> Store -> option (A * Store)) (k : A -> M B)
      (a : A) (s' : Store) :
  throws e n = false ->
  f (now e) s = Some (a, s') ->
  bind (await_insert_checked f) k e n s = k a e (S n) s'.
Proof. unfold bind, await_insert_checked. now intros -> ->. Qed.

Lemma run_insert_refused (f : Date -> Store -> option (A * Store)) (k : A -> M B) :
  throws e n = false ->
  f (now e) s = None ->
  bind (await_insert_checked f) k e n s = (Throw StoreError, S n, s).
Proof. unfold bind, await_insert_checked. now intros -> ->. Qed.

Lemma run_insert_checked_throws (f : Date -> Store -> option (A * Store)) (k : A -> M B) :
  throws e n = true ->
  bind (await_insert_checked f) k e n s = (Throw StoreError, S n, s).
Proof. unfold bind, await_insert_checked. now intros ->. Qed.

Lemma run_assoc {C : Type} (m : M A) (k : A -> M B) (h : B -> M C) :
  bind (bind m k) h e n s = bind m (fun x => bind (k x) h) e n s.
Proof. unfold bind. destruct (m e n s) as [[[a|err] n'] s']; reflexivity. Qed.

Lemma run_ret (a : A) (k : A -> M B) : bind (ret a) k e n s = k a e n s.
Proof. reflexivity. Qed.
End Running.

Lemma run_last_write (e : Env) (n : nat) (s : Store) (f : Date -> Store -> Store) :
  throws e n = false ->
  await_write f e n s = (Normal tt, S n, f (now e) s).
Proof. unfold await_write. now intros ->. Qed.

Lemma run_last_write_throws (e : Env) (n : nat) (s : Store) (f : Date -> Store -> Store) :
  throws e n = true ->
  await_write f e n s = (Throw StoreError, S n, s).
Proof. unfold await_write. now intros ->. Qed.

(** Steps through the store calls of a run in which none throws. *)
Ltac run He :=
  repeat first
    [ rewrite run_assoc
    | rewrite run_ret
    | rewrite run_read by apply He
    | rewrite run_write by apply He
    | rewrite run_insert by apply He
    | rewrite run_last_write by apply He ];
  cbv beta.

(** Steps through a run, splitting at each store call on whether it throws
    and at each test on its outcome. *)
Ltac crash_or_go :=
  match goal with
  | |- context [bind (bind ?m ?k) ?h ?e ?n ?s] => rewrite (run_assoc e n s m k h)
  | |- context [bind (ret ?a) ?k ?e ?n ?s] => rewrite (run_ret e n s a k)
  | |- context [bind (await_read ?f) ?k ?e ?n ?s] =>
      let H := fresh "Hthrow" in
      destruct (throws e n) eqn:H;
      [rewrite (run_read_throws e n s f k H) | rewrite (run_read e n s f k H)]
  | |- context [bind (await_write ?f) ?k ?e ?n ?s] =>
      let H := fresh "Hthrow" in
      destruct (throws e n) eqn:H;
      [rewrite (run_write_throws e n s f k H) | rewrite (run_write e n s f k H)]
  | |- context [bind (await_insert ?f) ?k ?e ?n ?s] =>
      let H := fresh "Hthrow" in
      destruct (throws e n) eqn:H;
      [rewrite (run_insert_throws e n s f k H) | rewrite (run_insert e n s f k H)]
  | |- context [bind (await_insert_checked ?f) ?k ?e ?n ?s] =>
      let H := fresh "Hthrow" in
      let E := fresh "Hrow" in
      let a := fresh "row" in
      let s' := fresh "s'" in
      destruct (throws e n) eqn:H;
      [ rewrite (run_insert_checked_throws e n s f k H)
      | destruct (f (now e) s) as [[a s']|] eqn:E;
        [ rewrite (run_insert_checked e n s f k a s' H E)
        | rewrite (run_insert_refused e n s f k H E) ] ]
  | |- context [await_write ?f ?e ?n ?s] =>
      let H := fresh "Hthrow" in
      destruct (throws e n) eqn:H;
      [rewrite (run_last_write_throws e n s f H) | rewrite (run_last_write e n s f H)]
  | |- context [match ?x with Some _ => _ | None => _ end] => destruct x
  | |- context [if ?c then _ else _] => destruct c
  end; cbv beta.

Lemma pending_eqb (o : Order.t) :
  Order.status o = "PENDING" -> String.eqb (Order.status o) "PENDING" = true.
Proof. intros ->. reflexivity. Qed.

(** ** What [executeOrder] does *)

(** On an order that is absent or not pending, nothing, whatever throws. *)
Lemma executeOrder_skips (e : Env) (n : nat) (orderId : Z) (p : number) (s : Store) :
  (storage.getOrder orderId s = None \/
   exists o, storage.getOrder orderId s = Some o /\ Order.status o <> "PENDING") ->
  snd (executeOrder orderId p e n s) = s /\
  fst (fst (executeOrder orderId p e n s)) = Normal tt.
Proof.
  intros H. unfold executeOrder, try_catch.
  destruct (throws e n) eqn:Ht.
  - rewrite run_read_throws by exact Ht. split; reflexivity.
  - rewrite run_read by exact Ht.
    destruct H as [H | [o [H Hs]]]; rewrite H; [split; reflexivity|].
    apply String.eqb_neq in Hs. rewrite Hs. split; reflexivity.
Qed.

(** On a pending order, when no store call throws, the four steps. *)
Lemma executeOrder_settles (e : Env) (n : nat) (orderId : Z) (p : number)
      (s : Store) (o : Order.t) :
  no_throw e ->
  storage.getOrder orderId s = Some o ->
  Order.status o = "PENDING" ->
  snd (executeOrder orderId p e n s) = settled (now e) orderId o p s /\
  fst (fst (executeOrder orderId p e n s)) = Normal tt.
Proof.
  intros He Ho Hst.
  unfold executeOrder, try_catch.
  run He. rewrite Ho, (pending_eqb _ Hst). cbv [negb].
  run He.
  unfold settled, balance_step, position_step, has_position, trade_of, weighted_average.
  set (s2 := snd (storage.createTrade _ _ _)).
  destruct (String.eqb (Order.orderType o) "BUY") eqn:Hbuy.
  - destruct (storage.getPosition _ _ _ s2) as [pos|] eqn:Hpos; run He;
      (match goal with
       | |- context [storage.getUser ?u ?st] =>
           change (storage.getUser u st) with (storage.getUser u s2);
           destruct (storage.getUser u s2)
       end; run He; split; reflexivity).
  - destruct (storage.getPosition _ _ _ s2) as [pos|] eqn:Hpos;
      [|rewrite Bool.andb_false_r; split; reflexivity].
    destruct (String.eqb (Order.orderType o) "SELL"); [|split; reflexivity].
    cbv [andb].
    destruct (Position.quantity pos - Order.quantity o <=? 0); run He;
      (match goal with
       | |- context [storage.getUser ?u ?st] =>
           change (storage.getUser u st) with (storage.getUser u s2);
           destruct (storage.getUser u s2)
       end; run He; split; reflexivity).
Qed.

(** Whatever throws, [executeOrder] returns normally, and the only change
    it can have made to the orders is its own status update. *)
Lemma executeOrder_any (e : Env) (n : nat) (orderId : Z) (p : number) (s : Store) :
  fst (fst (executeOrder orderId p e n s)) = Normal tt /\
  (orders (snd (executeOrder orderId p e n s)) = orders s \/
   orders (snd (executeOrder orderId p e n s)) =
   orders (storage.updateOrderStatus (now e) orderId "EXECUTED" (Some p) s)).
Proof.
  unfold executeOrder, try_catch.
  repeat crash_or_go;
    (split; [reflexivity | (left; reflexivity) || (right; reflexivity)]).
Qed.

(** The settled store, table by table. *)

Ltac settled_cases :=
  unfold settled, balance_step, position_step, has_position;
  repeat match goal with
         | |- context [match ?x with Some _ => _ | None => _ end] => destruct x
         | |- context [if ?c then _ else _] => destruct c
         end.

Lemma settled_orders (t : Date) (orderId : Z) (o : Order.t) (p : number) (s : Store) :
  orders (settled t orderId o p s)
  = orders (storage.updateOrderStatus t orderId "EXECUTED" (Some p) s).
Proof. settled_cases; reflexivity. Qed.

Lemma settled_trades (t : Date) (orderId : Z) (o : Order.t) (p : number) (s : Store) :
  trades (settled t orderId o p s)
  = trades s ++ [fst (storage.createTrade t (trade_of o p) s)].
Proof. settled_cases; reflexivity. Qed.

Lemma getOrder_id (orderId : Z) (s : Store) (o : Order.t) :
  storage.getOrder orderId s = Some o -> Order.id o = orderId.
Proof.
  intros H. apply find_some in H. destruct H as [_ H]. now apply Z.eqb_eq.
Qed.

Lemma status_after_update (t : Date) (orderId : Z) (p : number) (s : Store) (o : Order.t) :
  storage.getOrder orderId s = Some o ->
  status_of orderId (storage.updateOrderStatus t orderId "EXECUTED" (Some p) s)
  = Some "EXECUTED".
Proof.
  intros Ho. unfold status_of, storage.getOrder, storage.updateOrderStatus. simpl.
  rewrite find_update_where by reflexivity.
  unfold storage.getOrder in Ho. rewrite Ho. simpl.
  apply find_some in Ho. destruct Ho as [_ ->]. reflexivity.
Qed.

Lemma status_of_orders (orderId : Z) (s s' : Store) :
  orders s' = orders s -> status_of orderId s' = status_of orderId s.
Proof. unfold status_of, storage.getOrder. now intros ->. Qed.

Lemma settled_status (t : Date) (orderId : Z) (o : Order.t) (p : number) (s : Store) :
  storage.getOrder orderId s = Some o ->
  status_of orderId (settled t orderId o p s) = Some "EXECUTED".
Proof.
  intros Ho. rewrite (status_of_orders orderId _ _ (settled_orders _ _ _ _ _)).
  now apply status_after_update with (o := o).
Qed.

Lemma settles (e : Env) (orderId : Z) (p : number) (s : Store) (o : Order.t) :
  no_throw e ->
  storage.getOrder orderId s = Some o ->
  Order.status o = "PENDING" ->
  store_after (executeOrder orderId p) e s = settled (now e) orderId o p s.
Proof. intros He Ho Hst. now apply executeOrder_settles. Qed.

Lemma executeOrder_not_pending (e : Env) (orderId : Z) (p : number) (s : Store) :
  status_of orderId s <> Some "PENDING" ->
  store_after (executeOrder orderId p) e s = s /\
  result_of (executeOrder orderId p) e s = Normal tt.
Proof.
  intros H. apply executeOrder_skips.
  unfold status_of in H. destruct (storage.getOrder orderId s) as [o|]; [right|now left].
  exists o. split; [reflexivity|]. intros Hs. apply H. simpl. now rewrite Hs.
Qed.

(** ** Settlement is idempotent *)

(** C1, as stated, fails.  The demo user's BUY order is settled twice in
    sequence, and in the first settlement the insert of the trade, the third
    store call, throws: the order is EXECUTED by then, the second settlement
    finds it so and does nothing, and the trades table holds no trade for
    the order. *)
Lemma settled_twice_without_trade :
  status_of 1 buy_store = Some "PENDING" /\
  throws (failing_at 2) 2 = true /\
  result_of (executeOrder 1 (Fin 2400)) (failing_at 2) buy_store = Normal tt /\
  result_of (executeOrder 1 (Fin 2400)) calm
            (store_after (executeOrder 1 (Fin 2400)) (failing_at 2) buy_store)
  = Normal tt /\
  status_of 1 (store_after (executeOrder 1 (Fin 2400)) calm
                 (store_after (executeOrder 1 (Fin 2400)) (failing_at 2) buy_store))
  = Some "EXECUTED" /\
  trades (store_after (executeOrder 1 (Fin 2400)) calm
            (store_after (executeOrder 1 (Fin 2400)) (failing_at 2) buy_store))
  = [].
Proof. repeat split. Qed.

(** C1, amended.  [executeOrder] on an order that is absent or not PENDING
    changes nothing and returns normally, whatever store call throws.  On a
    PENDING order, a first settlement in which no store call fails leaves
    the order EXECUTED and appends exactly one trade, with the order's id,
    quantity and side; a second settlement of the same order, at any price
    and whatever throws, changes nothing and returns normally. *)
Theorem executeOrder_idempotent (e1 e2 : Env) (orderId : Z) (p1 p2 : number) (s : Store) :
  (status_of orderId s <> Some "PENDING" ->
   store_after (executeOrder orderId p1) e1 s = s /\
   result_of (executeOrder orderId p1) e1 s = Normal tt)
  /\
  (forall o : Order.t,
     no_throw e1 ->
     storage.getOrder orderId s = Some o ->
     Order.status o = "PENDING" ->
     status_of orderId (store_after (executeOrder orderId p1) e1 s) = Some "EXECUTED" /\
     (exists t : Trade.t,
        trades (store_after (executeOrder orderId p1) e1 s) = trades s ++ [t] /\
        Trade.orderId t = orderId /\
        Trade.quantity t = Order.quantity o /\
        Trade.tradeType t = Order.orderType o) /\
     store_after (executeOrder orderId p2) e2 (store_after (executeOrder orderId p1) e1 s)
     = store_after (executeOrder orderId p1) e1 s /\
     result_of (executeOrder orderId p2) e2 (store_after (executeOrder orderId p1) e1 s)
     = Normal tt).
Proof.
  split; [apply executeOrder_not_pending|].
  intros o He Ho Hst.
  rewrite (settles _ _ _ _ _ He Ho Hst).
  pose proof (settled_status (now e1) orderId o p1 s Ho) as Hex.
  split; [exact Hex|]. split.
  - exists (fst (storage.createTrade (now e1) (trade_of o p1) s)).
    rewrite settled_trades. repeat split.
    simpl. now apply getOrder_id with (s := s).
  - apply executeOrder_not_pending. rewrite Hex. discriminate.
Qed.

Lemma executeOrder_idempotent_witness :
  status_of 1 (store_after (executeOrder 1 (Fin 2400)) calm buy_store) = Some "EXECUTED" /\
  (exists t : Trade.t,
     trades (store_after (executeOrder 1 (Fin 2400)) calm buy_store)
     = trades buy_store ++ [t] /\
     Trade.orderId t = 1 /\ Trade.quantity t = 10 /\ Trade.tradeType t = "BUY") /\
  store_after (executeOrder 1 (Fin 2390)) calm
              (store_after (executeOrder 1 (Fin 2400)) calm buy_store)
  = store_after (executeOrder 1 (Fin 2400)) calm buy_store /\
  result_of (executeOrder 1 (Fin 2390)) calm
            (store_after (executeOrder 1 (Fin 2400)) calm buy_store)
  = Normal tt.
Proof.
  destruct (executeOrder_idempotent calm calm 1 (Fin 2400) (Fin 2390) buy_store) as [_ H].
  apply (H (demo_order "BUY" 10 "2400.00"));
    [intros n; reflexivity | reflexivity | reflexivity].
Defined.

(** ** A SELL without a position *)




(** ** A store call that fails during a settlement *)

Lemma executeOrder_past_status_update
      (e : Env) (orderId : Z) (p : number) (s : Store) (o : Order.t) :
  storage.getOrder orderId s = Some o ->
  Order.status o = "PENDING" ->
  throws e 0 = false -> throws e 1 = false ->
  orders (store_after (executeOrder orderId p) e s)
  = orders (storage.updateOrderStatus (now e) orderId "EXECUTED" (Some p) s).
Proof.
  intros Ho Hst H0 H1. unfold store_after, executeOrder, try_catch.
  rewrite run_read by exact H0. rewrite Ho, (pending_eqb _ Hst). cbv [negb].
  rewrite run_write by exact H1.
  repeat crash_or_go; reflexivity.
Qed.

(** C2, as stated, fails.  The demo user's pending BUY order is settled in a
    run whose third store call, [createTrade], throws: the order is EXECUTED
    afterwards, not PENDING, and there is no trade, no position and no
    balance change to go with it; the store is not the one before. *)
Lemma settlement_not_rolled_back :
  status_of 1 buy_store = Some "PENDING" /\
  throws (failing_at 2) 2 = true /\
  status_of 1 (store_after (executeOrder 1 (Fin 2400)) (failing_at 2) buy_store)
  = Some "EXECUTED" /\
  trades (store_after (executeOrder 1 (Fin 2400)) (failing_at 2) buy_store) = [] /\
  positions (store_after (executeOrder 1 (Fin 2400)) (failing_at 2) buy_store) = [] /\
  users (store_after (executeOrder 1 (Fin 2400)) (failing_at 2) buy_store) = [demo_user] /\
  store_after (executeOrder 1 (Fin 2400)) (failing_at 2) buy_store <> buy_store.
Proof. repeat split. discriminate. Qed.

(** C2, amended.  When a store call fails during the settlement of a PENDING
    order, [executeOrder] stops there and returns normally, and nothing is
    rolled back.  If the failing call is the order lookup or the status
    update, the store is unchanged and the order is still PENDING.  Once
    those two calls have succeeded the order is EXECUTED in the final store
    whatever fails later; if the failing call is the trade creation, the
    final store is the initial one with the status update alone. *)
Theorem executeOrder_failure_keeps_completed_steps
        (e : Env) (orderId : Z) (p : number) (s : Store) (o : Order.t) :
  storage.getOrder orderId s = Some o ->
  Order.status o = "PENDING" ->
  result_of (executeOrder orderId p) e s = Normal tt /\
  (throws e 0 = true \/ throws e 1 = true ->
   store_after (executeOrder orderId p) e s = s) /\
  (throws e 0 = false -> throws e 1 = false ->
   status_of orderId (store_after (executeOrder orderId p) e s) = Some "EXECUTED") /\
  (throws e 0 = false -> throws e 1 = false -> throws e 2 = true ->
   store_after (executeOrder orderId p) e s
   = storage.updateOrderStatus (now e) orderId "EXECUTED" (Some p) s).
Proof.
  intros Ho Hst. split; [apply executeOrder_any|].
  split; [|split].
  - intros H. unfold store_after, executeOrder, try_catch.
    destruct (throws e 0) eqn:H0.
    + rewrite run_read_throws by exact H0. reflexivity.
    + destruct H as [H|H]; [discriminate|].
      rewrite run_read by exact H0. rewrite Ho, (pending_eqb _ Hst). cbv [negb].
      rewrite run_write_throws by exact H. reflexivity.
  - intros H0 H1.
    rewrite (status_of_orders orderId _ _
               (executeOrder_past_status_update e orderId p s o Ho Hst H0 H1)).
    now apply status_after_update with (o := o).
  - intros H0 H1 H2. unfold store_after, executeOrder, try_catch.
    rewrite run_read by exact H0. rewrite Ho, (pending_eqb _ Hst). cbv [negb].
    rewrite run_write by exact H1.
    rewrite run_insert_throws by exact H2. reflexivity.
Qed.

Lemma executeOrder_failure_keeps_completed_steps_witness :
  result_of (executeOrder 1 (Fin 2400)) (failing_at 2) buy_store = Normal tt /\
  store_after (executeOrder 1 (Fin 2400)) (failing_at 1) buy_store = buy_store /\
  status_of 1 (store_after (executeOrder 1 (Fin 2400)) (failing_at 2) buy_store)
  = Some "EXECUTED" /\
  store_after (executeOrder 1 (Fin 2400)) (failing_at 2) buy_store
  = storage.updateOrderStatus 1000 1 "EXECUTED" (Some (Fin 2400)) buy_store.
Proof.
  pose proof (executeOrder_failure_keeps_completed_steps (failing_at 2) 1 (Fin 2400)
                buy_store (demo_order "BUY" 10 "2400.00") eq_refl eq_refl)
    as [Hret [_ [Hstatus Hstore]]].
  pose proof (executeOrder_failure_keeps_completed_steps (failing_at 1) 1 (Fin 2400)
                buy_store (demo_order "BUY" 10 "2400.00") eq_refl eq_refl)
    as [_ [Hsame _]].
  split; [exact Hret|].
  split; [apply Hsame; right; reflexivity|].
  split; [apply Hstatus; reflexivity|].
  apply Hstore; reflexivity.
Defined.


(** ** The balance after a settlement *)

Lemma settled_positions (t : Date) (orderId : Z) (o : Order.t) (p : number) (s : Store) :
  positions (settled t orderId o p s) = positions (position_step t o p s).
Proof.
  unfold settled. set (s2 := snd (storage.createTrade _ _ _)).
  unfold balance_step, position_step.
  change (storage.getPosition (Order.userId o) (Order.symbol o) (Order.exchange o) s2)
    with (storage.getPosition (Order.userId o) (Order.symbol o) (Order.exchange o) s).
  repeat match goal with
         | |- context [match ?x with Some _ => _ | None => _ end] => destruct x
         | |- context [if ?c then _ else _] => destruct c
         end; reflexivity.
Qed.

Lemma position_step_users (t : Date) (o : Order.t) (p : number) (s : Store) :
  users (position_step t o p s) = users s.
Proof.
  unfold position_step.
  repeat match goal with
         | |- context [match ?x with Some _ => _ | None => _ end] => destruct x
         | |- context [if ?c then _ else _] => destruct c
         end; reflexivity.
Qed.

Lemma balance_step_users (o : Order.t) (p : number) (b : bool) (s s' : Store) :
  users s' = users s ->
  users (balance_step o p b s') = users (balance_step o p b s).
Proof.
  intros H. unfold balance_step, storage.getUser. rewrite H.
  repeat match goal with
         | |- context [match ?x with Some _ => _ | None => _ end] => destruct x
         | |- context [if ?c then _ else _] => destruct c
         end; simpl; now rewrite ?H.
Qed.

Lemma settled_users (t : Date) (orderId : Z) (o : Order.t) (p : number) (s : Store) :
  users (settled t orderId o p s) = users (balance_step o p (has_position o s) s).
Proof.
  unfold settled. set (s2 := snd (storage.createTrade _ _ _)).
  change (has_position o s2) with (has_position o s).
  apply balance_step_users. now rewrite position_step_users.
Qed.

Lemma getUser_id (userId : Z) (s : Store) (u : User.t) :
  storage.getUser userId s = Some u -> User.id u = userId.
Proof.
  intros H. apply find_some in H. destruct H as [_ H]. now apply Z.eqb_eq.
Qed.

Lemma getUser_updateUserBalance (userId : Z) (b : number) (s : Store) (u : User.t) :
  storage.getUser userId s = Some u ->
  storage.getUser userId (storage.updateUserBalance userId b s)
  = Some (User.with_balance (toFixed2 b) u).
Proof.
  intros Hu. unfold storage.getUser, storage.updateUserBalance. simpl.
  rewrite find_update_where by reflexivity.
  unfold storage.getUser in Hu. rewrite Hu. simpl.
  apply find_some in Hu. destruct Hu as [_ ->]. reflexivity.
Qed.

Lemma getUser_users (userId : Z) (s s' : Store) :
  users s' = users s -> storage.getUser userId s' = storage.getUser userId s.
Proof. unfold storage.getUser. now intros ->. Qed.

(** When the old balance and the product are whole numbers of hundredths,
    the balance written reads back as exactly their difference, or sum. *)
Lemma whole_hundredths_exact (bal : string) (q : Z) (p : number) (b x : Q) (c k : Z) :
  parseFloat bal = Fin b -> b == c # 100 ->
  p = Fin x -> inject_Z q * x == k # 100 ->
  (exists w : Q,
     parseFloat (toFixed2 (nsub (parseFloat bal) (nmul (of_int q) p))) = Fin w /\
     w == b - inject_Z q * x) /\
  (exists w : Q,
     parseFloat (toFixed2 (nadd (parseFloat bal) (nmul (of_int q) p))) = Fin w /\
     w == b + inject_Z q * x).
Proof.
  intros -> Hb -> Hk. unfold nsub, nadd, nneg, nmul, of_int. split.
  - apply reads_back_exactly with (m := c - k).
    rewrite Hb, Hk. unfold Qeq, Qminus, Qplus, Qopp. cbn [Qnum Qden]. lia.
  - apply reads_back_exactly with (m := c + k).
    rewrite Hb, Hk. unfold Qeq, Qplus. cbn [Qnum Qden]. lia.
Qed.

(** The balance text after a settlement, case by case. *)
Lemma balance_texts (e : Env) (orderId : Z) (p : number) (s : Store)
      (o : Order.t) (u : User.t) :
  no_throw e ->
  storage.getOrder orderId s = Some o ->
  Order.status o = "PENDING" ->
  storage.getUser (Order.userId o) s = Some u ->
  (Order.orderType o = "BUY" ->
   storage.getUser (Order.userId o) (store_after (executeOrder orderId p) e s)
   = Some (User.with_balance
             (toFixed2 (nsub (parseFloat (User.balance u))
                             (nmul (of_int (Order.quantity o)) p))) u)) /\
  (Order.orderType o = "SELL" ->
   storage.getPosition (Order.userId o) (Order.symbol o) (Order.exchange o) s <> None ->
   storage.getUser (Order.userId o) (store_after (executeOrder orderId p) e s)
   = Some (User.with_balance
             (toFixed2 (nadd (parseFloat (User.balance u))
                             (nmul (of_int (Order.quantity o)) p))) u)) /\
  (Order.orderType o = "SELL" ->
   storage.getPosition (Order.userId o) (Order.symbol o) (Order.exchange o) s = None ->
   storage.getUser (Order.userId o) (store_after (executeOrder orderId p) e s) = Some u).
Proof.
  intros He Ho Hst Hu. rewrite (settles _ _ _ _ _ He Ho Hst).
  rewrite (getUser_users _ _ _ (settled_users _ _ _ _ _)).
  unfold balance_step, has_position.
  split; [|split].
  - intros Hty. rewrite Hty, Hu. cbv [String.eqb Ascii.eqb Bool.eqb].
    now apply getUser_updateUserBalance.
  - intros Hty Hpos. rewrite Hty, Hu.
    destruct (storage.getPosition _ _ _ s); [|contradiction].
    cbv [String.eqb Ascii.eqb Bool.eqb andb].
    now apply getUser_updateUserBalance.
  - intros Hty Hpos. rewrite Hty, Hpos. cbv [String.eqb Ascii.eqb Bool.eqb andb].
    exact Hu.
Qed.

(** C3, amended.  After a settlement without store failure, the owner's
    balance is the old balance minus quantity times execution price for a
    BUY, and plus that product for a SELL that found a position of the user
    in the order's (symbol, exchange), in both cases written to two decimals
    by [toFixed(2)]; nothing checks that the funds suffice.  A SELL that
    found no such position leaves the owner's row, hence the balance, as it
    was.  When the old balance and the product are whole numbers of
    hundredths, the new balance reads back as exactly their difference, or
    sum. *)
Theorem settlement_balance (e : Env) (orderId : Z) (p : number) (s : Store)
        (o : Order.t) (u : User.t) :
  no_throw e ->
  storage.getOrder orderId s = Some o ->
  Order.status o = "PENDING" ->
  storage.getUser (Order.userId o) s = Some u ->
  (Order.orderType o = "BUY" ->
   storage.getUser (Order.userId o) (store_after (executeOrder orderId p) e s)
   = Some (User.with_balance
             (toFixed2 (nsub (parseFloat (User.balance u))
                             (nmul (of_int (Order.quantity o)) p))) u)) /\
  (Order.orderType o = "SELL" ->
   storage.getPosition (Order.userId o) (Order.symbol o) (Order.exchange o) s <> None ->
   storage.getUser (Order.userId o) (store_after (executeOrder orderId p) e s)
   = Some (User.with_balance
             (toFixed2 (nadd (parseFloat (User.balance u))
                             (nmul (of_int (Order.quantity o)) p))) u)) /\
  (Order.orderType o = "SELL" ->
   storage.getPosition (Order.userId o) (Order.symbol o) (Order.exchange o) s = None ->
   storage.getUser (Order.userId o) (store_after (executeOrder orderId p) e s) = Some u) /\
  (forall (b x : Q) (c k : Z),
     parseFloat (User.balance u) = Fin b -> b == c # 100 ->
     p = Fin x -> inject_Z (Order.quantity o) * x == k # 100 ->
     (Order.orderType o = "BUY" ->
      exists (u' : User.t) (w : Q),
        storage.getUser (Order.userId o) (store_after (executeOrder orderId p) e s)
        = Some u' /\
        parseFloat (User.balance u') = Fin w /\
        w == b - inject_Z (Order.quantity o) * x) /\
     (Order.orderType o = "SELL" ->
      storage.getPosition (Order.userId o) (Order.symbol o) (Order.exchange o) s <> None ->
      exists (u' : User.t) (w : Q),
        storage.getUser (Order.userId o) (store_after (executeOrder orderId p) e s)
        = Some u' /\
        parseFloat (User.balance u') = Fin w /\
        w == b + inject_Z (Order.quantity o) * x)).
Proof.
  intros He Ho Hst Hu.
  destruct (balance_texts e orderId p s o u He Ho Hst Hu) as [Hbuy [Hsell Hnone]].
  split; [exact Hbuy|]. split; [exact Hsell|]. split; [exact Hnone|].
  intros b x c k Hb Hc Hx Hk.
  destruct (whole_hundredths_exact _ _ _ _ _ _ _ Hb Hc Hx Hk)
    as [[w1 [Hw1 Hv1]] [w2 [Hw2 Hv2]]].
  split.
  - intros Hty. rewrite (Hbuy Hty). eexists. exists w1.
    split; [reflexivity|]. split; [exact Hw1 | exact Hv1].
  - intros Hty Hpos. rewrite (Hsell Hty Hpos). eexists. exists w2.
    split; [reflexivity|]. split; [exact Hw2 | exact Hv2].
Qed.

(** C3, as stated, fails.  The demo user's SELL of ten shares is settled at
    2500 while the user holds nothing: the order is EXECUTED, yet the balance
    is still 100000.00 and not the 125000.00 that a credit of quantity times
    price would give. *)
Lemma sell_without_position_not_credited :
  status_of 1 (store_after (executeOrder 1 (Fin 2500)) calm sell_store) = Some "EXECUTED" /\
  option_map User.balance
    (storage.getUser 1 (store_after (executeOrder 1 (Fin 2500)) calm sell_store))
  = Some "100000.00" /\
  toFixed2 (nadd (parseFloat "100000.00") (nmul (of_int 10) (Fin 2500))) = "125000.00" /\
  "100000.00" <> "125000.00".
Proof. repeat split. discriminate. Qed.

Lemma settlement_balance_witness :
  option_map User.balance
    (storage.getUser 1 (store_after (executeOrder 1 (Fin 2400)) calm overdraft_store))
  = Some "-140000.00" /\
  option_map User.balance
    (storage.getUser 1 (store_after (executeOrder 1 (Fin 130)) calm sell_all_store))
  = Some "101300.00" /\
  option_map User.balance
    (storage.getUser 1 (store_after (executeOrder 1 (Fin 2500)) calm sell_store))
  = Some "100000.00".
Proof.
  pose proof (settlement_balance calm 1 (Fin 2400) overdraft_store
                (demo_order "BUY" 100 "2400.00") demo_user
                (fun n => eq_refl) eq_refl eq_refl eq_refl) as [Hbuy _].
  pose proof (settlement_balance calm 1 (Fin 130) sell_all_store
                (demo_order "SELL" 10 "130.00") demo_user
                (fun n => eq_refl) eq_refl eq_refl eq_refl) as [_ [Hsell _]].
  pose proof (settlement_balance calm 1 (Fin 2500) sell_store
                (demo_order "SELL" 10 "2400.00") demo_user
                (fun n => eq_refl) eq_refl eq_refl eq_refl) as [_ [_ [Hnone _]]].
  split; [|split].
  - change 1 with (Order.userId (demo_order "BUY" 100 "2400.00")) at 1.
    rewrite (Hbuy eq_refl). reflexivity.
  - change 1 with (Order.userId (demo_order "SELL" 10 "130.00")) at 1.
    rewrite (Hsell eq_refl ltac:(discriminate)). reflexivity.
  - change 1 with (Order.userId (demo_order "SELL" 10 "2400.00")) at 1.
    rewrite (Hnone eq_refl eq_refl). reflexivity.
Defined.


(** ** The position after a settlement *)













(** ** Cancelling an order *)

Lemma with_status_same (o : Order.t) (st : string) :
  Order.status o = st -> Order.with_status st o = o.
Proof. intros <-. now destruct o. Qed.

Section Cancel.
Variables (orderId : Z) (s : Store).

Lemma cancelOrder_found (o : Order.t) :
  storage.getOrder orderId s = Some o ->
  storage.getOrder orderId (DatabaseStorage.cancelOrder orderId s)
  = Some (Order.with_status "CANCELLED" o).
Proof.
  intros Ho. unfold storage.getOrder, DatabaseStorage.getOrder,
               DatabaseStorage.cancelOrder in *. simpl.
  rewrite find_update_where by reflexivity. rewrite Ho. simpl.
  apply find_some in Ho. destruct Ho as [_ ->]. reflexivity.
Qed.

Lemma cancelOrder_absent :
  storage.getOrder orderId s = None ->
  DatabaseStorage.cancelOrder orderId s = s.
Proof.
  intros Ho. unfold DatabaseStorage.cancelOrder.
  rewrite update_where_absent by exact Ho. now destruct s.
Qed.

Lemma cancelOrder_others (other : Z) :
  other <> orderId ->
  storage.getOrder other (DatabaseStorage.cancelOrder orderId s)
  = storage.getOrder other s.
Proof.
  intros Hne. unfold storage.getOrder, DatabaseStorage.getOrder,
                DatabaseStorage.cancelOrder. simpl.
  rewrite find_update_where by reflexivity.
  destruct (find _ (orders s)) as [o|] eqn:Ho; [|reflexivity].
  simpl. apply find_some in Ho. destruct Ho as [_ Ho]. apply Z.eqb_eq in Ho.
  assert (H : (Order.id o =? orderId) = false) by (apply Z.eqb_neq; lia).
  now rewrite H.
Qed.
End Cancel.

(** C6, as stated, fails.  The demo user's BUY order has been settled and is
    EXECUTED; [cancelOrder], in either storage class and through the DELETE
    route, turns it to CANCELLED: the cancellation of an order that is not
    PENDING is not a no-op, and EXECUTED is not terminal. *)
Lemma cancel_overwrites_executed :
  status_of 1 executed_store = Some "EXECUTED" /\
  status_of 1 (DatabaseStorage.cancelOrder 1 executed_store) = Some "CANCELLED" /\
  status_of 1 (MemStorage.cancelOrder 1 executed_store) = Some "CANCELLED" /\
  status_of 1 (store_after (delete_api_orders 1) calm executed_store) = Some "CANCELLED" /\
  DatabaseStorage.cancelOrder 1 executed_store <> executed_store.
Proof. repeat split. discriminate. Qed.

(** C6, amended.  [cancelOrder], the same in both storage classes, sets the
    status to CANCELLED whenever an order with that id exists, whatever its
    current status, and is a no-op when none exists; it touches no other
    order and no other table.  A CANCELLED order stays as it is under
    [cancelOrder], and [executeOrder] changes nothing for an order that is
    not PENDING: CANCELLED is terminal under both operations, EXECUTED under
    settlement only. *)
Theorem cancelOrder_whatever_the_status (orderId : Z) (s : Store) :
  MemStorage.cancelOrder orderId s = DatabaseStorage.cancelOrder orderId s /\
  (forall o, storage.getOrder orderId s = Some o ->
             status_of orderId (DatabaseStorage.cancelOrder orderId s) = Some "CANCELLED" /\
             storage.getOrder orderId (DatabaseStorage.cancelOrder orderId s)
             = Some (Order.with_status "CANCELLED" o) /\
             (Order.status o = "CANCELLED" ->
              storage.getOrder orderId (DatabaseStorage.cancelOrder orderId s) = Some o)) /\
  (storage.getOrder orderId s = None -> DatabaseStorage.cancelOrder orderId s = s) /\
  (forall other, other <> orderId ->
                 storage.getOrder other (DatabaseStorage.cancelOrder orderId s)
                 = storage.getOrder other s) /\
  users (DatabaseStorage.cancelOrder orderId s) = users s /\
  positions (DatabaseStorage.cancelOrder orderId s) = positions s /\
  trades (DatabaseStorage.cancelOrder orderId s) = trades s /\
  (forall e p, status_of orderId s <> Some "PENDING" ->
               store_after (executeOrder orderId p) e s = s).
Proof.
  split; [reflexivity|]. split; [|split; [|split]].
  - intros o Ho. rewrite (cancelOrder_found _ _ _ Ho).
    unfold status_of. rewrite (cancelOrder_found _ _ _ Ho).
    split; [reflexivity|]. split; [reflexivity|].
    intros Hc. now rewrite with_status_same.
  - apply cancelOrder_absent.
  - apply cancelOrder_others.
  - repeat split. intros e p H. now apply executeOrder_not_pending.
Qed.

Lemma cancelOrder_whatever_the_status_witness :
  status_of 1 (DatabaseStorage.cancelOrder 1 buy_store) = Some "CANCELLED" /\
  DatabaseStorage.cancelOrder 1 (DatabaseStorage.cancelOrder 1 buy_store)
  = DatabaseStorage.cancelOrder 1 buy_store /\
  DatabaseStorage.cancelOrder 2 buy_store = buy_store /\
  store_after (executeOrder 1 (Fin 2400)) calm (DatabaseStorage.cancelOrder 1 buy_store)
  = DatabaseStorage.cancelOrder 1 buy_store.
Proof.
  pose proof (cancelOrder_whatever_the_status 1 buy_store)
    as [_ [Hfound _]].
  pose proof (cancelOrder_whatever_the_status 2 buy_store)
    as [_ [_ [Habsent _]]].
  pose proof (cancelOrder_whatever_the_status 1 (DatabaseStorage.cancelOrder 1 buy_store))
    as [_ [_ [_ [_ [_ [_ [_ Hsettle]]]]]]].
  split; [apply (Hfound (demo_order "BUY" 10 "2400.00")); reflexivity|].
  split; [reflexivity|].
  split; [apply Habsent; reflexivity|].
  apply Hsettle. discriminate.
Defined.

(** ** Placing an order *)

Lemma post_api_orders_invalid (e : Env) (s : Store) (body : Body.t) :
  insertOrderSchema_parse body = None ->
  result_of (post_api_orders body) e s = Normal (json_error 400 "Invalid order data") /\
  store_after (post_api_orders body) e s = s.
Proof.
  intros H. unfold result_of, store_after, post_api_orders, try_catch.
  rewrite H. split; reflexivity.
Qed.


Lemma run_executeOrder {B : Type} (k : unit -> M B) (e : Env) (n : nat) (s : Store)
      (orderId : Z) (p : number) :
  bind (executeOrder orderId p) k e n s
  = k tt e (snd (fst (executeOrder orderId p e n s))) (snd (executeOrder orderId p e n s)).
Proof.
  unfold bind. destruct (executeOrder_any e n orderId p s) as [Hret _].
  destruct (executeOrder orderId p e n s) as [[c n'] s'].
  simpl in Hret. now subst c.
Qed.

(** The row an insert into [orders] gives: the columns of the request, the
    next id, and what the database made of the limit price. *)
Lemma createOrder_row (t : Date) (order : InsertOrder.t) (s : Store)
      (row : Order.t) (s' : Store) :
  storage.createOrder t order s = Some (row, s') ->
  s' = insert_order row s /\
  decimal_10_2 (InsertOrder.limitPrice order) = Some (Order.limitPrice row) /\
  row = Order.mk (currentOrderId s) (InsertOrder.userId order)
          (InsertOrder.symbol order) (InsertOrder.exchange order)
          (InsertOrder.orderType order) (InsertOrder.quantity order)
          (Order.limitPrice row)
          (or_null (InsertOrder.takeProfitType order)) (Order.takeProfitValue row)
          (or_null (InsertOrder.stopLossType order)) (Order.stopLossValue row)
          "PENDING" None None t.
Proof.
  unfold storage.createOrder.
  destruct (decimal_10_2 (InsertOrder.limitPrice order)) as [lim|]; [|discriminate].
  destruct (decimal_10_2_or_null (or_null (InsertOrder.takeProfitValue order)))
    as [tp|]; [|discriminate].
  destruct (decimal_10_2_or_null (or_null (InsertOrder.stopLossValue order)))
    as [sl|]; [|discriminate].
  intros [= <- <-]. repeat split.
Qed.

Lemma createOrder_inserted (t : Date) (order : InsertOrder.t) (s : Store)
      (row : Order.t) (s' : Store) :
  storage.createOrder t order s = Some (row, s') ->
  exists (limitPrice : string) (takeProfitValue stopLossValue : option string),
    row = Order.mk (currentOrderId s) (InsertOrder.userId order)
            (InsertOrder.symbol order) (InsertOrder.exchange order)
            (InsertOrder.orderType order) (InsertOrder.quantity order)
            limitPrice
            (or_null (InsertOrder.takeProfitType order)) takeProfitValue
            (or_null (InsertOrder.stopLossType order)) stopLossValue
            "PENDING" None None t /\
    s' = insert_order row s.
Proof.
  intros H. destruct (createOrder_row _ _ _ _ _ H) as (Hs & _ & Hmk).
  eexists _, _, _. split; [exact Hmk | exact Hs].
Qed.

(** Names the row of an insert into [orders]. *)
Ltac inserted :=
  try match goal with
      | H : storage.createOrder _ _ _ = Some (_, _) |- _ =>
          let lim := fresh "limitPrice" in
          let tp := fresh "takeProfitValue" in
          let sl := fresh "stopLossValue" in
          destruct (createOrder_inserted _ _ _ _ _ H) as (lim & tp & sl & -> & ->);
          clear H
      end.


Lemma post_api_orders_accepts (e : Env) (s : Store) (body : Body.t) (d : OrderData.t)
      (stk : Stock.t) (row : Order.t) (s1 : Store) :
  insertOrderSchema_parse body = Some d ->
  throws e 0 = false ->
  storage.getStock (OrderData.symbol d) (OrderData.exchange d) s = Some stk ->
  throws e 1 = false ->
  storage.createOrder (now e) (with_userId d 1) s = Some (row, s1) ->
  result_of (post_api_orders body) e s = Normal (json_order row) /\
  (orders (store_after (post_api_orders body) e s) = orders s ++ [row] \/
   orders (store_after (post_api_orders body) e s)
   = update_where (fun o => Order.id o =? currentOrderId s)
       (stamped (now e) (parseFloat (Stock.currentPrice stk)))
       (orders s ++ [row])).
Proof.
  intros H H0 Hstk H1 Hrow. unfold result_of, store_after, post_api_orders, try_catch.
  rewrite H. rewrite run_read by exact H0. rewrite Hstk.
  rewrite (run_insert_checked _ _ _ _ _ row s1) by assumption.
  destruct (createOrder_row _ _ _ _ _ Hrow) as (-> & _ & Hid).
  assert (Order.id row = currentOrderId s) as -> by (rewrite Hid; reflexivity).
  set (s1 := insert_order row s).
  destruct (shouldExecute_at_creation _ _ _).
  - rewrite run_executeOrder. split; [reflexivity|].
    match goal with
    | |- context [executeOrder ?i ?p e ?n s1] =>
        destruct (executeOrder_any e n i p s1) as [_ [Hord | Hord]]
    end; [left | right]; exact Hord.
  - rewrite run_ret. split; [reflexivity | left; reflexivity].
Qed.

(** A limit price, or a take-profit or stop-loss value, that the database
    refuses: the insert throws, and the request is answered with 500. *)
Lemma post_api_orders_refused (e : Env) (s : Store) (body : Body.t) (d : OrderData.t)
      (stk : Stock.t) :
  insertOrderSchema_parse body = Some d ->
  throws e 0 = false ->
  storage.getStock (OrderData.symbol d) (OrderData.exchange d) s = Some stk ->
  storage.createOrder (now e) (with_userId d 1) s = None ->
  result_of (post_api_orders body) e s
  = Normal (json_error 500 "Failed to place order") /\
  store_after (post_api_orders body) e s = s.
Proof.
  intros H H0 Hstk Hrow. unfold result_of, store_after, post_api_orders, try_catch.
  rewrite H. rewrite run_read by exact H0. rewrite Hstk.
  destruct (throws e 1) eqn:H1.
  - rewrite run_insert_checked_throws by exact H1. split; reflexivity.
  - rewrite run_insert_refused by assumption. split; reflexivity.
Qed.

Lemma parse_well_typed (sy ex ty lim : string) (n : Z) :
  -2147483648 <= n <= 2147483647 ->
  insertOrderSchema_parse
    (Body.mk (JsString sy) (JsString ex) (JsString ty) (JsNumber (of_int n)) (JsString lim)
             JsUndefined JsUndefined JsUndefined JsUndefined)
  = Some (OrderData.mk sy ex ty n lim None None None None).
Proof.
  intros [Hlo Hhi]. unfold insertOrderSchema_parse, z_integer, of_int. simpl.
  rewrite Z.mod_1_r, Z.div_1_r. simpl.
  apply Z.leb_le in Hlo, Hhi. rewrite Hlo, Hhi. reflexivity.
Qed.

Lemma parse_checks_types (body : Body.t) :
  z_string (Body.symbol body) = None \/
  z_string (Body.exchange body) = None \/
  z_string (Body.orderType body) = None \/
  z_integer (Body.quantity body) = None \/
  z_string (Body.limitPrice body) = None \/
  z_string_nullish (Body.takeProfitType body) = None \/
  z_string_nullish (Body.takeProfitValue body) = None \/
  z_string_nullish (Body.stopLossType body) = None \/
  z_string_nullish (Body.stopLossValue body) = None ->
  insertOrderSchema_parse body = None.
Proof.
  unfold insertOrderSchema_parse.
  intros [H|[H|[H|[H|[H|[H|[H|[H|H]]]]]]]]; rewrite H;
    repeat match goal with
           | |- context [match ?x with Some _ => _ | None => _ end] => destruct x
           end; reflexivity.
Qed.

Lemma row_persisted (e : Env) (s : Store) (body : Body.t) (d : OrderData.t)
      (stk : Stock.t) (order : Order.t) (s1 : Store) :
  insertOrderSchema_parse body = Some d ->
  throws e 0 = false ->
  storage.getStock (OrderData.symbol d) (OrderData.exchange d) s = Some stk ->
  throws e 1 = false ->
  storage.createOrder (now e) (with_userId d 1) s = Some (order, s1) ->
  length (orders (store_after (post_api_orders body) e s)) = S (length (orders s)) /\
  exists row : Order.t,
    In row (orders (store_after (post_api_orders body) e s)) /\
    Order.id row = currentOrderId s /\
    Order.userId row = 1 /\
    Order.symbol row = OrderData.symbol d /\
    Order.exchange row = OrderData.exchange d /\
    Order.orderType row = OrderData.orderType d /\
    Order.quantity row = OrderData.quantity d /\
    Order.limitPrice row = Order.limitPrice order.
Proof.
  intros H H0 Hstk H1 Hrow.
  destruct (createOrder_row _ _ _ _ _ Hrow) as (_ & _ & Hmk).
  destruct (post_api_orders_accepts e s body d stk order s1 H H0 Hstk H1 Hrow)
    as [_ [Ho | Ho]]; rewrite Ho.
  - split; [rewrite length_app; simpl; lia|].
    exists order. split; [apply in_or_app; right; left; reflexivity|].
    rewrite Hmk. repeat split.
  - split; [rewrite update_where_length, length_app; simpl; lia|].
    eexists. split.
    + apply in_update_where. apply in_or_app. right. left. reflexivity.
    + rewrite Hmk. simpl. rewrite Z.eqb_refl. repeat split.
Qed.

(** A request without take-profit and stop-loss fields is inserted exactly
    when the database accepts its limit price. *)
Lemma createOrder_typed (t : Date) (s : Store) (sy ex ty lim : string) (n : Z) :
  storage.createOrder t
    (with_userId (OrderData.mk sy ex ty n lim None None None None) 1) s
  = match decimal_10_2 lim with
    | Some lim' =>
        let row := Order.mk (currentOrderId s) 1 sy ex ty n lim' None None None None
                     "PENDING" None None t in
        Some (row, insert_order row s)
    | None => None
    end.
Proof.
  unfold storage.createOrder, with_userId. cbn.
  destruct (decimal_10_2 lim); reflexivity.
Qed.

(** C8, as stated, fails.  A request to BUY minus five shares of the first
    seed stock with limit price -1.00 is not rejected: the route answers
    with the new order, and the order is in the orders table. *)
Lemma nonpositive_order_persisted :
  -5 <= 0 /\
  parseFloat "-1.00" = Fin (- (100 # 100)) /\
  result_of (post_api_orders (demo_body "BUY" (Fin (-5)) "-1.00")) calm empty_store
  = Normal (json_order (Order.mk 1 1 "RELIANCE" "NSE" "BUY" (-5) "-1.00"
                          None None None None "PENDING" None None 1000)) /\
  orders (store_after (post_api_orders (demo_body "BUY" (Fin (-5)) "-1.00")) calm empty_store)
  = [Order.mk 1 1 "RELIANCE" "NSE" "BUY" (-5) "-1.00"
       None None None None "PENDING" None None 1000].
Proof. repeat split. discriminate. Qed.

(** C8, amended.  [POST /api/orders] rejects at creation time, with status
    400 and the store untouched, a request that fails the type checks of the
    insert schema: a symbol, exchange, order type or limit price that is not
    a string, a quantity that is not an integral number in the 32-bit range,
    a take-profit or stop-loss field that is neither absent nor a string.
    Neither the sign of the quantity nor that of the limit price is checked:
    for a stock of the catalog, and unless the stock lookup or the insert
    fails, a request with any 32-bit integer quantity, zero and negative ones
    included, and any limit price that the database accepts as a
    [decimal(10, 2)] is answered with its order, and a row with that
    quantity and with the limit price as the column holds it, rounded to two
    decimals, is in the orders table.  A limit price that the database
    refuses, a text that is no numeral or a value beyond the ten digits of
    the column, is answered with status 500, and no order is added. *)
Theorem createOrder_checks_types_only (e : Env) (s : Store) (sy ex ty lim lim' : string)
        (n : Z) (stk : Stock.t) :
  -2147483648 <= n <= 2147483647 ->
  throws e 0 = false -> throws e 1 = false ->
  storage.getStock sy ex s = Some stk ->
  decimal_10_2 lim = Some lim' ->
  (exists order : Order.t,
     result_of (post_api_orders (typed_body sy ex ty lim n)) e s = Normal (json_order order) /\
     Order.quantity order = n /\ Order.limitPrice order = lim') /\
  (exists row : Order.t,
     In row (orders (store_after (post_api_orders (typed_body sy ex ty lim n)) e s)) /\
     Order.id row = currentOrderId s /\
     Order.quantity row = n /\ Order.limitPrice row = lim') /\
  (forall body : Body.t,
     z_string (Body.symbol body) = None \/
     z_string (Body.exchange body) = None \/
     z_string (Body.orderType body) = None \/
     z_integer (Body.quantity body) = None \/
     z_string (Body.limitPrice body) = None \/
     z_string_nullish (Body.takeProfitType body) = None \/
     z_string_nullish (Body.takeProfitValue body) = None \/
     z_string_nullish (Body.stopLossType body) = None \/
     z_string_nullish (Body.stopLossValue body) = None ->
     result_of (post_api_orders body) e s = Normal (json_error 400 "Invalid order data") /\
     store_after (post_api_orders body) e s = s) /\
  (forall refused : string,
     decimal_10_2 refused = None ->
     result_of (post_api_orders (typed_body sy ex ty refused n)) e s
     = Normal (json_error 500 "Failed to place order") /\
     orders (store_after (post_api_orders (typed_body sy ex ty refused n)) e s) = orders s).
Proof.
  intros Hn H0 H1 Hstk Hlim.
  pose proof (parse_well_typed sy ex ty lim n Hn) as Hparse.
  fold (typed_body sy ex ty lim n) in Hparse.
  pose proof (createOrder_typed (now e) s sy ex ty lim n) as Hrow.
  rewrite Hlim in Hrow. cbv zeta in Hrow.
  split; [|split; [|split]].
  - destruct (post_api_orders_accepts e s _ _ stk _ _ Hparse H0 Hstk H1 Hrow) as [Hres _].
    eexists. split; [exact Hres|]. split; reflexivity.
  - destruct (row_persisted e s _ _ stk _ _ Hparse H0 Hstk H1 Hrow)
      as [_ [row [Hin [Hid [_ [_ [_ [_ [Hq Hl]]]]]]]]].
    exists row. repeat split; assumption.
  - intros body Hbad. apply post_api_orders_invalid.
    now apply parse_checks_types.
  - intros refused Hno.
    pose proof (parse_well_typed sy ex ty refused n Hn) as Hparse'.
    fold (typed_body sy ex ty refused n) in Hparse'.
    pose proof (createOrder_typed (now e) s sy ex ty refused n) as Hrow'.
    rewrite Hno in Hrow'.
    destruct (post_api_orders_refused e s _ _ stk Hparse' H0 Hstk Hrow') as [Hres Hst].
    split; [exact Hres | now rewrite Hst].
Qed.

Lemma createOrder_checks_types_only_witness :
  (exists order : Order.t,
     result_of (post_api_orders (typed_body "RELIANCE" "NSE" "SELL" "0" 0)) calm empty_store
     = Normal (json_order order) /\
     Order.quantity order = 0 /\ Order.limitPrice order = "0.00") /\
  (exists row : Order.t,
     In row (orders (store_after
                       (post_api_orders (typed_body "RELIANCE" "NSE" "SELL" "0" 0))
                       calm empty_store)) /\
     Order.id row = 1 /\ Order.quantity row = 0 /\ Order.limitPrice row = "0.00") /\
  result_of (post_api_orders (demo_body "BUY" (Fin (3 # 2)) "100.00")) calm empty_store
  = Normal (json_error 400 "Invalid order data") /\
  result_of (post_api_orders (typed_body "RELIANCE" "NSE" "SELL" "abc" 0)) calm empty_store
  = Normal (json_error 500 "Failed to place order").
Proof.
  pose proof (createOrder_checks_types_only calm empty_store "RELIANCE" "NSE" "SELL" "0"
                "0.00" 0 reliance ltac:(lia) eq_refl eq_refl eq_refl eq_refl)
    as [Hres [Hrow [Hbad Hno]]].
  split; [exact Hres|]. split; [exact Hrow|]. split.
  - apply Hbad. right. right. right. left. reflexivity.
  - apply (Hno "abc"). reflexivity.
Defined.



(** ** Where the execution condition is used *)


Lemma find_app_fresh {A : Type} (P : A -> bool) (l : list A) (x : A) :
  find P l = None -> find P (l ++ [x]) = if P x then Some x else None.
Proof.
  induction l as [|r l IH]; simpl; [reflexivity|].
  destruct (P r); [discriminate | exact IH].
Qed.

(** At creation time the order is settled exactly when the test holds. *)
Lemma placed_order_status (e : Env) (s : Store) (body : Body.t) (d : OrderData.t)
      (stk : Stock.t) (order : Order.t) (s1 : Store) :
  insertOrderSchema_parse body = Some d ->
  no_throw e ->
  storage.getStock (OrderData.symbol d) (OrderData.exchange d) s = Some stk ->
  storage.getOrder (currentOrderId s) s = None ->
  storage.createOrder (now e) (with_userId d 1) s = Some (order, s1) ->
  status_of (currentOrderId s) (store_after (post_api_orders body) e s)
  = Some (if shouldExecute_at_creation (OrderData.orderType d)
               (parseFloat (Stock.currentPrice stk))
               (parseFloat (OrderData.limitPrice d))
          then "EXECUTED" else "PENDING").
Proof.
  intros Hparse He Hstk Hfresh Hrow.
  unfold store_after, post_api_orders, try_catch.
  rewrite Hparse. run He. rewrite Hstk.
  rewrite (run_insert_checked _ _ _ _ _ order s1) by (apply He || exact Hrow).
  destruct (createOrder_row _ _ _ _ _ Hrow) as (-> & _ & Hmk).
  assert (Hid : Order.id order = currentOrderId s) by (rewrite Hmk; reflexivity).
  assert (Hpending : Order.status order = "PENDING") by (rewrite Hmk; reflexivity).
  set (s1 := insert_order order s).
  assert (Hnew : storage.getOrder (currentOrderId s) s1 = Some order).
  { unfold storage.getOrder, DatabaseStorage.getOrder in *. simpl.
    rewrite (find_app_fresh _ _ _ Hfresh). now rewrite Hid, Z.eqb_refl. }
  destruct (shouldExecute_at_creation _ _ _).
  - rewrite run_executeOrder. cbv beta.
    rewrite Hid.
    destruct (executeOrder_settles e 2 (currentOrderId s)
                (parseFloat (Stock.currentPrice stk)) s1 order He Hnew Hpending) as [Hs _].
    cbn [snd fst ret]. rewrite Hs. now apply settled_status.
  - rewrite run_ret. cbn [snd ret]. unfold status_of. rewrite Hnew. cbn [option_map].
    now rewrite Hpending.
Qed.

(** In the sweep a pending order is settled exactly when the test holds on
    the fresh quote, and is left alone when the quote fails. *)
Lemma swept_order_status (e : Env) (s : Store) (order : Order.t) :
  no_throw e ->
  storage.getOrder (Order.id order) s = Some order ->
  Order.status order = "PENDING" ->
  (forall currentPrice : number,
     quote e (Order.symbol order) (Order.exchange order) = Some currentPrice ->
     status_of (Order.id order) (store_after (sweep_order order) e s)
     = Some (if shouldExecute_in_sweep (Order.orderType order) currentPrice
                  (parseFloat (Order.limitPrice order))
             then "EXECUTED" else "PENDING")) /\
  (quote e (Order.symbol order) (Order.exchange order) = None ->
   store_after (sweep_order order) e s = s).
Proof.
  intros He Ho Hst. unfold store_after, sweep_order, try_catch, fetchStockPrice.
  split.
  - intros c Hq. unfold bind at 1. rewrite Hq.
    destruct (shouldExecute_in_sweep _ _ _).
    + destruct (executeOrder_settles e 0 (Order.id order) c s order He Ho Hst) as [Hs Hr].
      destruct (executeOrder (Order.id order) c e 0%nat s) as [[r n'] s'].
      cbn [fst snd] in Hs, Hr. subst r s'. cbn [snd]. now apply settled_status.
    + cbn [snd ret]. unfold status_of. rewrite Ho. cbn. now rewrite Hst.
  - intros Hq. unfold bind at 1. rewrite Hq. reflexivity.
Qed.

(** * Further properties *)

(** ** Tables *)

Section Tables.
Context {A K : Type}.
Variable key : A -> K.

Lemma map_update_where (P : A -> bool) (f : A -> A) (rows : list A) :
  (forall r, key (f r) = key r) ->
  map key (update_where P f rows) = map key rows.
Proof.
  intros Hf. unfold update_where. rewrite map_map. apply map_ext.
  intros r. destruct (P r); [apply Hf | reflexivity].
Qed.

Lemma NoDup_map_delete_where (P : A -> bool) (rows : list A) :
  NoDup (map key rows) -> NoDup (map key (delete_where P rows)).
Proof.
  unfold delete_where. induction rows as [|r rows IH]; cbn [map filter]; [trivial|].
  intros H. inversion H as [|k ks Hnot Hrest]; subst.
  destruct (negb (P r)); [|now apply IH].
  cbn [map]. constructor; [|now apply IH].
  intros Hin. apply Hnot. apply in_map_iff in Hin. destruct Hin as [x [Hx Hin]].
  apply in_map_iff. exists x. split; [exact Hx|]. apply filter_In in Hin. tauto.
Qed.

Lemma Forall_map_delete_where (Q : K -> Prop) (P : A -> bool) (rows : list A) :
  Forall Q (map key rows) -> Forall Q (map key (delete_where P rows)).
Proof.
  unfold delete_where. rewrite !Forall_forall. intros H k Hk. apply H.
  apply in_map_iff in Hk. destruct Hk as [x [Hx Hin]].
  apply in_map_iff. exists x. split; [exact Hx|]. apply filter_In in Hin. tauto.
Qed.
End Tables.

(** ** What the routes write *)

Section Steps.
Variable step : Store -> Store -> Prop.

Lemma steps_trans (s s' s'' : Store) :
  steps step s s' -> steps step s' s'' -> steps step s s''.
Proof.
  intros H1 H2. induction H2 as [|s1 s2 s3 _ IH Hw]; [exact H1|].
  apply steps_more with (s' := s2); [now apply IH | exact Hw].
Qed.

Lemma steps_one (s s' : Store) : step s s' -> steps step s s'.
Proof. intros H. eapply steps_more; [apply steps_none | exact H]. Qed.

(** What every step keeps, every run keeps. *)
Lemma steps_keep (I : Store -> Prop) :
  (forall s s', step s s' -> I s -> I s') ->
  forall s s', steps step s s' -> I s -> I s'.
Proof.
  intros Hstep s s' Hrun Hs. induction Hrun as [|s0 s1 s2 _ IH Hw]; [exact Hs|].
  apply (Hstep s1 s2 Hw). now apply IH.
Qed.

Lemma bind_steps {A B : Type} (m : M A) (k : A -> M B) (e : Env) (n : nat) (s : Store) :
  steps step s (snd (m e n s)) ->
  (forall a n' s', steps step s' (snd (k a e n' s'))) ->
  steps step s (snd (bind m k e n s)).
Proof.
  intros Hm Hk. unfold bind. destruct (m e n s) as [[[a|err] n'] s']; cbn [snd] in *.
  - apply steps_trans with (s' := s'); [exact Hm | apply Hk].
  - exact Hm.
Qed.

Lemma try_catch_steps {A : Type} (m : M A) (h : Error -> M A) (e : Env) (n : nat) (s : Store) :
  steps step s (snd (m e n s)) ->
  (forall err n' s', steps step s' (snd (h err e n' s'))) ->
  steps step s (snd (try_catch m h e n s)).
Proof.
  intros Hm Hh. unfold try_catch. destruct (m e n s) as [[[a|err] n'] s']; cbn [snd] in *.
  - exact Hm.
  - apply steps_trans with (s' := s'); [exact Hm | apply Hh].
Qed.

Lemma for_of_steps {A : Type} (xs : list A) (body : A -> M unit) (e : Env) :
  (forall x n s, steps step s (snd (body x e n s))) ->
  forall n s, steps step s (snd (for_of xs body e n s)).
Proof.
  intros Hbody. induction xs as [|x xs IH]; intros n s; cbn [for_of].
  - apply steps_none.
  - apply bind_steps; [apply Hbody | intros _ n' s'; apply IH].
Qed.
End Steps.

(** Steps through a run as [crash_or_go] does, keeping the outcome of each
    lookup as an equation. *)
Ltac crash_or_go_on :=
  match goal with
  | |- context [bind (bind ?m ?k) ?h ?e ?n ?s] => rewrite (run_assoc e n s m k h)
  | |- context [bind (ret ?a) ?k ?e ?n ?s] => rewrite (run_ret e n s a k)
  | |- context [bind (await_read ?f) ?k ?e ?n ?s] =>
      let H := fresh "Hthrow" in
      destruct (throws e n) eqn:H;
      [rewrite (run_read_throws e n s f k H) | rewrite (run_read e n s f k H)]
  | |- context [bind (await_write ?f) ?k ?e ?n ?s] =>
      let H := fresh "Hthrow" in
      destruct (throws e n) eqn:H;
      [rewrite (run_write_throws e n s f k H) | rewrite (run_write e n s f k H)]
  | |- context [bind (await_insert ?f) ?k ?e ?n ?s] =>
      let H := fresh "Hthrow" in
      destruct (throws e n) eqn:H;
      [rewrite (run_insert_throws e n s f k H) | rewrite (run_insert e n s f k H)]
  | |- context [await_write ?f ?e ?n ?s] =>
      let H := fresh "Hthrow" in
      destruct (throws e n) eqn:H;
      [rewrite (run_last_write_throws e n s f H) | rewrite (run_last_write e n s f H)]
  | |- context [match ?x with Some _ => _ | None => _ end] =>
      let H := fresh "Hfound" in destruct x eqn:H
  | |- context [if ?c then _ else _] =>
      let H := fresh "Htest" in destruct c eqn:H
  end; cbv beta.

Lemma getPosition_In (userId : Z) (symbol exchange : string) (s : Store)
      (pos : Position.t) :
  storage.getPosition userId symbol exchange s = Some pos -> In pos (positions s).
Proof. intros H. now apply find_some in H. Qed.

Lemma placed_after_stamp (t t' : Date) (orderId : Z) (p : number) (tr : InsertTrade.t)
      (o : Order.t) (s : Store) :
  storage.getOrder orderId s = Some o ->
  In (placed o)
     (map placed (orders (snd (storage.createTrade t' tr
                                 (storage.updateOrderStatus t orderId "EXECUTED"
                                    (Some p) s))))).
Proof.
  intros Ho. cbn [orders snd storage.createTrade DatabaseStorage.createTrade insert_trade
                  storage.updateOrderStatus DatabaseStorage.updateOrderStatus set_orders].
  rewrite (map_update_where placed) by reflexivity.
  apply in_map. now apply find_some in Ho.
Qed.

Ltac written :=
  cbv beta iota; cbn [snd fst];
  repeat match goal with
         | H : negb (String.eqb _ "PENDING") = false |- _ =>
             apply Bool.negb_false_iff, String.eqb_eq in H
         | H : (_ <=? 0) = false |- _ => apply Z.leb_gt in H
         end;
  repeat (eapply steps_more;
          [| solve [econstructor;
                    eauto using getPosition_In, placed_after_stamp]]);
  apply steps_none.

(** Whatever throws, [executeOrder] changes the store by writes of the
    routes only. *)
Lemma executeOrder_writes (e : Env) (n : nat) (orderId : Z) (p : number) (s : Store) :
  writes s (snd (executeOrder orderId p e n s)).
Proof.
  unfold executeOrder, try_catch.
  repeat crash_or_go_on; written.
Qed.

(** The routes, for any kind of step that the storage calls of the routes
    and the runs of [executeOrder] are made of. *)
Section Routes.
Variable step : Store -> Store -> Prop.
Variable e : Env.
Hypothesis step_order :
  forall t order row s s', storage.createOrder t order s = Some (row, s') -> step s s'.
Hypothesis step_cancel : forall orderId s, step s (storage.cancelOrder orderId s).
Hypothesis step_price :
  forall t symbol exchange price s, step s (storage.updateStockPrice t symbol exchange price s).
Hypothesis steps_executeOrder :
  forall n orderId p s, steps step s (snd (executeOrder orderId p e n s)).

Lemma post_api_orders_steps (n : nat) (body : Body.t) (s : Store) :
  steps step s (snd (post_api_orders body e n s)).
Proof.
  unfold post_api_orders. apply try_catch_steps.
  - destruct (insertOrderSchema_parse body) as [d|]; [|apply steps_none].
    unfold await_read at 1, bind at 1.
    destruct (throws e n); [apply steps_none|].
    destruct (storage.getStock _ _ s) as [stk|]; [|apply steps_none].
    apply bind_steps.
    + unfold await_insert_checked. destruct (throws e (S n)); cbn [snd]; [apply steps_none|].
      destruct (storage.createOrder _ _ s) as [[row s']|] eqn:Hrow; cbn [snd];
        [|apply steps_none].
      eapply steps_one, step_order, Hrow.
    + intros order n' s'. apply bind_steps; [|intros; apply steps_none].
      destruct (shouldExecute_at_creation _ _ _);
        [apply steps_executeOrder | apply steps_none].
  - intros err n' s'. destruct err; apply steps_none.
Qed.

Lemma delete_api_orders_steps (n : nat) (orderId : Z) (s : Store) :
  steps step s (snd (delete_api_orders orderId e n s)).
Proof.
  unfold delete_api_orders. apply try_catch_steps; [|intros; apply steps_none].
  apply bind_steps; [|intros; apply steps_none].
  unfold await_write. destruct (throws e n); cbn [snd]; [apply steps_none|].
  apply steps_one, step_cancel.
Qed.

Lemma get_api_stocks_price_steps (n : nat) (symbol exchange : string) (s : Store) :
  steps step s (snd (get_api_stocks_price symbol exchange e n s)).
Proof.
  unfold get_api_stocks_price. apply try_catch_steps; [|intros; apply steps_none].
  apply bind_steps.
  - unfold fetchStockPrice. destruct (quote e _ _); apply steps_none.
  - intros c n' s'. apply bind_steps; [|intros; apply steps_none].
    unfold await_write. destruct (throws e n'); cbn [snd]; [apply steps_none|].
    apply steps_one, step_price.
Qed.

Lemma sweep_order_steps (n : nat) (order : Order.t) (s : Store) :
  steps step s (snd (sweep_order order e n s)).
Proof.
  unfold sweep_order. apply try_catch_steps; [|intros; apply steps_none].
  apply bind_steps.
  - unfold fetchStockPrice. destruct (quote e _ _); apply steps_none.
  - intros c n' s'. destruct (shouldExecute_in_sweep _ _ _);
      [apply steps_executeOrder | apply steps_none].
Qed.

Lemma sweep_steps (n : nat) (s : Store) : steps step s (snd (sweep e n s)).
Proof.
  unfold sweep. apply try_catch_steps; [|intros; apply steps_none].
  apply bind_steps.
  - unfold await_read. destruct (throws e n); apply steps_none.
  - intros os n' s'. apply for_of_steps. intros x n0 s0. apply sweep_order_steps.
Qed.

Lemma perform_steps (op : Operation) (s : Store) : steps step s (perform op e s).
Proof.
  destruct op; unfold perform, store_after.
  - apply post_api_orders_steps.
  - apply delete_api_orders_steps.
  - apply get_api_stocks_price_steps.
  - apply sweep_steps.
  - apply steps_executeOrder.
Qed.
End Routes.

Lemma perform_writes (op : Operation) (e : Env) (s : Store) :
  writes s (perform op e s).
Proof.
  apply perform_steps;
    [apply write_order | apply write_cancel | apply write_price |].
  intros n orderId p s0. apply executeOrder_writes.
Qed.

(** A run of [executeOrder] in which no store call throws settles the order
    in full or leaves the store alone. *)
Lemma executeOrder_settlements (e : Env) (n : nat) (orderId : Z) (p : number) (s : Store) :
  no_throw e -> settlements s (snd (executeOrder orderId p e n s)).
Proof.
  intros He. destruct (storage.getOrder orderId s) as [o|] eqn:Ho.
  - destruct (String.eqb (Order.status o) "PENDING") eqn:Hst.
    + apply String.eqb_eq in Hst.
      rewrite (proj1 (executeOrder_settles e n orderId p s o He Ho Hst)).
      apply steps_one. now apply settlement_settled.
    + apply String.eqb_neq in Hst.
      rewrite (proj1 (executeOrder_skips e n orderId p s
                        (or_intror (ex_intro _ o (conj Ho Hst))))).
      apply steps_none.
  - rewrite (proj1 (executeOrder_skips e n orderId p s (or_introl Ho))).
    apply steps_none.
Qed.

Lemma perform_settlements (op : Operation) (e : Env) (s : Store) :
  no_throw e -> settlements s (perform op e s).
Proof.
  intros He. apply perform_steps;
    [apply settlement_order | apply settlement_cancel | apply settlement_price |].
  intros n orderId p s0. now apply executeOrder_settlements.
Qed.

(** ** Row numbers stay distinct *)


Lemma numbered_rows_insert (ids : list Z) (counter : Z) :
  numbered_rows ids counter -> numbered_rows (ids ++ [counter]) (counter + 1).
Proof.
  intros [Hlt Hnd]. split.
  - apply Forall_app. split.
    + eapply Forall_impl; [|exact Hlt]. cbv beta. intros; lia.
    + constructor; [lia | constructor].
  - apply NoDup_app; [exact Hnd | repeat constructor; intros [] | ].
    intros i Hi [<- | []]. rewrite Forall_forall in Hlt. specialize (Hlt _ Hi). lia.
Qed.

Lemma write_numbered (s s' : Store) : write s s' -> numbered s -> numbered s'.
Proof.
  intros Hw [Ho [Hp Ht]].
  destruct Hw; inserted; unfold numbered; cbn [orders positions trades currentOrderId
    currentPositionId currentTradeId snd storage.createOrder storage.updateOrderStatus
    storage.cancelOrder storage.createTrade storage.createPosition storage.updatePosition
    storage.deletePosition storage.updateUserBalance storage.updateStockPrice
    insert_order insert_trade insert_position set_orders set_positions set_users
    set_stocks];
    rewrite ?map_app; cbn [map Order.id Position.id Trade.id];
    rewrite ?(map_update_where Order.id), ?(map_update_where Position.id) by reflexivity;
    repeat split; try (apply Ho || apply Hp || apply Ht);
    try (apply numbered_rows_insert; assumption).
  - apply Forall_map_delete_where, Hp.
  - apply NoDup_map_delete_where, Hp.
Qed.


(** ** One position for each user and instrument *)

Lemma getPosition_none_key (userId : Z) (symbol exchange : string) (s : Store) :
  storage.getPosition userId symbol exchange s = None ->
  ~ In (userId, symbol, exchange) (map position_key (positions s)).
Proof.
  unfold storage.getPosition, DatabaseStorage.getPosition. intros Hnone Hin.
  apply in_map_iff in Hin. destruct Hin as [p [Hkey Hin]].
  pose proof (find_none _ _ Hnone p Hin) as Hp. cbv beta in Hp.
  unfold position_key in Hkey. injection Hkey as Hu Hs He.
  rewrite Hu, Hs, He, Z.eqb_refl, !String.eqb_refl in Hp. discriminate.
Qed.

Lemma write_one_position_per_key (s s' : Store) :
  write s s' -> one_position_per_key s -> one_position_per_key s'.
Proof.
  intros Hw Hs.
  destruct Hw as [| | | |t o p s Hnone _| | | | |]; inserted; unfold one_position_per_key in *;
    cbn [positions snd storage.createPosition DatabaseStorage.createPosition insert_position
         storage.updatePosition DatabaseStorage.updatePosition
         storage.deletePosition DatabaseStorage.deletePosition set_positions];
    rewrite ?(map_update_where position_key) by reflexivity;
    try exact Hs.
  - rewrite map_app. apply NoDup_app; [exact Hs | repeat constructor; intros [] |].
    intros k Hk [<- | []]. now apply (getPosition_none_key _ _ _ _ Hnone).
  - now apply NoDup_map_delete_where.
Qed.


(** ** What is never rewritten *)

Lemma placed_update (P : Order.t -> bool) (f : Order.t -> Order.t) (rows : list Order.t) :
  (forall o, placed (f o) = placed o) ->
  map placed (update_where P f rows) = map placed rows.
Proof. apply (map_update_where placed). Qed.

Lemma write_ledger (s s' : Store) :
  write s s' ->
  (exists more, trades s' = trades s ++ more) /\
  (exists more, map placed (orders s') = map placed (orders s) ++ more) /\
  map unpriced (stocks s') = map unpriced (stocks s) /\
  map (User.with_balance "") (users s') = map (User.with_balance "") (users s).
Proof.
  intros Hw. destruct Hw; inserted;
    cbn [orders trades stocks users snd storage.createOrder storage.updateOrderStatus
         storage.cancelOrder storage.createTrade storage.createPosition
         storage.updatePosition storage.deletePosition storage.updateUserBalance
         storage.updateStockPrice DatabaseStorage.updateStockPrice
         DatabaseStorage.createOrder DatabaseStorage.updateOrderStatus
         DatabaseStorage.cancelOrder DatabaseStorage.createTrade
         DatabaseStorage.createPosition DatabaseStorage.updatePosition
         DatabaseStorage.deletePosition DatabaseStorage.updateUserBalance
         insert_order insert_trade insert_position set_orders set_positions set_users
         set_stocks];
    rewrite ?placed_update by reflexivity;
    rewrite ?(map_update_where unpriced) by reflexivity;
    rewrite ?(map_update_where (User.with_balance "")) by reflexivity;
    rewrite ?map_app;
    (split; [eexists; ((symmetry; apply app_nil_r) || reflexivity)|]);
    (split; [eexists; ((symmetry; apply app_nil_r) || reflexivity)|]);
    split; reflexivity.
Qed.

Lemma writes_ledger (s s' : Store) :
  writes s s' ->
  (exists more, trades s' = trades s ++ more) /\
  (exists more, map placed (orders s') = map placed (orders s) ++ more) /\
  map unpriced (stocks s') = map unpriced (stocks s) /\
  map (User.with_balance "") (users s') = map (User.with_balance "") (users s).
Proof.
  intros Hw. induction Hw as [s|s0 s1 s2 _ IH Hw].
  - repeat split; try (exists []; now rewrite app_nil_r).
  - destruct IH as [[t1 Ht1] [[o1 Ho1] [Hk1 Hu1]]].
    destruct (write_ledger s1 s2 Hw) as [[t2 Ht2] [[o2 Ho2] [Hk2 Hu2]]].
    split; [exists (t1 ++ t2); now rewrite Ht2, Ht1, app_assoc|].
    split; [exists (o1 ++ o2); now rewrite Ho2, Ho1, app_assoc|].
    split; congruence.
Qed.

(** ** Trades and their orders *)

Lemma find_app_found {A : Type} (P : A -> bool) (l more : list A) (x : A) :
  find P l = Some x -> find P (l ++ more) = Some x.
Proof.
  induction l as [|r l IH]; cbn [find app]; [discriminate|].
  destruct (P r); [trivial | exact IH].
Qed.

Lemma in_update_where_inv {A : Type} (P : A -> bool) (f : A -> A) (l : list A) (r' : A) :
  In r' (update_where P f l) -> exists r, In r l /\ r' = if P r then f r else r.
Proof.
  unfold update_where. intros H. apply in_map_iff in H.
  destruct H as [r [Hr Hin]]. now exists r.
Qed.

Lemma trade_matches_restamped (tr : Trade.t) (o : Order.t) (P : Order.t -> bool)
      (f : Order.t -> Order.t) :
  (forall x, placed (f x) = placed x) ->
  (forall x, Order.status (f x) = "EXECUTED" \/ Order.status (f x) = "CANCELLED") ->
  trade_matches tr o -> trade_matches tr (if P o then f o else o).
Proof.
  intros Hplaced Hstatus Hm. destruct (P o); [|exact Hm].
  destruct Hm as [H1 [H2 [H3 [H4 [H5 [H6 _]]]]]].
  pose proof (Hplaced o) as Hp.
  assert (E : forall (B : Type) (g : Order.t -> B),
             (forall x, g (placed x) = g x) -> g (f o) = g o)
    by (intros B g Hg; now rewrite <- (Hg (f o)), Hp, Hg).
  unfold trade_matches.
  rewrite (E _ Order.id), (E _ Order.userId), (E _ Order.symbol), (E _ Order.exchange),
    (E _ Order.orderType), (E _ Order.quantity) by reflexivity.
  repeat split; try assumption. apply Hstatus.
Qed.

Lemma accounted_restamped (s : Store) (P : Order.t -> bool) (f : Order.t -> Order.t)
      (tr : Trade.t) :
  (forall x, placed (f x) = placed x) ->
  (forall x, Order.status (f x) = "EXECUTED" \/ Order.status (f x) = "CANCELLED") ->
  (exists o, storage.getOrder (Trade.orderId tr) s = Some o /\ trade_matches tr o) ->
  exists o, find (fun o => Order.id o =? Trade.orderId tr) (update_where P f (orders s))
            = Some o /\ trade_matches tr o.
Proof.
  intros Hplaced Hstatus [o [Ho Hm]].
  rewrite find_update_where.
  - unfold storage.getOrder, DatabaseStorage.getOrder in Ho. rewrite Ho. cbn [option_map].
    eexists. split; [reflexivity|]. now apply trade_matches_restamped.
  - intros x. pose proof (Hplaced x) as Hp.
    assert (E : Order.id (f x) = Order.id x).
    { change (Order.id (placed (f x)) = Order.id (placed x)). now rewrite Hp. }
    now rewrite E.
Qed.

Lemma write_accounted (s s' : Store) : write s s' -> accounted s -> accounted s'.
Proof.
  intros Hw [Hnd Hall].
  destruct Hw as [t io row s s' Hrow|oid s|t oid p o s Ho Hst|t t' oid p o s Ho Hst| | | | | |];
    inserted;
    try (split; [exact Hnd | exact Hall]).
  - split; [exact Hnd|]. intros tr Htr. destruct (Hall tr Htr) as [o [Ho Hm]].
    exists o. split; [|exact Hm].
    unfold storage.getOrder, DatabaseStorage.getOrder in *.
    cbn [orders snd storage.createOrder DatabaseStorage.createOrder insert_order].
    now apply find_app_found.
  - split; [exact Hnd|]. intros tr Htr.
    apply accounted_restamped; [reflexivity | now right | now apply Hall].
  - split; [exact Hnd|]. intros tr Htr.
    apply accounted_restamped; [reflexivity | now left | now apply Hall].
  - pose proof (getOrder_id _ _ _ Ho) as Hid.
    split.
    + cbn [trades snd storage.createTrade DatabaseStorage.createTrade insert_trade
           storage.updateOrderStatus DatabaseStorage.updateOrderStatus set_orders].
      rewrite map_app. apply NoDup_app; [exact Hnd | repeat constructor; intros [] |].
      intros i Hi [Hnew | []]. cbn in Hnew. subst i.
      apply in_map_iff in Hi. destruct Hi as [tr [Htr Hin]].
      destruct (Hall tr Hin) as [o' [Ho' Hm]].
      rewrite Htr, Hid, Ho in Ho'. injection Ho' as <-.
      destruct Hm as [_ [_ [_ [_ [_ [_ [H|H]]]]]]]; rewrite Hst in H; discriminate.
    + intros tr Htr.
      cbn [trades snd storage.createTrade DatabaseStorage.createTrade insert_trade
           storage.updateOrderStatus DatabaseStorage.updateOrderStatus set_orders] in Htr.
      apply in_app_or in Htr. destruct Htr as [Htr | [<- | []]].
      * apply accounted_restamped; [reflexivity | now left | now apply Hall].
      * cbn [Trade.orderId trade_of InsertTrade.orderId].
        unfold storage.getOrder, DatabaseStorage.getOrder in *.
        cbn [orders snd storage.createTrade DatabaseStorage.createTrade insert_trade
             storage.updateOrderStatus DatabaseStorage.updateOrderStatus set_orders].
        rewrite Hid, find_update_where, Ho by reflexivity. cbn [option_map].
        rewrite Hid, Z.eqb_refl. eexists. split; [reflexivity|].
        unfold trade_matches. cbn. intuition congruence.
Qed.


(** ** The three statuses *)

Lemma write_lifecycle (s s' : Store) : write s s' -> lifecycle s -> lifecycle s'.
Proof.
  intros Hw Hs.
  destruct Hw as [t io row s s' Hrow|oid s|t oid p o s Ho Hst|t t' oid p o s Ho Hst| | | | | |];
    inserted;
    try exact Hs; intros o' Ho';
    cbn [orders snd storage.createOrder DatabaseStorage.createOrder insert_order
         storage.createTrade DatabaseStorage.createTrade insert_trade
         storage.updateOrderStatus DatabaseStorage.updateOrderStatus
         storage.cancelOrder DatabaseStorage.cancelOrder set_orders] in Ho'.
  - apply in_app_or in Ho'. destruct Ho' as [Ho' | [<- | []]]; [now apply Hs|].
    left. repeat split.
  - apply in_update_where_inv in Ho'. destruct Ho' as [r [Hr ->]].
    destruct (Order.id r =? oid); [right; right; reflexivity | now apply Hs].
  - apply in_update_where_inv in Ho'. destruct Ho' as [r [Hr ->]].
    destruct (Order.id r =? oid); [right; left; reflexivity | now apply Hs].
  - apply in_update_where_inv in Ho'. destruct Ho' as [r [Hr ->]].
    destruct (Order.id r =? oid); [right; left; reflexivity | now apply Hs].
Qed.


(** ** Positive quantities *)

Lemma placed_prefix_In (l l' more : list Order.t) (o : Order.t) :
  map placed l' = (map placed l ++ map placed more)%list ->
  In (placed o) (map placed l) -> In (placed o) (map placed l').
Proof. intros -> H. apply in_or_app. now left. Qed.

Lemma placed_quantity (l : list Order.t) (o : Order.t) :
  (forall x, In x l -> 0 < Order.quantity x) ->
  In (placed o) (map placed l) -> 0 < Order.quantity o.
Proof.
  intros Hall Hin. apply in_map_iff in Hin. destruct Hin as [x [Hx Hin]].
  change (0 < Order.quantity (placed o)). rewrite <- Hx.
  change (0 < Order.quantity x). now apply Hall.
Qed.

Lemma ledger_quantities (s s' : Store) :
  (exists more, map placed (orders s') = (map placed (orders s) ++ more)%list) ->
  (forall o, In o (orders s') -> 0 < Order.quantity o) ->
  forall o, In o (orders s) -> 0 < Order.quantity o.
Proof.
  intros [more Hmore] Hall o Ho.
  apply (placed_quantity (orders s')); [exact Hall|].
  rewrite Hmore. apply in_or_app. left. now apply in_map.
Qed.

Lemma write_whole_lots (s s' : Store) : write s s' -> whole_lots s -> whole_lots s'.
Proof.
  intros Hw Hs Hall'.
  pose proof (ledger_quantities s s' (proj1 (proj2 (write_ledger s s' Hw))) Hall') as Hall.
  specialize (Hs Hall).
  destruct Hw as [ | | | |t o p s Hnone Ho|t pos o avg s Hpos Ho|t pos o s Hpos Hq|pid s| | ];
    inserted;
    try exact Hs; intros p' Hp';
    cbn [positions snd storage.createPosition DatabaseStorage.createPosition insert_position
         storage.updatePosition DatabaseStorage.updatePosition
         storage.deletePosition DatabaseStorage.deletePosition set_positions] in Hp'.
  - apply in_app_or in Hp'. destruct Hp' as [Hp' | [<- | []]]; [now apply Hs|].
    cbn [Position.quantity InsertPosition.quantity].
    now apply (placed_quantity (orders s)).
  - apply in_update_where_inv in Hp'. destruct Hp' as [r [Hr ->]].
    destruct (Position.id r =? Position.id pos); [|now apply Hs].
    cbn [Position.quantity].
    pose proof (Hs pos Hpos). pose proof (placed_quantity (orders s) o Hall Ho). lia.
  - apply in_update_where_inv in Hp'. destruct Hp' as [r [Hr ->]].
    destruct (Position.id r =? Position.id pos); [exact Hq | now apply Hs].
  - unfold delete_where in Hp'. apply filter_In in Hp'. now apply Hs.
Qed.


(** ** Looking a row up by its key *)

Lemma find_the_one {A : Type} (P : A -> bool) (l : list A) (x : A) :
  In x l -> P x = true -> (forall y, In y l -> P y = true -> y = x) ->
  find P l = Some x.
Proof.
  induction l as [|r l IH]; intros Hin HP Hone; [destruct Hin|].
  cbn [find]. destruct (P r) eqn:Hr.
  - f_equal. apply Hone; [now left | exact Hr].
  - destruct Hin as [-> | Hin]; [congruence|].
    apply IH; [exact Hin | exact HP |]. intros y Hy. apply Hone. now right.
Qed.

Lemma NoDup_map_one {A K : Type} (key : A -> K) (l : list A) (x y : A) :
  NoDup (map key l) -> In x l -> In y l -> key x = key y -> x = y.
Proof.
  induction l as [|r l IH]; intros Hnd Hx Hy Hk; [destruct Hx|].
  cbn [map] in Hnd. inversion Hnd as [|k ks Hnotin Hnd']. subst.
  destruct Hx as [-> | Hx], Hy as [-> | Hy]; [reflexivity| | |now apply IH].
  - exfalso. apply Hnotin. rewrite Hk. now apply in_map.
  - exfalso. apply Hnotin. rewrite <- Hk. now apply in_map.
Qed.

Lemma reachable_writes (us : list User.t) (ks : list Stock.t) (s : Store) :
  reachable us ks s -> writes (opening us ks) s.
Proof.
  induction 1 as [|op e s _ IH]; [apply steps_none|].
  eapply steps_trans; [exact IH | apply perform_writes].
Qed.

Lemma opening_numbered (us : list User.t) (ks : list Stock.t) : numbered (opening us ks).
Proof. repeat split; constructor. Qed.

Lemma reachable_numbered (us : list User.t) (ks : list Stock.t) (s : Store) :
  reachable us ks s -> numbered s.
Proof.
  intros Hr.
  apply (steps_keep write numbered write_numbered _ _ (reachable_writes _ _ _ Hr)),
    opening_numbered.
Qed.

Lemma getOrder_In (s : Store) (o : Order.t) :
  NoDup (map Order.id (orders s)) -> In o (orders s) ->
  storage.getOrder (Order.id o) s = Some o.
Proof.
  intros Hnd Ho. apply find_the_one; [exact Ho | apply Z.eqb_refl |].
  intros y Hy Hid. apply Z.eqb_eq in Hid.
  now apply (NoDup_map_one Order.id (orders s)).
Qed.

(** ** The stores the server reaches *)

(** X1.  In every store the server reaches, whatever store calls and quotes
    failed on the way, the ids of orders, positions and trades are distinct
    and below the next value of their sequence, and an order that is in the
    table is the one [getOrder] finds at its id. *)
Theorem reachable_orders_by_id (us : list User.t) (ks : list Stock.t) (s : Store) :
  reachable us ks s ->
  numbered s /\
  forall o, In o (orders s) -> storage.getOrder (Order.id o) s = Some o.
Proof.
  intros Hr. pose proof (reachable_numbered us ks s Hr) as Hn.
  split; [exact Hn|]. intros o Ho.
  destruct Hn as [[_ Hnd] _]. now apply getOrder_In.
Qed.

Lemma reachable_orders_by_id_witness :
  numbered first_store /\
  forall o, In o (orders first_store) -> storage.getOrder (Order.id o) first_store = Some o.
Proof.
  apply (reachable_orders_by_id [demo_user] [reliance] first_store).
  apply reach_perform, reach_opening.
Defined.

Lemma positions_by_key (s : Store) :
  one_position_per_key s ->
  forall p, In p (positions s) ->
            storage.getPosition (Position.userId p) (Position.symbol p)
                                (Position.exchange p) s = Some p.
Proof.
  intros Hn p Hp.
  apply find_the_one; [exact Hp | now rewrite Z.eqb_refl, !String.eqb_refl |].
  intros y Hy Hkey.
  apply andb_prop in Hkey. destruct Hkey as [Hkey Hex].
  apply andb_prop in Hkey. destruct Hkey as [Hu Hsy].
  apply Z.eqb_eq in Hu. apply String.eqb_eq in Hsy, Hex.
  apply (NoDup_map_one position_key (positions s)); [exact Hn | exact Hy | exact Hp |].
  unfold position_key. now rewrite Hu, Hsy, Hex.
Qed.

(** X2.  One operation, run from its first store call to its last with no
    other operation writing to the store in between, and whatever fails in
    it: if the store has at most one position for a user and an instrument
    before it, so it has after it, and a position that is in the table is
    then the one [getPosition] finds at its user, symbol and exchange.
    Two settlements that overlap are not such a run. *)
Theorem perform_keeps_positions_by_key (op : Operation) (e : Env) (s : Store) :
  one_position_per_key s ->
  one_position_per_key (perform op e s) /\
  forall p, In p (positions (perform op e s)) ->
            storage.getPosition (Position.userId p) (Position.symbol p)
                                (Position.exchange p) (perform op e s) = Some p.
Proof.
  intros Hs.
  assert (Hn : one_position_per_key (perform op e s)).
  { apply (steps_keep write one_position_per_key write_one_position_per_key
             _ _ (perform_writes op e s)), Hs. }
  split; [exact Hn | now apply positions_by_key].
Qed.

Lemma perform_keeps_positions_by_key_witness :
  one_position_per_key first_store /\
  Forall (fun p => storage.getPosition (Position.userId p) (Position.symbol p)
                                       (Position.exchange p) first_store = Some p)
         (positions first_store).
Proof.
  destruct (perform_keeps_positions_by_key
              (Place (demo_body "BUY" (of_int 10) "2500.00")) calm
              (opening [demo_user] [reliance])) as [Hone Hfind]; [constructor|].
  split; [exact Hone | apply Forall_forall; exact Hfind].
Defined.

(** X3.  Whatever the operation, the run and the store: the trades that were
    there are still there, in place and unchanged; no order is deleted, and
    an order changes in its [status], [executedPrice] and [executedAt] only;
    the stocks are untouched; and a user changes in its [balance] only. *)
Theorem perform_keeps_ledger (op : Operation) (e : Env) (s : Store) :
  (exists more, trades (perform op e s) = (trades s ++ more)%list) /\
  (exists more, map placed (orders (perform op e s)) = (map placed (orders s) ++ more)%list) /\
  map unpriced (stocks (perform op e s)) = map unpriced (stocks s) /\
  map (User.with_balance "") (users (perform op e s)) = map (User.with_balance "") (users s).
Proof. apply writes_ledger, perform_writes. Qed.

(** X4.  One operation, run from its first store call to its last with no
    other operation writing to the store in between, and whatever fails in
    it: if before it no order has two trades, and every trade belongs to an
    order of the table that is no longer PENDING and has the trade's user,
    instrument, side and quantity, then the same holds after it.  Two
    settlements of one order that overlap are not such a run. *)
Theorem perform_keeps_accounted (op : Operation) (e : Env) (s : Store) :
  accounted s -> accounted (perform op e s).
Proof.
  apply (steps_keep write accounted write_accounted _ _ (perform_writes op e s)).
Qed.

Lemma perform_keeps_accounted_witness : accounted first_store.
Proof.
  apply (perform_keeps_accounted (Place (demo_body "BUY" (of_int 10) "2500.00")) calm
           (opening [demo_user] [reliance])).
  split; [constructor | intros tr []].
Defined.

(** X5.  In every store the server reaches an order is PENDING, EXECUTED or
    CANCELLED, and a PENDING order has neither [executedPrice] nor
    [executedAt]. *)
Theorem reachable_lifecycle (us : list User.t) (ks : list Stock.t) (s : Store) :
  reachable us ks s -> lifecycle s.
Proof.
  intros Hr. apply (steps_keep write lifecycle write_lifecycle _ _ (reachable_writes _ _ _ Hr)).
  intros o [].
Qed.

Lemma reachable_lifecycle_witness : lifecycle first_store.
Proof.
  apply (reachable_lifecycle [demo_user] [reliance] first_store).
  apply reach_perform, reach_opening.
Defined.

(** X6.  In every store the server reaches, if all the orders ask for a
    positive quantity then all the positions hold one: a sale that would leave
    nothing, or less, deletes the position. *)
Theorem reachable_whole_lots (us : list User.t) (ks : list Stock.t) (s : Store) :
  reachable us ks s ->
  (forall o, In o (orders s) -> 0 < Order.quantity o) ->
  forall p, In p (positions s) -> 0 < Position.quantity p.
Proof.
  intros Hr. apply (steps_keep write whole_lots write_whole_lots _ _ (reachable_writes _ _ _ Hr)).
  intros _ p [].
Qed.

Lemma reachable_whole_lots_witness :
  Forall (fun p => 0 < Position.quantity p) (positions first_store).
Proof.
  apply Forall_forall.
  apply (reachable_whole_lots [demo_user] [reliance] first_store).
  - apply reach_perform, reach_opening.
  - intros o Ho. vm_compute in Ho. destruct Ho as [<- | []]. reflexivity.
Defined.

(** ** An executed order and its trade *)

Lemma settlement_executed_traded (s s' : Store) :
  settlement s s' -> executed_traded s -> executed_traded s'.
Proof.
  intros Hw Hs. destruct Hw as [t io row s s' Hrow|oid s|t oid p o s Ho Hst|t sy ex pr s]; inserted;
    intros o' Ho' Hex.
  - cbn [orders trades snd storage.createOrder DatabaseStorage.createOrder insert_order]
      in *.
    apply in_app_or in Ho'. destruct Ho' as [Ho' | [<- | []]]; [now apply Hs|].
    discriminate Hex.
  - cbn [orders trades storage.cancelOrder DatabaseStorage.cancelOrder set_orders] in *.
    apply in_update_where_inv in Ho'. destruct Ho' as [r [Hr ->]].
    destruct (Order.id r =? oid); [discriminate Hex | now apply Hs].
  - rewrite settled_orders in Ho'. rewrite settled_trades.
    cbn [orders storage.updateOrderStatus DatabaseStorage.updateOrderStatus set_orders]
      in Ho'.
    apply in_update_where_inv in Ho'. destruct Ho' as [r [Hr ->]].
    destruct (Order.id r =? oid) eqn:Hid.
    + eexists. split; [apply in_or_app; right; left; reflexivity|].
      apply Z.eqb_eq in Hid. cbn. rewrite Hid. now apply getOrder_id with (s := s).
    + destruct (Hs r Hr Hex) as [tr [Htr Hid']]. exists tr.
      split; [apply in_or_app; now left | exact Hid'].
  - now apply Hs.
Qed.

(** X7.  One operation in which no store call fails (quotes may), run from
    its first store call to its last with no other operation writing to the
    store in between.  If before it the rows are numbered apart, no order
    has two trades, every trade has its order, and every EXECUTED order has
    a trade, then after it every EXECUTED order has exactly one trade, and
    that trade has the order's id, user, instrument, side and quantity. *)
Theorem perform_keeps_one_trade_per_executed_order
        (op : Operation) (e : Env) (s : Store) (o : Order.t) :
  no_throw e ->
  numbered s -> accounted s -> executed_traded s ->
  In o (orders (perform op e s)) -> Order.status o = "EXECUTED" ->
  exists tr, In tr (trades (perform op e s)) /\ trade_matches tr o /\
             forall tr', In tr' (trades (perform op e s)) ->
                         Trade.orderId tr' = Order.id o -> tr' = tr.
Proof.
  intros He Hn Ha Ht Ho Hex.
  pose proof (perform_writes op e s) as Hw.
  pose proof (steps_keep write numbered write_numbered _ _ Hw Hn) as [[_ Hids] _].
  pose proof (steps_keep write accounted write_accounted _ _ Hw Ha) as [Hnd Hall].
  pose proof (steps_keep settlement executed_traded settlement_executed_traded
                _ _ (perform_settlements op e s He) Ht) as Ht'.
  set (s' := perform op e s) in *.
  destruct (Ht' o Ho Hex) as [tr [Htr Hid]].
  exists tr. split; [exact Htr|]. split.
  - destruct (Hall tr Htr) as [o' [Ho' Hm]].
    rewrite Hid, (getOrder_In s' o Hids Ho) in Ho'. now injection Ho' as <-.
  - intros tr' Htr' Hid'.
    apply (NoDup_map_one Trade.orderId (trades s')); [exact Hnd | exact Htr' | exact Htr|].
    congruence.
Qed.

Lemma perform_keeps_one_trade_per_executed_order_witness :
  exists tr, In tr (trades first_store) /\ trade_matches tr first_order /\
             forall tr', In tr' (trades first_store) ->
                         Trade.orderId tr' = Order.id first_order -> tr' = tr.
Proof.
  apply (perform_keeps_one_trade_per_executed_order
           (Place (demo_body "BUY" (of_int 10) "2500.00")) calm
           (opening [demo_user] [reliance]) first_order).
  - intros n. reflexivity.
  - apply opening_numbered.
  - split; [constructor | intros tr []].
  - intros x [].
  - vm_compute. left. reflexivity.
  - reflexivity.
Defined.

(** ** One sweep *)

Lemma NoDup_map_filter {A K : Type} (key : A -> K) (P : A -> bool) (rows : list A) :
  NoDup (map key rows) -> NoDup (map key (filter P rows)).
Proof.
  induction rows as [|r rows IH]; cbn [map filter]; [trivial|].
  intros H. inversion H as [|k ks Hnot Hrest]; subst.
  destruct (P r); [|now apply IH].
  cbn [map]. constructor; [|now apply IH].
  intros Hin. apply Hnot. apply in_map_iff in Hin. destruct Hin as [x [Hx Hin]].
  apply in_map_iff. exists x. split; [exact Hx|]. apply filter_In in Hin. tauto.
Qed.

Lemma sweep_order_returns (e : Env) (n : nat) (order : Order.t) (s : Store) :
  fst (fst (sweep_order order e n s)) = Normal tt.
Proof.
  unfold sweep_order, try_catch, fetchStockPrice. unfold bind at 1.
  destruct (quote e _ _) as [c|]; [|reflexivity].
  destruct (shouldExecute_in_sweep _ _ _); [|reflexivity].
  destruct (executeOrder_any e n (Order.id order) c s) as [Hret _].
  destruct (executeOrder (Order.id order) c e n s) as [[[r|err] n'] s'];
    cbn [fst] in *; [exact Hret | discriminate].
Qed.

(** What a turn of the loop does to the store. *)
Lemma sweep_order_store (e : Env) (n : nat) (order : Order.t) (s : Store) :
  snd (sweep_order order e n s)
  = match quote e (Order.symbol order) (Order.exchange order) with
    | Some currentPrice =>
        if shouldExecute_in_sweep (Order.orderType order) currentPrice
                                  (parseFloat (Order.limitPrice order))
        then snd (executeOrder (Order.id order) currentPrice e n s)
        else s
    | None => s
    end.
Proof.
  unfold sweep_order, try_catch, fetchStockPrice. unfold bind at 1.
  destruct (quote e _ _) as [c|]; [|reflexivity].
  destruct (shouldExecute_in_sweep _ _ _); [|reflexivity].
  destruct (executeOrder_any e n (Order.id order) c s) as [Hret _].
  destruct (executeOrder (Order.id order) c e n s) as [[[r|err] n'] s'];
    cbn [fst] in *; [reflexivity | discriminate].
Qed.

Lemma executeOrder_other (e : Env) (n : nat) (orderId : Z) (p : number) (s : Store) (i : Z) :
  i <> orderId ->
  storage.getOrder i (snd (executeOrder orderId p e n s)) = storage.getOrder i s.
Proof.
  intros Hi. destruct (executeOrder_any e n orderId p s) as [_ [H | H]];
    unfold storage.getOrder, DatabaseStorage.getOrder; rewrite H; [reflexivity|].
  cbn [orders storage.updateOrderStatus DatabaseStorage.updateOrderStatus set_orders].
  rewrite find_update_where by reflexivity.
  destruct (find _ (orders s)) as [o|] eqn:Ho; [|reflexivity].
  cbn [option_map]. apply find_some in Ho. destruct Ho as [_ Ho].
  apply Z.eqb_eq in Ho. rewrite Ho.
  destruct (i =? orderId) eqn:E; [apply Z.eqb_eq in E; contradiction | reflexivity].
Qed.

Lemma sweep_order_other (e : Env) (n : nat) (order : Order.t) (s : Store) (i : Z) :
  i <> Order.id order ->
  storage.getOrder i (snd (sweep_order order e n s)) = storage.getOrder i s.
Proof.
  intros Hi. rewrite sweep_order_store.
  destruct (quote e _ _) as [c|]; [|reflexivity].
  destruct (shouldExecute_in_sweep _ _ _); [|reflexivity].
  now apply executeOrder_other.
Qed.

Lemma sweep_order_verdict (e : Env) (n : nat) (order : Order.t) (s : Store) :
  no_throw e ->
  storage.getOrder (Order.id order) s = Some order ->
  Order.status order = "PENDING" ->
  status_of (Order.id order) (snd (sweep_order order e n s))
  = Some (sweep_verdict e order).
Proof.
  intros He Ho Hst. rewrite sweep_order_store. unfold sweep_verdict.
  destruct (quote e _ _) as [c|].
  - destruct (shouldExecute_in_sweep _ _ _).
    + rewrite (proj1 (executeOrder_settles e n _ c s order He Ho Hst)).
      now apply settled_status.
    + unfold status_of. rewrite Ho. cbn [option_map]. now rewrite Hst.
  - unfold status_of. rewrite Ho. cbn [option_map]. now rewrite Hst.
Qed.

Lemma for_of_sweep_order (e : Env) (xs : list Order.t) (n : nat) (s : Store) :
  for_of xs sweep_order e n s
  = match xs with
    | [] => (Normal tt, n, s)
    | x :: rest => for_of rest sweep_order e (snd (fst (sweep_order x e n s)))
                          (snd (sweep_order x e n s))
    end.
Proof.
  destruct xs as [|x rest]; [reflexivity|].
  cbn [for_of]. unfold bind at 1.
  pose proof (sweep_order_returns e n x s) as Hret.
  destruct (sweep_order x e n s) as [[[r|err] n'] s']; cbn [fst snd] in *;
    [reflexivity | discriminate].
Qed.

Lemma for_of_sweep_other (e : Env) (xs : list Order.t) (i : Z) :
  ~ In i (map Order.id xs) ->
  forall n s, storage.getOrder i (snd (for_of xs sweep_order e n s)) = storage.getOrder i s.
Proof.
  induction xs as [|x rest IH]; intros Hi n s; rewrite for_of_sweep_order; [reflexivity|].
  cbn [map] in Hi. rewrite IH by (intros H; apply Hi; now right).
  apply sweep_order_other. intros H. apply Hi. now left.
Qed.

Lemma for_of_sweep_verdict (e : Env) (xs : list Order.t) :
  no_throw e ->
  NoDup (map Order.id xs) ->
  forall n s,
    (forall x, In x xs -> storage.getOrder (Order.id x) s = Some x
                          /\ Order.status x = "PENDING") ->
    forall x, In x xs ->
              status_of (Order.id x) (snd (for_of xs sweep_order e n s))
              = Some (sweep_verdict e x).
Proof.
  intros He. induction xs as [|y rest IH]; intros Hnd n s Hall x Hx; [destruct Hx|].
  rewrite for_of_sweep_order. cbn [map] in Hnd.
  inversion Hnd as [|k ks Hnot Hnd']; subst.
  destruct Hx as [<- | Hx].
  - unfold status_of. rewrite for_of_sweep_other by exact Hnot.
    destruct (Hall y (or_introl eq_refl)) as [Ho Hst].
    now apply sweep_order_verdict.
  - apply IH; [exact Hnd' | | exact Hx].
    intros z Hz. destruct (Hall z (or_intror Hz)) as [Ho Hst]. split; [|exact Hst].
    rewrite sweep_order_other; [exact Ho|].
    intros E. apply Hnot. rewrite <- E. now apply in_map.
Qed.

Lemma sweep_store (e : Env) (s : Store) :
  store_after sweep e s
  = if throws e 0 then s
    else snd (for_of (storage.getActiveOrders 1 s) sweep_order e 1%nat s).
Proof.
  unfold store_after, sweep, try_catch. unfold bind at 1, await_read.
  destruct (throws e 0); [reflexivity|].
  destruct (for_of _ sweep_order e 1%nat s) as [[[r|err] n'] s']; reflexivity.
Qed.

(** X8.  One sweep in which no store call fails, over a store whose order
    ids are distinct: every order that was active ends EXECUTED if its own
    quote arrived and passes the test against its limit, and PENDING
    otherwise; a quote that fails for one order changes nothing for the
    others. *)
Theorem sweep_settles_each_order (e : Env) (s : Store) (o : Order.t) :
  no_throw e ->
  NoDup (map Order.id (orders s)) ->
  In o (storage.getActiveOrders 1 s) ->
  status_of (Order.id o) (store_after sweep e s) = Some (sweep_verdict e o).
Proof.
  intros He Hnd Ho. rewrite sweep_store, (He 0%nat).
  apply for_of_sweep_verdict; [exact He | now apply NoDup_map_filter | | exact Ho].
  intros x Hx. apply filter_In in Hx. destruct Hx as [Hx Hp].
  apply andb_prop in Hp. destruct Hp as [_ Hp]. apply String.eqb_eq in Hp.
  split; [now apply getOrder_In | exact Hp].
Qed.

Lemma sweep_settles_each_order_witness :
  status_of 1 (store_after sweep tcs_only three_orders_store) = Some "PENDING" /\
  status_of 2 (store_after sweep tcs_only three_orders_store) = Some "EXECUTED".
Proof.
  assert (Hnd : NoDup (map Order.id (orders three_orders_store))).
  { repeat constructor; cbn; intuition discriminate. }
  split.
  - apply (sweep_settles_each_order tcs_only three_orders_store
             (demo_order "BUY" 10 "2400.00"));
      [intros n; reflexivity | exact Hnd | left; reflexivity].
  - apply (sweep_settles_each_order tcs_only three_orders_store (tcs_order 2 "PENDING"));
      [intros n; reflexivity | exact Hnd | right; left; reflexivity].
Defined.

(** X9.  Whatever fails, a sweep leaves alone every order that was not
    active when it started: those of other users, and those that are
    EXECUTED or CANCELLED. *)
Theorem sweep_leaves_other_orders (e : Env) (s : Store) (i : Z) :
  ~ In i (map Order.id (storage.getActiveOrders 1 s)) ->
  storage.getOrder i (store_after sweep e s) = storage.getOrder i s.
Proof.
  intros Hi. rewrite sweep_store. destruct (throws e 0); [reflexivity|].
  now apply for_of_sweep_other.
Qed.

Lemma sweep_leaves_other_orders_witness :
  storage.getOrder 3 (store_after sweep tcs_only three_orders_store)
  = Some (tcs_order 3 "CANCELLED").
Proof.
  rewrite (sweep_leaves_other_orders tcs_only three_orders_store 3); [reflexivity|].
  cbn. intuition discriminate.
Defined.

(** ** The execution condition, and the two routes that settle by it *)

(** C7.  The test that [POST /api/orders] makes and the test that the sweep
    makes are one function of the order type and of the two prices.  On a
    BUY it holds exactly when the current price is at most the limit price,
    on a SELL exactly when it is at least the limit price, the bound
    included: a BUY with limit 100.00 passes at 100.00 and fails at 100.01.
    Both routes settle by it.  An order placed for a stock of the catalog,
    in a run in which no store call fails, is EXECUTED when the route
    returns if the test holds of the stored price of the stock and the limit
    price of the request, and PENDING if not.  After a sweep in which no
    store call fails, an order that was active is EXECUTED if its quote
    arrived and the test holds of the quote and the limit price of the
    order, and PENDING if not. *)
Theorem execution_condition (sd : Side) (limitPrice currentPrice : Q) :
  (shouldExecute_at_creation (side_text sd) (Fin currentPrice) (Fin limitPrice) = true
   <-> evaluateExecutionCondition sd limitPrice currentPrice) /\
  (shouldExecute_in_sweep (side_text sd) (Fin currentPrice) (Fin limitPrice) = true
   <-> evaluateExecutionCondition sd limitPrice currentPrice) /\
  (forall (orderType : string) (current limit : number),
     shouldExecute_at_creation orderType current limit
     = shouldExecute_in_sweep orderType current limit) /\
  shouldExecute_at_creation "BUY" (parseFloat "100.00") (parseFloat "100.00") = true /\
  shouldExecute_at_creation "BUY" (parseFloat "100.01") (parseFloat "100.00") = false /\
  shouldExecute_in_sweep "BUY" (Fin (10000 # 100)) (parseFloat "100.00") = true /\
  shouldExecute_in_sweep "BUY" (Fin (10001 # 100)) (parseFloat "100.00") = false /\
  (forall (e : Env) (s : Store) (body : Body.t) (d : OrderData.t) (stk : Stock.t)
          (order : Order.t) (s1 : Store),
     insertOrderSchema_parse body = Some d ->
     no_throw e ->
     storage.getStock (OrderData.symbol d) (OrderData.exchange d) s = Some stk ->
     storage.getOrder (currentOrderId s) s = None ->
     storage.createOrder (now e) (with_userId d 1) s = Some (order, s1) ->
     status_of (currentOrderId s) (store_after (post_api_orders body) e s)
     = Some (if shouldExecute_at_creation (OrderData.orderType d)
                  (parseFloat (Stock.currentPrice stk))
                  (parseFloat (OrderData.limitPrice d))
             then "EXECUTED" else "PENDING")) /\
  (forall (e : Env) (s : Store) (o : Order.t),
     no_throw e ->
     NoDup (map Order.id (orders s)) ->
     In o (storage.getActiveOrders 1 s) ->
     status_of (Order.id o) (store_after sweep e s)
     = Some (match quote e (Order.symbol o) (Order.exchange o) with
             | Some quoted =>
                 if shouldExecute_in_sweep (Order.orderType o) quoted
                                           (parseFloat (Order.limitPrice o))
                 then "EXECUTED" else "PENDING"
             | None => "PENDING"
             end)).
Proof.
  assert (H : shouldExecute_at_creation (side_text sd) (Fin currentPrice) (Fin limitPrice)
              = true
              <-> evaluateExecutionCondition sd limitPrice currentPrice).
  { destruct sd; unfold shouldExecute_at_creation, nge, nle; simpl.
    - rewrite <- Qle_bool_iff. destruct (Qle_bool currentPrice limitPrice); tauto.
    - rewrite <- Qle_bool_iff. destruct (Qle_bool limitPrice currentPrice); tauto. }
  split; [exact H|]. split; [exact H|].
  split; [reflexivity|].
  split; [reflexivity|]. split; [reflexivity|]. split; [reflexivity|]. split; [reflexivity|].
  split.
  - intros e s body d stk order s1. apply placed_order_status.
  - intros e s o He Hnd Ho. change (Some _) with (Some (sweep_verdict e o)).
    rewrite sweep_store, (He 0%nat).
    apply for_of_sweep_verdict; [exact He | now apply NoDup_map_filter | | exact Ho].
    intros x Hx. apply filter_In in Hx. destruct Hx as [Hx Hp].
    apply andb_prop in Hp. destruct Hp as [_ Hp]. apply String.eqb_eq in Hp.
    split; [now apply getOrder_In | exact Hp].
Qed.

Lemma execution_condition_witness :
  status_of 1 (store_after
                 (post_api_orders (typed_body "RELIANCE" "NSE" "BUY" "2500.00" 10))
                 calm empty_store) = Some "EXECUTED" /\
  status_of 1 (store_after
                 (post_api_orders (typed_body "RELIANCE" "NSE" "BUY" "2400.00" 10))
                 calm empty_store) = Some "PENDING" /\
  status_of 2 (store_after sweep tcs_only three_orders_store) = Some "EXECUTED" /\
  status_of 1 (store_after sweep tcs_only three_orders_store) = Some "PENDING".
Proof.
  destruct (execution_condition BUY 100 100)
    as (_ & _ & _ & _ & _ & _ & _ & Hplace & Hsweep).
  assert (Hnd : NoDup (map Order.id (orders three_orders_store))).
  { repeat constructor; cbn; intuition discriminate. }
  split; [|split; [|split]].
  - exact (Hplace calm empty_store
             (typed_body "RELIANCE" "NSE" "BUY" "2500.00" 10)
             (OrderData.mk "RELIANCE" "NSE" "BUY" 10 "2500.00" None None None None)
             reliance
             (Order.mk 1 1 "RELIANCE" "NSE" "BUY" 10 "2500.00" None None None None
                       "PENDING" None None 1000)
             _ eq_refl (fun n => eq_refl) eq_refl eq_refl eq_refl).
  - exact (Hplace calm empty_store
             (typed_body "RELIANCE" "NSE" "BUY" "2400.00" 10)
             (OrderData.mk "RELIANCE" "NSE" "BUY" 10 "2400.00" None None None None)
             reliance
             (Order.mk 1 1 "RELIANCE" "NSE" "BUY" 10 "2400.00" None None None None
                       "PENDING" None None 1000)
             _ eq_refl (fun n => eq_refl) eq_refl eq_refl eq_refl).
  - exact (Hsweep tcs_only three_orders_store (tcs_order 2 "PENDING")
             (fun n => eq_refl) Hnd (or_intror (or_introl eq_refl))).
  - exact (Hsweep tcs_only three_orders_store (demo_order "BUY" 10 "2400.00")
             (fun n => eq_refl) Hnd (or_introl eq_refl)).
Defined.

(** ** The texts of a trade *)

Lemma unit_roundoff_nonneg (x : Q) : (0 <= unit_roundoff * Qabs x)%Q.
Proof. apply Qmult_le_0_compat; [discriminate | apply Qabs_nonneg]. Qed.

Lemma binary64_of_exact (x : number) : binary64_of x x.
Proof.
  destruct x as [q|b|]; unfold binary64_of; [|reflexivity|exact I].
  assert (E : (q - q == 0)%Q) by ring.
  rewrite E. apply unit_roundoff_nonneg.
Qed.

Lemma write_trade_totals (s s' : Store) : write s s' -> trade_totals s -> trade_totals s'.
Proof.
  intros Hw Hs. destruct Hw as [| | |t t' oid p o s Ho Hst| | | | | |]; inserted; try exact Hs.
  intros tr Htr.
  cbn [trades snd storage.createTrade DatabaseStorage.createTrade insert_trade
       storage.updateOrderStatus DatabaseStorage.updateOrderStatus set_orders] in Htr.
  apply in_app_or in Htr. destruct Htr as [Htr | [<- | []]]; [now apply Hs|].
  exists p, (nmul (of_int (Order.quantity o)) p).
  split; [reflexivity|]. split; [reflexivity|]. apply binary64_of_exact.
Qed.

(** X10.  In every store the server reaches, its operations run one after
    the other, each trade carries the texts of one execution price: [price]
    is that price written with two decimals and [totalValue] is the quantity
    times that price, as binary64 gives the product, within a relative error
    of [2^-53], written with two decimals; the total is computed from the
    price before it is rounded. *)
Theorem reachable_trade_totals (us : list User.t) (ks : list Stock.t) (s : Store) :
  reachable us ks s -> trade_totals s.
Proof.
  intros Hr.
  apply (steps_keep write trade_totals write_trade_totals _ _ (reachable_writes _ _ _ Hr)).
  intros tr [].
Qed.

Lemma reachable_trade_totals_witness : trade_totals first_store.
Proof.
  apply (reachable_trade_totals [demo_user] [reliance] first_store).
  apply reach_perform, reach_opening.
Defined.

(** ** The two storages *)

(** X11.  [updateOrderStatus] with an execution price does the same in the
    two storages exactly when the price is truthy or there is no such order:
    at a price of [0] or [NaN] the database leaves [executedPrice] and
    [executedAt] null, where the in-memory store writes them. *)
Theorem updateOrderStatus_storages_agree
        (t : Date) (orderId : Z) (status : string) (p : number) (s : Store) :
  DatabaseStorage.updateOrderStatus t orderId status (Some p) s
  = MemStorage.updateOrderStatus t orderId status (Some p) s
  <-> truthy p = true \/ storage.getOrder orderId s = None.
Proof.
  unfold DatabaseStorage.updateOrderStatus, MemStorage.updateOrderStatus. split.
  - intros H. destruct (truthy p) eqn:Hp; [now left | right].
    destruct (storage.getOrder orderId s) as [o|] eqn:Ho; [exfalso | reflexivity].
    apply (f_equal (fun s' => option_map Order.executedAt
                                (find (fun o => Order.id o =? orderId) (orders s')))) in H.
    cbn [orders set_orders] in H.
    rewrite !find_update_where in H by reflexivity.
    unfold storage.getOrder, DatabaseStorage.getOrder in Ho. rewrite Ho in H.
    cbn [option_map] in H. apply find_some in Ho. destruct Ho as [_ Ho].
    rewrite Ho in H. discriminate H.
  - intros [Hp | Ho].
    + now rewrite Hp.
    + unfold storage.getOrder, DatabaseStorage.getOrder in Ho.
      now rewrite !update_where_absent by exact Ho.
Qed.

(** ** The price route *)

Lemma getStock_updateStockPrice (t : Date) (symbol exchange : string) (p : number)
      (s : Store) (k : Stock.t) :
  storage.getStock symbol exchange s = Some k ->
  exists k', storage.getStock symbol exchange
               (storage.updateStockPrice t symbol exchange p s) = Some k' /\
             Stock.currentPrice k' = toFixed2 p /\ Stock.lastUpdated k' = t /\
             unpriced k' = unpriced k.
Proof.
  intros Hk. unfold storage.getStock, DatabaseStorage.getStock in *.
  cbn [stocks storage.updateStockPrice DatabaseStorage.updateStockPrice set_stocks].
  rewrite find_update_where, Hk by reflexivity. cbn [option_map].
  apply find_some in Hk. destruct Hk as [_ Hk]. rewrite Hk.
  eexists. split; [reflexivity|]. repeat split.
Qed.

Lemma get_api_stocks_price_run (e : Env) (n : nat) (s : Store) (symbol exchange : string) :
  get_api_stocks_price symbol exchange e n s
  = match quote e symbol exchange with
    | Some p =>
        if throws e n then (Normal (json_price_error 500), S n, s)
        else (Normal (json_priceData p), S n,
              storage.updateStockPrice (now e) symbol exchange p s)
    | None => (Normal (json_price_error 500), n, s)
    end.
Proof.
  unfold get_api_stocks_price, try_catch, fetchStockPrice. unfold bind at 1.
  destruct (quote e symbol exchange) as [p|]; [|reflexivity].
  unfold bind, await_write. destruct (throws e n); reflexivity.
Qed.

(** X12.  [GET /api/stocks/:symbol/:exchange/price]: when the quote or the
    store call fails the answer is a 500 and nothing is written; otherwise
    the answer carries the quoted price, a stock of the catalogue with that
    symbol and exchange reads back with the price written with two decimals
    and the time of the update, the rest of it unchanged, and for an
    instrument that is not in the catalogue nothing is written, and no error
    is reported. *)
Theorem get_api_stocks_price_stores (e : Env) (s : Store) (symbol exchange : string) :
  (quote e symbol exchange = None \/ throws e 0 = true ->
   result_of (get_api_stocks_price symbol exchange) e s = Normal (json_price_error 500) /\
   store_after (get_api_stocks_price symbol exchange) e s = s) /\
  (forall p, quote e symbol exchange = Some p -> throws e 0 = false ->
     result_of (get_api_stocks_price symbol exchange) e s = Normal (json_priceData p) /\
     (forall k, storage.getStock symbol exchange s = Some k ->
        exists k', storage.getStock symbol exchange
                     (store_after (get_api_stocks_price symbol exchange) e s) = Some k' /\
                   Stock.currentPrice k' = toFixed2 p /\
                   Stock.lastUpdated k' = now e /\
                   unpriced k' = unpriced k) /\
     (storage.getStock symbol exchange s = None ->
      store_after (get_api_stocks_price symbol exchange) e s = s)).
Proof.
  unfold result_of, store_after. rewrite get_api_stocks_price_run. split.
  - intros [Hq | Ht].
    + rewrite Hq. split; reflexivity.
    + rewrite Ht. destruct (quote e symbol exchange); split; reflexivity.
  - intros p Hq Ht. rewrite Hq, Ht. cbn [fst snd]. split; [reflexivity|]. split.
    + intros k Hk. now apply getStock_updateStockPrice.
    + intros Hk. unfold storage.updateStockPrice, DatabaseStorage.updateStockPrice.
      unfold storage.getStock, DatabaseStorage.getStock in Hk.
      rewrite update_where_absent by exact Hk. now destruct s.
Qed.

Lemma get_api_stocks_price_stores_witness :
  result_of (get_api_stocks_price "TCS" "NSE") tcs_only empty_store
  = Normal (json_priceData (Fin 3700)) /\
  store_after (get_api_stocks_price "TCS" "NSE") tcs_only empty_store = empty_store.
Proof.
  destruct (get_api_stocks_price_stores tcs_only empty_store "TCS" "NSE") as [_ H].
  destruct (H (Fin 3700) eq_refl eq_refl) as [Hanswer [_ Hnone]].
  split; [exact Hanswer | apply Hnone; reflexivity].
Defined.

(** ** A first purchase *)

(** X13.  A BUY order settled, without store failure, for a user who has no
    position in the instrument opens one: a new row with the next position
    id, the quantity of the order, the execution price written with two
    decimals as average price, and as current value the quantity times that
    written price; [getPosition] then finds it. *)
Theorem first_buy_opens_position
        (e : Env) (orderId : Z) (p : number) (s : Store) (o : Order.t) :
  no_throw e ->
  storage.getOrder orderId s = Some o ->
  Order.status o = "PENDING" ->
  Order.orderType o = "BUY" ->
  storage.getPosition (Order.userId o) (Order.symbol o) (Order.exchange o) s = None ->
  positions (store_after (executeOrder orderId p) e s)
  = positions s
    ++ [Position.mk (currentPositionId s) (Order.userId o) (Order.symbol o)
          (Order.exchange o) (Order.quantity o) (toFixed2 p)
          (toFixed2 (nmul (of_int (Order.quantity o)) (parseFloat (toFixed2 p))))
          "0.00" (now e) (now e)] /\
  option_map Position.id
    (storage.getPosition (Order.userId o) (Order.symbol o) (Order.exchange o)
       (store_after (executeOrder orderId p) e s))
  = Some (currentPositionId s).
Proof.
  intros He Ho Hst Hty Hnone.
  assert (Hpos : positions (store_after (executeOrder orderId p) e s)
                 = positions s
                   ++ [Position.mk (currentPositionId s) (Order.userId o) (Order.symbol o)
                         (Order.exchange o) (Order.quantity o) (toFixed2 p)
                         (toFixed2 (nmul (of_int (Order.quantity o))
                                         (parseFloat (toFixed2 p))))
                         "0.00" (now e) (now e)]).
  { rewrite (settles e orderId p s o He Ho Hst), settled_positions.
    unfold position_step. rewrite Hnone, Hty. reflexivity. }
  split; [exact Hpos|].
  unfold storage.getPosition, DatabaseStorage.getPosition in *. rewrite Hpos.
  rewrite (find_app_fresh _ _ _ Hnone).
  cbn [Position.userId Position.symbol Position.exchange].
  now rewrite Z.eqb_refl, !String.eqb_refl.
Qed.

Lemma first_buy_opens_position_witness :
  positions (store_after (executeOrder 1 (Fin 2400)) calm buy_store)
  = [Position.mk 2 1 "RELIANCE" "NSE" 10 "2400.00" "24000.00" "0.00" 1000 1000] /\
  option_map Position.id
    (storage.getPosition 1 "RELIANCE" "NSE"
       (store_after (executeOrder 1 (Fin 2400)) calm buy_store))
  = Some 2.
Proof.
  apply (first_buy_opens_position calm 1 (Fin 2400) buy_store
           (demo_order "BUY" 10 "2400.00"));
    [intros n; reflexivity | reflexivity | reflexivity | reflexivity | reflexivity].
Defined.

(** ** Yahoo symbols *)

Lemma dot_free_tail (c : ascii) (s : string) :
  dot_free (String c s) -> c <> "."%char /\ dot_free s.
Proof.
  unfold dot_free. cbn [list_ascii_of_string In]. intros H. split.
  - intros E. apply H. left. now symmetry.
  - intros Hin. apply H. now right.
Qed.

Lemma prefix_same (s : string) : String.prefix s s = true.
Proof.
  induction s as [|c s IH]; cbn [String.prefix]; [reflexivity|].
  destruct (ascii_dec c c); [exact IH | contradiction].
Qed.

Lemma skip_all (s : string) : skip (String.length s) s = "".
Proof. induction s as [|c s IH]; cbn [skip String.length]; [reflexivity | exact IH]. Qed.

Lemma replace_suffix (suffix s : string) :
  dot_free s -> replace (String "." suffix) "" (s ++ String "." suffix) = s.
Proof.
  induction s as [|c s IH]; intros Hs.
  - cbn [append]. set (pattern := String "." suffix).
    replace (replace pattern "" pattern)
      with (if String.prefix pattern pattern
            then ("" ++ skip (String.length pattern) pattern)%string
            else String "." (replace pattern "" suffix)) by reflexivity.
    rewrite prefix_same. apply skip_all.
  - apply dot_free_tail in Hs. destruct Hs as [Hc Hs].
    cbn [append replace String.prefix].
    destruct (ascii_dec "." c) as [E|_]; [now elim Hc|].
    f_equal. now apply IH.
Qed.

Lemma endsWith_suffix (suffix s : string) :
  endsWith (s ++ String "." suffix) (String "." suffix) = true.
Proof.
  induction s as [|c s IH]; cbn [append].
  - cbn [endsWith]. now rewrite String.eqb_refl.
  - cbn [endsWith]. rewrite IH. apply orb_true_r.
Qed.

Lemma endsWith_dot_free (suffix s : string) :
  dot_free s -> endsWith s (String "." suffix) = false.
Proof.
  induction s as [|c s IH]; intros Hs; [reflexivity|].
  apply dot_free_tail in Hs. destruct Hs as [Hc Hs].
  cbn [endsWith]. rewrite (IH Hs), orb_false_r. cbn [String.eqb].
  destruct (Ascii.eqb c ".") eqn:E; [apply Ascii.eqb_eq in E; contradiction | reflexivity].
Qed.

Lemma endsWith_BO_NS (s : string) : dot_free s -> endsWith (s ++ ".BO") ".NS" = false.
Proof.
  induction s as [|c s IH]; intros Hs; [reflexivity|].
  apply dot_free_tail in Hs. destruct Hs as [Hc Hs].
  cbn [append endsWith]. rewrite (IH Hs), orb_false_r. cbn [String.eqb].
  destruct (Ascii.eqb c ".") eqn:E; [apply Ascii.eqb_eq in E; contradiction | reflexivity].
Qed.

(** X14.  For a symbol without a dot, [extractBaseSymbol] undoes
    [formatSymbol] on the symbol; the exchange comes back for NSE and BSE,
    and as NSE for any other exchange, which [formatSymbol] does not mark. *)
Theorem extractBaseSymbol_formatSymbol (symbol exchange : string) :
  dot_free symbol ->
  YahooFinanceAPI.extractBaseSymbol (YahooFinanceAPI.formatSymbol symbol exchange)
  = (symbol, if String.eqb exchange "BSE" then "BSE" else "NSE").
Proof.
  intros Hs. unfold YahooFinanceAPI.extractBaseSymbol, YahooFinanceAPI.formatSymbol.
  destruct (String.eqb exchange "NSE") eqn:Hn.
  - apply String.eqb_eq in Hn. subst exchange. cbn [String.eqb Ascii.eqb Bool.eqb].
    now rewrite (endsWith_suffix "NS"), (replace_suffix "NS") by exact Hs.
  - destruct (String.eqb exchange "BSE") eqn:Hb.
    + rewrite endsWith_BO_NS by exact Hs.
      now rewrite (endsWith_suffix "BO"), (replace_suffix "BO") by exact Hs.
    + now rewrite (endsWith_dot_free "NS"), (endsWith_dot_free "BO") by exact Hs.
Qed.

Lemma extractBaseSymbol_formatSymbol_witness :
  YahooFinanceAPI.extractBaseSymbol (YahooFinanceAPI.formatSymbol "RELIANCE" "BSE")
  = ("RELIANCE", "BSE").
Proof.
  apply (extractBaseSymbol_formatSymbol "RELIANCE" "BSE").
  unfold dot_free. cbn. intuition discriminate.
Defined.

(** ** Yahoo quotes *)

Lemma or_zero_number (x : number) : or_zero x <> NaN.
Proof.
  unfold or_zero. destruct x as [q|b|]; unfold truthy; try discriminate.
  destruct (negb (is_zero q)); discriminate.
Qed.

Lemma or_zero_missing : or_zero (to_number None) = of_int 0.
Proof. reflexivity. Qed.

(** X15.  A quote that [getQuote] returns has no [NaN] in it, whatever keys
    the response lacks: each number is the one computed from the response,
    or [0]; its [regularMarketOpen] is its [regularMarketDayLow]; and its
    symbol is the formatted one. *)
Theorem getQuote_numbers (fetch : string -> Fetched) (symbol exchange : string)
        (q : YahooQuoteData.t) :
  YahooFinanceAPI.getQuote fetch symbol exchange = Some q ->
  Forall (fun x => x <> NaN)
         [YahooQuoteData.regularMarketPrice q; YahooQuoteData.regularMarketChange q;
          YahooQuoteData.regularMarketChangePercent q;
          YahooQuoteData.regularMarketDayHigh q; YahooQuoteData.regularMarketDayLow q;
          YahooQuoteData.regularMarketOpen q;
          YahooQuoteData.regularMarketPreviousClose q;
          YahooQuoteData.regularMarketVolume q] /\
  YahooQuoteData.regularMarketOpen q = YahooQuoteData.regularMarketDayLow q /\
  YahooQuoteData.symbol q = YahooFinanceAPI.formatSymbol symbol exchange.
Proof.
  unfold YahooFinanceAPI.getQuote.
  destruct (fetch _) as [|[|] [[[|result rest]|]|]]; try discriminate.
  destruct (ChartResult.meta result) as [meta|]; [|discriminate].
  destruct (ChartResult.indicators_quote result); [|discriminate].
  intros H. injection H as <-. cbn [YahooQuoteData.regularMarketPrice
    YahooQuoteData.regularMarketChange YahooQuoteData.regularMarketChangePercent
    YahooQuoteData.regularMarketDayHigh YahooQuoteData.regularMarketDayLow
    YahooQuoteData.regularMarketOpen YahooQuoteData.regularMarketPreviousClose
    YahooQuoteData.regularMarketVolume YahooQuoteData.symbol].
  split; [|split; reflexivity].
  repeat (constructor; [apply or_zero_number|]). constructor.
Qed.

Lemma getQuote_numbers_witness :
  YahooFinanceAPI.getQuote bare_chart "RELIANCE" "NSE"
  = Some (YahooQuoteData.mk "RELIANCE.NS" (of_int 0) (of_int 0) (of_int 0) (of_int 0)
                            (of_int 0) (of_int 0) (of_int 0) (of_int 0) "REGULAR") /\
  Forall (fun x => x <> NaN)
         [of_int 0; of_int 0; of_int 0; of_int 0; of_int 0; of_int 0; of_int 0; of_int 0].
Proof.
  split; [reflexivity|].
  apply (getQuote_numbers bare_chart "RELIANCE" "NSE"
           (YahooQuoteData.mk "RELIANCE.NS" (of_int 0) (of_int 0) (of_int 0) (of_int 0)
                              (of_int 0) (of_int 0) (of_int 0) (of_int 0) "REGULAR")).
  reflexivity.
Defined.

(** ** A response without a price *)

Lemma settled_order_row (t : Date) (orderId : Z) (o : Order.t) (p : number) (s : Store) :
  storage.getOrder orderId s = Some o ->
  storage.getOrder orderId (settled t orderId o p s) = Some (stamped t p o).
Proof.
  intros Ho. unfold storage.getOrder, DatabaseStorage.getOrder in *.
  rewrite settled_orders.
  cbn [orders storage.updateOrderStatus DatabaseStorage.updateOrderStatus set_orders].
  rewrite find_update_where, Ho by reflexivity. cbn [option_map].
  apply find_some in Ho. destruct Ho as [_ Ho]. now rewrite Ho.
Qed.

Lemma toFixed2_nothing (quantity : Z) :
  toFixed2 (nmul (of_int quantity) (of_int 0)) = "0.00".
Proof.
  unfold nmul, of_int. rewrite (toFixed2_Qeq _ 0); [reflexivity|].
  unfold Qeq, Qmult, inject_Z. cbn [Qnum Qden]. lia.
Qed.

(** X16.  When the chart that Yahoo returns for the instrument of a pending
    BUY order has no price (or a price of 0), the quote reads 0, and a turn
    of the sweep in which no store call fails fills the order at that price,
    whatever its limit from 0 up: the order becomes EXECUTED with
    [executedPrice] and [executedAt] left null, and its trade is recorded at
    price and total value 0.00. *)
Theorem missing_price_fills_buy
        (fetch : string -> Fetched) (e : Env) (s : Store) (o : Order.t)
        (meta : Meta.t) (rest : list ChartResult.t) :
  no_throw e ->
  quote e (Order.symbol o) (Order.exchange o)
  = yahoo_price fetch (Order.symbol o) (Order.exchange o) ->
  fetch (YahooFinanceAPI.formatSymbol (Order.symbol o) (Order.exchange o))
  = fetch_response true (Some (Some (ChartResult.mk (Some meta) true :: rest))) ->
  truthy (to_number (Meta.regularMarketPrice meta)) = false ->
  storage.getOrder (Order.id o) s = Some o ->
  Order.status o = "PENDING" ->
  Order.orderType o = "BUY" ->
  nle (of_int 0) (parseFloat (Order.limitPrice o)) = true ->
  storage.getOrder (Order.id o) (store_after (sweep_order o) e s)
  = Some (Order.with_executed None None (Order.with_status "EXECUTED" o)) /\
  trades (store_after (sweep_order o) e s)
  = trades s ++ [Trade.mk (currentTradeId s) (Order.userId o) (Order.id o)
                          (Order.symbol o) (Order.exchange o) "BUY" (Order.quantity o)
                          "0.00" "0.00" (now e)].
Proof.
  intros He Hq Hfetch Hprice Ho Hst Hty Hlim.
  assert (Hzero : quote e (Order.symbol o) (Order.exchange o) = Some (of_int 0)).
  { rewrite Hq. unfold yahoo_price, YahooFinanceAPI.getQuote. rewrite Hfetch.
    cbn [ChartResult.meta ChartResult.indicators_quote option_map
         YahooQuoteData.regularMarketPrice].
    unfold or_zero. now rewrite Hprice. }
  unfold store_after. rewrite sweep_order_store, Hzero.
  unfold shouldExecute_in_sweep. rewrite Hty, Hlim. cbn [String.eqb Ascii.eqb Bool.eqb andb].
  rewrite (proj1 (executeOrder_settles e 0 _ (of_int 0) s o He Ho Hst)).
  split.
  - now rewrite settled_order_row.
  - rewrite settled_trades.
    cbn [fst storage.createTrade DatabaseStorage.createTrade trade_of
         InsertTrade.userId InsertTrade.orderId InsertTrade.symbol InsertTrade.exchange
         InsertTrade.tradeType InsertTrade.quantity InsertTrade.price
         InsertTrade.totalValue].
    now rewrite toFixed2_nothing, Hty.
Qed.

Lemma missing_price_fills_buy_witness :
  storage.getOrder 1 (store_after (sweep_order (demo_order "BUY" 10 "2400.00"))
                                  bare_quotes buy_store)
  = Some (Order.mk 1 1 "RELIANCE" "NSE" "BUY" 10 "2400.00" None None None None
                   "EXECUTED" None None 0) /\
  trades (store_after (sweep_order (demo_order "BUY" 10 "2400.00")) bare_quotes buy_store)
  = [Trade.mk 1 1 1 "RELIANCE" "NSE" "BUY" 10 "0.00" "0.00" 1000].
Proof.
  apply (missing_price_fills_buy bare_chart bare_quotes buy_store
           (demo_order "BUY" 10 "2400.00") (Meta.mk None None None None None None) []);
    [intros n; reflexivity | reflexivity | reflexivity | reflexivity | reflexivity
     | reflexivity | reflexivity | reflexivity].
Defined.

(** ** The portfolio summary *)










(** ** Seeding the database *)

Lemma insert_initial_stocks_users (e : Env) (rows : list InsertStock.t) :
  forall n d, users (tables (insert_initial_stocks e n rows d)) = users (tables d).
Proof.
  induction rows as [|r rows IH]; intros n d; cbn [insert_initial_stocks]; [reflexivity|].
  destruct (throws e n); [reflexivity|]. now rewrite IH.
Qed.

Lemma initialize_stocks_users (e : Env) (n : nat) (d : Database) :
  users (tables (initialize_stocks e n d)) = users (tables d).
Proof.
  unfold initialize_stocks. destruct (throws e n); [reflexivity|].
  destruct (stocks (tables d)); [apply insert_initial_stocks_users | reflexivity].
Qed.

Lemma insert_initial_stocks_prefix (e : Env) (rows : list InsertStock.t) :
  forall n d, exists more,
      stocks (tables (insert_initial_stocks e n rows d)) = stocks (tables d) ++ more.
Proof.
  induction rows as [|r rows IH]; intros n d; cbn [insert_initial_stocks].
  - exists []. now rewrite app_nil_r.
  - destruct (throws e n); [exists []; now rewrite app_nil_r|].
    destruct (IH (S n) (insert_stock (now e) r d)) as [more Hmore].
    rewrite Hmore. cbn [insert_stock tables stocks set_stocks].
    rewrite <- app_assoc. now eexists.
Qed.

Lemma insert_initial_stocks_some (e : Env) (n : nat) (rows : list InsertStock.t)
      (d : Database) :
  rows <> [] -> throws e n = false ->
  stocks (tables (insert_initial_stocks e n rows d)) <> [].
Proof.
  intros Hrows Hn. destruct rows as [|r rows]; [contradiction|].
  cbn [insert_initial_stocks]. rewrite Hn.
  destruct (insert_initial_stocks_prefix e rows (S n) (insert_stock (now e) r d))
    as [more Hmore].
  rewrite Hmore. cbn [insert_stock tables stocks set_stocks].
  destruct (stocks (tables d)); discriminate.
Qed.

(** After a run without failure there are a demo user and stocks. *)
Lemma initializeDatabase_seeds (e : Env) (d : Database) :
  no_throw e ->
  find (fun u => String.eqb (User.username u) "demo")
       (users (tables (initializeDatabase e d))) <> None /\
  stocks (tables (initializeDatabase e d)) <> [].
Proof.
  intros He.
  assert (Hstocks : forall n d0, stocks (tables (initialize_stocks e n d0)) <> []).
  { intros n d0. unfold initialize_stocks. rewrite (He n).
    destruct (stocks (tables d0)) as [|k ks] eqn:Hk; [|now rewrite Hk].
    apply insert_initial_stocks_some; [discriminate | apply He]. }
  unfold initializeDatabase. rewrite (He 0%nat).
  destruct (find _ (users (tables d))) as [u|] eqn:Hu.
  - split; [|apply Hstocks]. rewrite initialize_stocks_users, Hu. discriminate.
  - rewrite (He 1%nat). split; [|apply Hstocks].
    rewrite initialize_stocks_users. cbn [insert_user tables users set_users].
    rewrite (find_app_fresh _ _ _ Hu). discriminate.
Qed.

(** With a demo user and stocks there is nothing to do. *)
Lemma initializeDatabase_seeded (e : Env) (d : Database) :
  find (fun u => String.eqb (User.username u) "demo") (users (tables d)) <> None ->
  stocks (tables d) <> [] ->
  initializeDatabase e d = d.
Proof.
  intros Hu Hk. unfold initializeDatabase, initialize_stocks.
  destruct (throws e 0); [reflexivity|].
  destruct (find _ (users (tables d))); [|contradiction].
  destruct (throws e 1); [reflexivity|].
  destruct (stocks (tables d)); [contradiction | reflexivity].
Qed.

(** X18.  After a run of [initializeDatabase] in which no database call
    fails, running it again changes nothing, whatever fails then: the demo
    user and the stocks are inserted once. *)
Theorem initializeDatabase_once (e e' : Env) (d : Database) :
  no_throw e ->
  initializeDatabase e' (initializeDatabase e d) = initializeDatabase e d.
Proof.
  intros He. destruct (initializeDatabase_seeds e d He) as [Hu Hk].
  now apply initializeDatabase_seeded.
Qed.

Lemma initializeDatabase_once_witness :
  initializeDatabase (failing_at 0) (initializeDatabase calm empty_database)
  = initializeDatabase calm empty_database /\
  length (stocks (tables (initializeDatabase calm empty_database))) = 5%nat.
Proof.
  split; [|reflexivity].
  apply (initializeDatabase_once calm (failing_at 0) empty_database).
  intros n. reflexivity.
Defined.

(** X19.  [initializeDatabase] inserts stocks into an empty stock table
    only: when an earlier run failed after its first insertions, no later
    run inserts the stocks that are missing.  It never touches the orders,
    the positions and the trades. *)
Theorem initializeDatabase_keeps_partial_catalogue (e : Env) (d : Database) :
  stocks (tables d) <> [] ->
  stocks (tables (initializeDatabase e d)) = stocks (tables d) /\
  orders (tables (initializeDatabase e d)) = orders (tables d) /\
  positions (tables (initializeDatabase e d)) = positions (tables d) /\
  trades (tables (initializeDatabase e d)) = trades (tables d).
Proof.
  intros Hk. unfold initializeDatabase, initialize_stocks. revert Hk.
  destruct (throws e 0); [intros _; repeat split|].
  destruct (find _ (users (tables d))).
  - destruct (throws e 1); [intros _; repeat split|].
    destruct (stocks (tables d)) eqn:E; intros Hk;
      [now elim Hk
      | cbn [insert_user tables stocks orders positions trades set_users];
        rewrite ?E; repeat split].
  - destruct (throws e 1); [intros _; repeat split|].
    destruct (throws e 2); [intros _; repeat split|].
    cbn [insert_user tables stocks set_users].
    destruct (stocks (tables d)) eqn:E; intros Hk;
      [now elim Hk
      | cbn [insert_user tables stocks orders positions trades set_users];
        rewrite ?E; repeat split].
Qed.

Lemma initializeDatabase_keeps_partial_catalogue_witness :
  length (stocks (tables (initializeDatabase (failing_at 5) empty_database))) = 2%nat /\
  stocks (tables (initializeDatabase calm
                    (initializeDatabase (failing_at 5) empty_database)))
  = stocks (tables (initializeDatabase (failing_at 5) empty_database)).
Proof.
  split; [reflexivity|].
  apply (initializeDatabase_keeps_partial_catalogue calm
           (initializeDatabase (failing_at 5) empty_database)).
  intros H. vm_compute in H. discriminate H.
Defined.

(** ** The stock map of [MemStorage] and the stock table *)

Lemma dash_free_tail (c : ascii) (s : string) :
  dash_free (String c s) -> c <> "-"%char /\ dash_free s.
Proof.
  unfold dash_free. cbn [list_ascii_of_string In]. intros H. split.
  - intros E. apply H. left. now symmetry.
  - intros Hin. apply H. now right.
Qed.

Lemma dash_in_key (a b : string) : ~ dash_free (stock_key a b).
Proof.
  unfold stock_key, dash_free. intros H. apply H. clear H.
  induction a as [|c a IH]; cbn [append list_ascii_of_string In]; [now left | now right].
Qed.

Lemma stock_key_apart (a b c d : string) :
  dash_free b -> dash_free d -> stock_key a b = stock_key c d -> a = c /\ b = d.
Proof.
  intros Hb Hd. revert c. induction a as [|x a IH]; intros [|y c] H.
  - unfold stock_key in H. cbn [append] in H. injection H as H. now split.
  - exfalso. unfold stock_key in H. cbn [append] in H. injection H as _ H.
    apply (dash_in_key c d). replace (stock_key c d) with b by exact H. exact Hb.
  - exfalso. unfold stock_key in H. cbn [append] in H. injection H as _ H.
    apply (dash_in_key a b). replace (stock_key a b) with d by (symmetry; exact H).
    exact Hd.
  - unfold stock_key in H. cbn [append] in H. injection H as Hx H.
    destruct (IH c H) as [-> ->]. now subst.
Qed.

Lemma stock_key_eqb (a b c d : string) :
  dash_free b -> dash_free d ->
  String.eqb (stock_key a b) (stock_key c d) = String.eqb a c && String.eqb b d.
Proof.
  intros Hb Hd. destruct (String.eqb (stock_key a b) (stock_key c d)) eqn:E.
  - apply String.eqb_eq in E. destruct (stock_key_apart a b c d Hb Hd E) as [-> ->].
    now rewrite !String.eqb_refl.
  - symmetry. apply Bool.not_true_is_false. intros H.
    apply andb_prop in H. destruct H as [H1 H2].
    apply String.eqb_eq in H1, H2. subst. now rewrite String.eqb_refl in E.
Qed.

Lemma find_map_snd {K V : Type} (P : K * V -> bool) (Q : V -> bool) (m : list (K * V)) :
  Forall (fun kv => P kv = Q (snd kv)) m ->
  option_map snd (find P m) = find Q (map snd m).
Proof.
  induction 1 as [|kv m Hkv _ IH]; cbn [find map]; [reflexivity|].
  rewrite <- Hkv. destruct (P kv); [reflexivity | exact IH].
Qed.

Lemma keyed_tests (entries : list (string * Stock.t)) (symbol exchange : string) :
  keyed entries -> dash_free exchange ->
  Forall (fun kv => String.eqb (fst kv) (stock_key symbol exchange)
                    = String.eqb (Stock.symbol (snd kv)) symbol
                      && String.eqb (Stock.exchange (snd kv)) exchange) entries.
Proof.
  intros [_ Hk] Hex. eapply Forall_impl; [|exact Hk]. cbv beta.
  intros kv [-> Hd]. now apply stock_key_eqb.
Qed.

Lemma getStock_keyed (entries : list (string * Stock.t)) (symbol exchange : string)
      (s : Store) :
  keyed entries -> dash_free exchange ->
  MemStorage.getStock symbol exchange entries
  = DatabaseStorage.getStock symbol exchange
      (set_stocks (MemStorage.getAllStocks entries) s).
Proof.
  intros Hk Hex. unfold MemStorage.getStock, map_get, DatabaseStorage.getStock.
  cbn [stocks set_stocks]. unfold MemStorage.getAllStocks.
  apply (find_map_snd _ (fun k => String.eqb (Stock.symbol k) symbol
                                  && String.eqb (Stock.exchange k) exchange)).
  now apply keyed_tests.
Qed.

Lemma map_has_get {V : Type} (key : string) (m : list (string * V)) (v : V) :
  map_get key m = Some v -> map_has key m = true.
Proof.
  unfold map_get, map_has. destruct (find _ m) as [kv|] eqn:E; [|discriminate].
  intros _. apply find_some in E. apply existsb_exists. now exists kv.
Qed.

Lemma map_get_entry {V : Type} (key : string) (m : list (string * V)) (v : V) (kv : string * V) :
  NoDup (map fst m) -> map_get key m = Some v ->
  In kv m -> String.eqb (fst kv) key = true -> snd kv = v.
Proof.
  unfold map_get. intros Hnd Hget Hin Hkey.
  destruct (find _ m) as [kv'|] eqn:E; [|discriminate].
  cbn [option_map] in Hget. injection Hget as <-.
  apply find_some in E. destruct E as [Hin' Hkey'].
  apply String.eqb_eq in Hkey, Hkey'.
  f_equal. apply (NoDup_map_one fst m); [exact Hnd | exact Hin | exact Hin' | congruence].
Qed.

(** X20.  A stock map whose entries sit under the key of their own symbol
    and exchange, with exchanges that have no dash: [MemStorage] finds the
    stock that [DatabaseStorage] finds in the table of the same stocks, and
    [updateStockPrice] does to the map what it does to the table, and keeps
    the map so keyed. *)
Theorem MemStorage_stocks_as_table
        (entries : list (string * Stock.t)) (symbol exchange : string)
        (t : Date) (price : number) (s : Store) :
  keyed entries -> dash_free exchange ->
  MemStorage.getStock symbol exchange entries
  = DatabaseStorage.getStock symbol exchange
      (set_stocks (MemStorage.getAllStocks entries) s) /\
  MemStorage.getAllStocks (MemStorage.updateStockPrice t symbol exchange price entries)
  = stocks (DatabaseStorage.updateStockPrice t symbol exchange price
              (set_stocks (MemStorage.getAllStocks entries) s)) /\
  keyed (MemStorage.updateStockPrice t symbol exchange price entries).
Proof.
  intros Hk Hex. split; [now apply getStock_keyed|].
  pose proof (getStock_keyed entries symbol exchange s Hk Hex) as Hget.
  pose proof (keyed_tests entries symbol exchange Hk Hex) as Htests.
  unfold MemStorage.getStock in Hget.
  unfold MemStorage.updateStockPrice, DatabaseStorage.updateStockPrice.
  cbv zeta. cbn [stocks set_stocks].
  destruct (map_get (stock_key symbol exchange) entries) as [stock|] eqn:Hfound.
  - unfold map_set. rewrite (map_has_get _ _ _ Hfound).
    destruct Hk as [Hnd Hall]. split; [|split].
    + unfold MemStorage.getAllStocks, update_where. rewrite !map_map.
      apply map_ext_in. intros kv Hin.
      rewrite Forall_forall in Htests. rewrite <- (Htests kv Hin).
      destruct (String.eqb (fst kv) (stock_key symbol exchange)) eqn:E; [|reflexivity].
      cbn [snd]. now rewrite (map_get_entry _ _ _ kv Hnd Hfound Hin E).
    + rewrite map_map. erewrite map_ext_in; [exact Hnd|].
      intros kv Hin. cbv beta.
      destruct (String.eqb (fst kv) (stock_key symbol exchange)) eqn:E; [|reflexivity].
      apply String.eqb_eq in E. now rewrite E.
    + rewrite Forall_forall in *. intros kv' Hin'.
      apply in_map_iff in Hin'. destruct Hin' as [kv [<- Hin]].
      destruct (String.eqb (fst kv) (stock_key symbol exchange)) eqn:E;
        [|now apply Hall].
      cbn [fst snd Stock.symbol Stock.exchange].
      rewrite <- (map_get_entry _ _ _ kv Hnd Hfound Hin E).
      apply String.eqb_eq in E. rewrite <- E. now apply Hall.
  - split; [|exact Hk].
    unfold DatabaseStorage.getStock in Hget. cbn [stocks set_stocks] in Hget.
    symmetry in Hget. now rewrite update_where_absent by exact Hget.
Qed.

Lemma MemStorage_stocks_as_table_witness :
  MemStorage.getStock "RELIANCE" "NSE" [("RELIANCE-NSE", reliance)]
  = DatabaseStorage.getStock "RELIANCE" "NSE" empty_store /\
  MemStorage.getAllStocks
    (MemStorage.updateStockPrice 7 "RELIANCE" "NSE" (Fin 2500) [("RELIANCE-NSE", reliance)])
  = stocks (DatabaseStorage.updateStockPrice 7 "RELIANCE" "NSE" (Fin 2500) empty_store) /\
  keyed (MemStorage.updateStockPrice 7 "RELIANCE" "NSE" (Fin 2500)
           [("RELIANCE-NSE", reliance)]).
Proof.
  apply (MemStorage_stocks_as_table [("RELIANCE-NSE", reliance)] "RELIANCE" "NSE"
           7 (Fin 2500) empty_store).
  - split; [repeat constructor; intros [] |].
    repeat constructor. unfold dash_free. cbn. intuition discriminate.
  - unfold dash_free. cbn. intuition discriminate.
Defined.

(** ** Terminal statuses *)

Lemma status_restamped (i orderId : Z) (f : Order.t -> Order.t) (s : Store) (st : string) :
  (forall x, Order.id (f x) = Order.id x) ->
  status_of i s = Some st ->
  status_of i (set_orders (update_where (fun o => Order.id o =? orderId) f (orders s)) s)
  = if i =? orderId
    then option_map (fun o => Order.status (f o)) (storage.getOrder i s)
    else Some st.
Proof.
  intros Hid Hst. unfold status_of, storage.getOrder, DatabaseStorage.getOrder in *.
  cbn [orders set_orders].
  rewrite find_update_where by (intros x; now rewrite Hid).
  destruct (find _ (orders s)) as [o|] eqn:Ho; [|discriminate].
  cbn [option_map] in *. apply find_some in Ho. destruct Ho as [_ Ho].
  apply Z.eqb_eq in Ho. rewrite Ho. now destruct (i =? orderId).
Qed.

Lemma write_keeps_cancelled (i : Z) (s s' : Store) :
  write s s' -> status_of i s = Some "CANCELLED" -> status_of i s' = Some "CANCELLED".
Proof.
  intros Hw Hst.
  destruct Hw as [t io row s s' Hrow|oid s|t oid p o s Ho Hpending
                 |t t' oid p o s Ho Hpending| | | | | |];
    inserted;
    try exact Hst.
  - unfold status_of, storage.getOrder, DatabaseStorage.getOrder in *.
    cbn [orders snd storage.createOrder DatabaseStorage.createOrder insert_order].
    destruct (find _ (orders s)) as [o|] eqn:Ho; [|discriminate].
    now rewrite (find_app_found _ _ _ _ Ho).
  - unfold storage.cancelOrder, DatabaseStorage.cancelOrder.
    rewrite (status_restamped i oid _ s "CANCELLED") by (reflexivity || exact Hst).
    destruct (i =? oid); [|reflexivity].
    unfold status_of in Hst. now destruct (storage.getOrder i s).
  - unfold storage.updateOrderStatus, DatabaseStorage.updateOrderStatus.
    rewrite (status_restamped i oid _ s "CANCELLED") by (reflexivity || exact Hst).
    destruct (i =? oid) eqn:E; [|reflexivity].
    apply Z.eqb_eq in E. subst i. unfold status_of in Hst. rewrite Ho in Hst.
    cbn [option_map] in Hst. congruence.
  - change (status_of i (snd (storage.createTrade t' (trade_of o p)
                                (storage.updateOrderStatus t oid "EXECUTED" (Some p) s))))
      with (status_of i (storage.updateOrderStatus t oid "EXECUTED" (Some p) s)).
    unfold storage.updateOrderStatus, DatabaseStorage.updateOrderStatus.
    rewrite (status_restamped i oid _ s "CANCELLED") by (reflexivity || exact Hst).
    destruct (i =? oid) eqn:E; [|reflexivity].
    apply Z.eqb_eq in E. subst i. unfold status_of in Hst. rewrite Ho in Hst.
    cbn [option_map] in Hst. congruence.
Qed.

Lemma write_keeps_terminal (i : Z) (s s' : Store) :
  write s s' ->
  status_of i s = Some "EXECUTED" \/ status_of i s = Some "CANCELLED" ->
  status_of i s' = Some "EXECUTED" \/ status_of i s' = Some "CANCELLED".
Proof.
  intros Hw [Hst | Hst]; [|right; now apply (write_keeps_cancelled i s s')].
  destruct Hw as [t io row s s' Hrow|oid s|t oid p o s Ho Hpending
                 |t t' oid p o s Ho Hpending| | | | | |];
    inserted;
    try (left; exact Hst).
  - left. unfold status_of, storage.getOrder, DatabaseStorage.getOrder in *.
    cbn [orders snd storage.createOrder DatabaseStorage.createOrder insert_order].
    destruct (find _ (orders s)) as [o|] eqn:Ho; [|discriminate].
    now rewrite (find_app_found _ _ _ _ Ho).
  - unfold storage.cancelOrder, DatabaseStorage.cancelOrder.
    rewrite (status_restamped i oid _ s "EXECUTED") by (reflexivity || exact Hst).
    destruct (i =? oid); [right | now left].
    unfold status_of in Hst. now destruct (storage.getOrder i s).
  - left. unfold storage.updateOrderStatus, DatabaseStorage.updateOrderStatus.
    rewrite (status_restamped i oid _ s "EXECUTED") by (reflexivity || exact Hst).
    destruct (i =? oid) eqn:E; [|reflexivity].
    apply Z.eqb_eq in E. subst i. unfold status_of in Hst. rewrite Ho in Hst.
    cbn [option_map] in Hst. congruence.
  - left.
    change (status_of i (snd (storage.createTrade t' (trade_of o p)
                                (storage.updateOrderStatus t oid "EXECUTED" (Some p) s))))
      with (status_of i (storage.updateOrderStatus t oid "EXECUTED" (Some p) s)).
    unfold storage.updateOrderStatus, DatabaseStorage.updateOrderStatus.
    rewrite (status_restamped i oid _ s "EXECUTED") by (reflexivity || exact Hst).
    destruct (i =? oid) eqn:E; [|reflexivity].
    apply Z.eqb_eq in E. subst i. unfold status_of in Hst. rewrite Ho in Hst.
    cbn [option_map] in Hst. congruence.
Qed.

(** X21.  Whatever the operation and whatever fails in it: an order that is
    CANCELLED is CANCELLED afterwards, and an order that is EXECUTED is
    EXECUTED or CANCELLED afterwards.  No route, and no sweep, takes an order
    back to PENDING or settles it a second time. *)
Theorem perform_keeps_terminal (op : Operation) (e : Env) (s : Store) (i : Z) :
  (status_of i s = Some "CANCELLED" ->
   status_of i (perform op e s) = Some "CANCELLED") /\
  (status_of i s = Some "EXECUTED" ->
   status_of i (perform op e s) = Some "EXECUTED"
   \/ status_of i (perform op e s) = Some "CANCELLED").
Proof.
  split; intros Hst.
  - apply (steps_keep write (fun s' => status_of i s' = Some "CANCELLED")
             (write_keeps_cancelled i) _ _ (perform_writes op e s) Hst).
  - apply (steps_keep write
             (fun s' => status_of i s' = Some "EXECUTED"
                        \/ status_of i s' = Some "CANCELLED")
             (write_keeps_terminal i) _ _ (perform_writes op e s)).
    now left.
Qed.

Lemma perform_keeps_terminal_witness :
  status_of 3 (perform Sweep tcs_only three_orders_store) = Some "CANCELLED" /\
  (status_of 1 (perform (Cancel 1) calm first_store) = Some "EXECUTED"
   \/ status_of 1 (perform (Cancel 1) calm first_store) = Some "CANCELLED").
Proof.
  split.
  - apply (perform_keeps_terminal Sweep tcs_only three_orders_store 3). reflexivity.
  - apply (perform_keeps_terminal (Cancel 1) calm first_store 1). reflexivity.
Defined.

(** ** What a settlement leaves alone *)

Lemma in_update_where_other {A : Type} (P : A -> bool) (f : A -> A) (l : list A) (x : A) :
  (forall r, P (f r) = P r) -> P x = false ->
  (In x (update_where P f l) <-> In x l).
Proof.
  intros Hf Hx. split.
  - intros H. apply in_update_where_inv in H. destruct H as [r [Hr ->]].
    destruct (P r) eqn:E; [|exact Hr]. rewrite Hf, E in Hx. discriminate.
  - intros H. unfold update_where. apply in_map_iff. exists x. now rewrite Hx.
Qed.

Lemma in_delete_where_other {A : Type} (P : A -> bool) (l : list A) (x : A) :
  P x = false -> (In x (delete_where P l) <-> In x l).
Proof.
  intros Hx. unfold delete_where. rewrite filter_In, Hx. cbn [negb]. tauto.
Qed.

Lemma in_app_other {A : Type} (l : list A) (x new : A) :
  x <> new -> (In x (l ++ [new]) <-> In x l).
Proof.
  intros Hx. rewrite in_app_iff. cbn [In]. split; [|tauto].
  intros [H | [H | []]]; [exact H | now elim Hx].
Qed.

Lemma getPosition_key (userId : Z) (symbol exchange : string) (s : Store) (pos : Position.t) :
  storage.getPosition userId symbol exchange s = Some pos ->
  position_key pos = (userId, symbol, exchange).
Proof.
  intros H. apply find_some in H. destruct H as [_ H].
  apply andb_prop in H. destruct H as [H He]. apply andb_prop in H. destruct H as [Hu Hs].
  apply Z.eqb_eq in Hu. apply String.eqb_eq in Hs, He. unfold position_key. congruence.
Qed.

Lemma other_position_id (s : Store) (pos existing : Position.t) :
  NoDup (map Position.id (positions s)) ->
  In pos (positions s) -> In existing (positions s) ->
  position_key pos <> position_key existing ->
  (Position.id pos =? Position.id existing) = false.
Proof.
  intros Hnd Hpos Hex Hkey. apply Z.eqb_neq. intros E. apply Hkey. f_equal.
  now apply (NoDup_map_one Position.id (positions s)).
Qed.

Lemma unrelated_same (o : Order.t) (s : Store) : unrelated o s s.
Proof.
  split; [intros i _; reflexivity|].
  split; [intros pos _; reflexivity | split; [intros u _|]; reflexivity].
Qed.

Lemma unrelated_trans (o : Order.t) (s s' s'' : Store) :
  unrelated o s s' -> unrelated o s' s'' -> unrelated o s s''.
Proof.
  intros [Ho [Hp [Hu Hk]]] [Ho' [Hp' [Hu' Hk']]].
  split; [|split; [|split]].
  - intros i Hi. now rewrite Ho', Ho.
  - intros pos Hpos. now rewrite Hp', Hp.
  - intros u Hne. now rewrite Hu', Hu.
  - congruence.
Qed.

Lemma settling_unrelated (o : Order.t) (s s' : Store) :
  settling o s s' ->
  numbered_rows (map Position.id (positions s)) (currentPositionId s) ->
  unrelated o s s' /\
  numbered_rows (map Position.id (positions s')) (currentPositionId s').
Proof.
  intros Hw Hn. pose proof Hn as [Hlt Hnd].
  destruct Hw as [t p s|t p s|t p s|t existing q avg s Hex|existing s Hex|b s].
  - split; [|exact Hn].
    split; [|split; [intros pos _; reflexivity | split; [intros u _|]; reflexivity]].
    intros i Hi. unfold storage.getOrder, DatabaseStorage.getOrder.
    cbn [orders storage.updateOrderStatus DatabaseStorage.updateOrderStatus set_orders].
    rewrite find_update_where by reflexivity.
    destruct (find _ (orders s)) as [x|] eqn:Hx; [|reflexivity].
    cbn [option_map]. apply find_some in Hx. destruct Hx as [_ Hx].
    apply Z.eqb_eq in Hx. rewrite Hx.
    destruct (i =? Order.id o) eqn:E; [apply Z.eqb_eq in E; contradiction | reflexivity].
  - split; [|exact Hn].
    split; [intros i _; reflexivity|].
    split; [intros pos _; reflexivity | split; [intros u _|]; reflexivity].
  - split.
    + split; [intros i _; reflexivity|].
      split; [|split; [intros u _|]; reflexivity].
      intros pos Hpos.
      cbn [positions snd storage.createPosition DatabaseStorage.createPosition
           insert_position].
      apply in_app_other. intros ->. apply Hpos. reflexivity.
    + cbn [positions currentPositionId snd storage.createPosition
           DatabaseStorage.createPosition insert_position].
      rewrite map_app. now apply numbered_rows_insert.
  - pose proof (getPosition_key _ _ _ _ _ Hex) as Hkey.
    pose proof (getPosition_In _ _ _ _ _ Hex) as Hin.
    split.
    + split; [intros i _; reflexivity|].
      split; [|split; [intros u _|]; reflexivity].
      intros pos Hpos.
      cbn [positions storage.updatePosition DatabaseStorage.updatePosition
           set_positions].
      split; intros H.
      * apply in_update_where_inv in H. destruct H as [r [Hr Heq]].
        destruct (Position.id r =? Position.id existing) eqn:E; [|now subst].
        exfalso. apply Hpos. subst pos. rewrite <- Hkey.
        apply Z.eqb_eq in E.
        assert (r = existing)
          by now apply (NoDup_map_one Position.id (positions s)).
        now subst r.
      * apply in_update_where_other; [reflexivity | | exact H].
        apply (other_position_id s); [exact Hnd | exact H | exact Hin |].
        now rewrite Hkey.
    + cbn [positions currentPositionId storage.updatePosition
           DatabaseStorage.updatePosition set_positions].
      now rewrite (map_update_where Position.id) by reflexivity.
  - pose proof (getPosition_key _ _ _ _ _ Hex) as Hkey.
    pose proof (getPosition_In _ _ _ _ _ Hex) as Hin.
    split.
    + split; [intros i _; reflexivity|].
      split; [|split; [intros u _|]; reflexivity].
      intros pos Hpos.
      cbn [positions storage.deletePosition DatabaseStorage.deletePosition
           set_positions].
      split; intros H.
      * unfold delete_where in H. apply filter_In in H. tauto.
      * apply in_delete_where_other; [|exact H].
        apply (other_position_id s); [exact Hnd | exact H | exact Hin |].
        now rewrite Hkey.
    + cbn [positions currentPositionId storage.deletePosition
           DatabaseStorage.deletePosition set_positions].
      split; [now apply Forall_map_delete_where | now apply NoDup_map_delete_where].
  - split; [|exact Hn].
    split; [intros i _; reflexivity|].
    split; [intros pos _; reflexivity|]. split; [|reflexivity].
    intros u Hu.
    cbn [users storage.updateUserBalance DatabaseStorage.updateUserBalance set_users].
    apply in_update_where_other; [reflexivity | now apply Z.eqb_neq].
Qed.

(** Whatever throws, a run of [executeOrder] that has read the order [o]
    makes the writes of a settlement of [o] only. *)
Lemma executeOrder_settling (e : Env) (n : nat) (orderId : Z) (p : number) (s : Store)
      (o : Order.t) :
  storage.getOrder orderId s = Some o ->
  steps (settling o) s (snd (executeOrder orderId p e n s)).
Proof.
  intros Ho. pose proof (getOrder_id _ _ _ Ho) as Hid. subst orderId.
  unfold executeOrder, try_catch.
  crash_or_go_on; [apply steps_none|]. rewrite Ho.
  repeat crash_or_go_on;
    cbv beta iota; cbn [snd fst];
    repeat (eapply steps_more; [| solve [econstructor; eauto]]);
    apply steps_none.
Qed.

(** X22.  Whatever fails, a run of [executeOrder] on the order [o], over a
    store whose position ids are distinct and below the next one, changes
    nothing about the rest: every other order is as it was, the positions of
    other users or in other instruments are the same rows, the other users
    are the same rows, and so are the stocks. *)
Theorem executeOrder_frame (e : Env) (orderId : Z) (p : number) (s : Store) (o : Order.t) :
  storage.getOrder orderId s = Some o ->
  numbered_rows (map Position.id (positions s)) (currentPositionId s) ->
  (forall i, i <> orderId ->
             storage.getOrder i (store_after (executeOrder orderId p) e s)
             = storage.getOrder i s) /\
  (forall pos, position_key pos <> (Order.userId o, Order.symbol o, Order.exchange o) ->
               (In pos (positions (store_after (executeOrder orderId p) e s))
                <-> In pos (positions s))) /\
  (forall u, User.id u <> Order.userId o ->
             (In u (users (store_after (executeOrder orderId p) e s)) <-> In u (users s))) /\
  stocks (store_after (executeOrder orderId p) e s) = stocks s.
Proof.
  intros Ho Hn.
  pose proof (executeOrder_settling e 0 orderId p s o Ho) as Hrun.
  pose proof (getOrder_id _ _ _ Ho) as Hid. subst orderId.
  change (unrelated o s (store_after (executeOrder (Order.id o) p) e s)).
  apply (steps_keep (settling o)
           (fun s' => unrelated o s s'
                      /\ numbered_rows (map Position.id (positions s'))
                                       (currentPositionId s'))
           (fun s1 s2 Hw H =>
              conj (unrelated_trans o s s1 s2 (proj1 H)
                      (proj1 (settling_unrelated o s1 s2 Hw (proj2 H))))
                   (proj2 (settling_unrelated o s1 s2 Hw (proj2 H))))
           s _ Hrun).
  split; [apply unrelated_same | exact Hn].
Qed.

Lemma executeOrder_frame_witness :
  storage.getOrder 2 (store_after (executeOrder 1 (Fin 2400)) calm three_orders_store)
  = Some (tcs_order 2 "PENDING") /\
  stocks (store_after (executeOrder 1 (Fin 2400)) calm three_orders_store) = [reliance].
Proof.
  destruct (executeOrder_frame calm 1 (Fin 2400) three_orders_store
              (demo_order "BUY" 10 "2400.00") eq_refl) as [Horders [_ [_ Hstocks]]].
  - split; constructor.
  - split; [|exact Hstocks].
    rewrite (Horders 2); [reflexivity | discriminate].
Defined.
